(** * websocket-mcp-proxy: routing and transport layer

    A shallow embedding of [src/server.js] (the tool router of
    [MCPProxyServer]) and [src/http-transport.js] ([HttpTransport]), with the
    properties of the gateway specification stated and proved over it.

    Conventions of the embedding:
    - JavaScript values that flow through the router are [jsval]; a missing
      property reads as [VUndefined];
    - an [async] function that may reject is a function into [Outcome];
    - what a backend answers is an oracle carried by the registry entry;
    - the event loop of the push-stream binding is a step function over an
      explicit transport state, one step per callback that Node runs. *)

From Stdlib Require Import ZArith String Ascii.
From stdpp Require Import base option list gmap strings pretty.

Open Scope string_scope.
Open Scope Z_scope.

Set Warnings "-register-all".

(* ===================================================================== *)
(** ** JavaScript values                                                  *)
(* ===================================================================== *)

(** Values as [JSON.parse] builds them, plus [undefined].  Numbers are the
    integers; an object is its list of own properties in insertion order. *)
Inductive jsval : Type :=
  | VUndefined
  | VNull
  | VBool (b : bool)
  | VNum (n : Z)
  | VStr (s : string)
  | VArr (items : list jsval)
  | VObj (fields : list (string * jsval)).

(** What JavaScript throws: an [Error] built by the program with its message,
    or one of the runtime's own. *)
Inductive JsError : Type :=
  | Error (message : string)
  | TypeError (message : string)
  | SyntaxError (message : string)
  | AbortError (message : string).

(** [error.name] *)
Definition error_name (e : JsError) : string :=
  match e with
  | Error _ => "Error"
  | TypeError _ => "TypeError"
  | SyntaxError _ => "SyntaxError"
  | AbortError _ => "AbortError"
  end.

(** The completion of an awaited call. *)
Inductive Outcome (A : Type) : Type :=
  | Return (a : A)
  | Throw (e : JsError).
Arguments Return {A} a.
Arguments Throw {A} e.

Definition bind {A B} (m : Outcome A) (k : A -> Outcome B) : Outcome B :=
  match m with
  | Return a => k a
  | Throw e => Throw e
  end.

Notation "'let*' x ':=' m 'in' k" := (bind m (fun x => k))
  (at level 10, x name, m at level 100, k at level 200).

(** [try { m } catch { h }]. *)
Definition try_catch {A} (m : Outcome A) (h : JsError -> Outcome A) : Outcome A :=
  match m with
  | Return a => Return a
  | Throw e => h e
  end.

(** ToBoolean. *)
Definition truthy (v : jsval) : bool :=
  match v with
  | VUndefined | VNull => false
  | VBool b => b
  | VNum n => negb (n =? 0)
  | VStr s => negb (String.eqb s "")
  | VArr _ | VObj _ => true
  end.

(** [a || b]. *)
Definition js_or (a b : jsval) : jsval := if truthy a then a else b.

Fixpoint assoc_get {A} (k : string) (l : list (string * A)) : option A :=
  match l with
  | [] => None
  | (k', v) :: r => if String.eqb k k' then Some v else assoc_get k r
  end.

(** Writing a property: an existing key keeps its place, a new one goes last. *)
Fixpoint assoc_set {A} (k : string) (v : A) (l : list (string * A)) : list (string * A) :=
  match l with
  | [] => [(k, v)]
  | (k', v') :: r =>
      if String.eqb k k' then (k, v) :: r else (k', v') :: assoc_set k v r
  end.

(** [v.key]: a TypeError on [undefined] and [null], the own property of an
    object, [undefined] on everything else (none of the keys the program reads
    is a built-in property of a primitive or of an array). *)
Definition get_prop (key : string) (v : jsval) : Outcome jsval :=
  match v with
  | VUndefined =>
      Throw (TypeError ("Cannot read properties of undefined (reading '" +:+ key +:+ "')"))
  | VNull =>
      Throw (TypeError ("Cannot read properties of null (reading '" +:+ key +:+ "')"))
  | VObj fields => Return (default VUndefined (assoc_get key fields))
  | _ => Return VUndefined
  end.

(** [v?.key]. *)
Definition get_prop_opt (key : string) (v : jsval) : jsval :=
  match v with
  | VObj fields => default VUndefined (assoc_get key fields)
  | _ => VUndefined
  end.

(* ===================================================================== *)
(** ** Strings                                                            *)
(* ===================================================================== *)

(** [s.split(sep)] for a one-character separator: every piece, so the result
    is never empty and [""] splits into [[""]]. *)
Fixpoint str_split (sep : ascii) (s : string) : list string :=
  match s with
  | EmptyString => [EmptyString]
  | String c rest =>
      if Ascii.eqb c sep then EmptyString :: str_split sep rest
      else match str_split sep rest with
           | [] => [String c EmptyString]
           | piece :: pieces => String c piece :: pieces
           end
  end.

(** [s.split(sep, limit)]: the split is carried out in full and at most
    [limit] pieces are kept; the text after them is dropped. *)
Definition split_limit (sep : ascii) (limit : nat) (s : string) : list string :=
  take limit (str_split sep s).

(** [s.includes(needle)]. *)
Fixpoint includes (needle s : string) : bool :=
  if String.prefix needle s then true
  else match s with
       | EmptyString => false
       | String _ rest => includes needle rest
       end.

(** White space of [String.prototype.trim] within ASCII.  The white space
    beyond ASCII that [trim] strips as well (the no-break space, the byte
    order mark and the other space separators) is not judged: a text that is
    blank here is blank for the code, and a text with an ASCII character
    that is no white space is blank for neither. *)
Definition is_space (c : ascii) : bool :=
  let n := nat_of_ascii c in
  (Nat.eqb n 9 || Nat.eqb n 10 || Nat.eqb n 11 || Nat.eqb n 12
   || Nat.eqb n 13 || Nat.eqb n 32)%bool.

Fixpoint trim_start (s : string) : string :=
  match s with
  | EmptyString => EmptyString
  | String c rest => if is_space c then trim_start rest else s
  end.

Fixpoint trim_end (s : string) : string :=
  match s with
  | EmptyString => EmptyString
  | String c rest =>
      match trim_end rest with
      | EmptyString => if is_space c then EmptyString else String c EmptyString
      | kept => String c kept
      end
  end.

Definition trim (s : string) : string := trim_end (trim_start s).

(** A string in a condition: [if (s)], [!s], [s || ...]. *)
Definition str_truthy (s : string) : bool := negb (String.eqb s "").

(** A possibly [undefined] string in a condition. *)
Definition opt_truthy (o : option string) : bool :=
  match o with
  | None => false
  | Some s => str_truthy s
  end.

(** The decimal text of an integer, as a template literal prints
    [Date.now()] or a counter. *)
Definition Z_to_string (n : Z) : string := pretty n.

Definition colon : ascii := ":"%char.
Definition newline : ascii := Ascii.ascii_of_nat 10.

(** ToString, as a template literal applies it.  An array prints its elements
    joined by commas with [null] and [undefined] printed empty; a plain object
    prints as [[object Object]] unless an own [toString] property (never
    callable in a value read from JSON) hides the inherited method.  Exact for
    integers below 10^21 in absolute value. *)
Fixpoint to_string (v : jsval) : Outcome string :=
  match v with
  | VUndefined => Return "undefined"
  | VNull => Return "null"
  | VBool true => Return "true"
  | VBool false => Return "false"
  | VNum n => Return (Z_to_string n)
  | VStr s => Return s
  | VArr items =>
      (fix join (l : list jsval) : Outcome string :=
         match l with
         | [] => Return ""
         | x :: r =>
             let* a := match x with
                       | VUndefined | VNull => Return ""
                       | _ => to_string x
                       end in
             match r with
             | [] => Return a
             | _ => let* b := join r in Return (a +:+ "," +:+ b)
             end
         end) items
  | VObj fields =>
      match assoc_get "toString" fields with
      | Some _ => Throw (TypeError "Cannot convert object to primitive value")
      | None => Return "[object Object]"
      end
  end.

Fixpoint string_chars (s : string) : list jsval :=
  match s with
  | EmptyString => []
  | String c rest => VStr (String c EmptyString) :: string_chars rest
  end.

Fixpoint indexed (i : nat) (l : list jsval) : list (string * jsval) :=
  match l with
  | [] => []
  | x :: r => (pretty i, x) :: indexed (S i) r
  end.

(** The own enumerable properties that [{...v}] copies. *)
Definition spread (v : jsval) : list (string * jsval) :=
  match v with
  | VObj fields => fields
  | VArr items => indexed 0 items
  | VStr s => indexed 0 (string_chars s)
  | _ => []
  end.

(** [for (const x of xs) ...] over a body that may throw: [Array.prototype.map]. *)
Fixpoint map_outcome {A B} (f : A -> Outcome B) (l : list A) : Outcome (list B) :=
  match l with
  | [] => Return []
  | x :: r => let* y := f x in let* ys := map_outcome f r in Return (y :: ys)
  end.

(* ===================================================================== *)
(** ** The session registry ([this.mcpServers])                           *)
(* ===================================================================== *)

(** A JavaScript [Map] with string keys: entries in insertion order, one per
    key.  [set] on a present key keeps its position. *)
Definition JsMap (V : Type) : Type := list (string * V).

Definition Map_get {V} (k : string) (m : JsMap V) : option V := assoc_get k m.
Definition Map_set {V} (k : string) (v : V) (m : JsMap V) : JsMap V := assoc_set k v m.
Fixpoint Map_delete {V} (k : string) (m : JsMap V) : JsMap V :=
  match m with
  | [] => []
  | (k', v) :: r =>
      if String.eqb k k' then Map_delete k r else (k', v) :: Map_delete k r
  end.
Definition Map_keys {V} (m : JsMap V) : list string := map fst m.

Inductive ServerType : Type := STDIO | SSE | STREAMABLE_HTTP.

(** [params] of a request the router issues. *)
Inductive Params : Type :=
  | EmptyParams
  | CallParams (name : string) (arguments : jsval).

(** A request handed to a backend session's [request]. *)
Record Request : Type := mkRequest {
  req_jsonrpc : option string;
  req_method : string;
  req_id : option string;
  req_params : option Params
}.

(** A registry entry [{ server, transport, process, config, type }].  [sid]
    stands for the identity of the [server] object; [request] is what
    [server.request] completes with, an oracle for the backend behind it. *)
Record McpServer : Type := mkMcpServer {
  sid : nat;
  srv_type : ServerType;
  request : Request -> Outcome jsval
}.

(** One call of some session's [request], as the router made it. *)
Record Invocation : Type := mkInvocation {
  inv_sid : nat;
  inv_request : Request
}.

(** [startStdioServer] and [startHttpServer] end in [this.mcpServers.set]. *)
Definition register (name : string) (srv : McpServer) (mcpServers : JsMap McpServer)
  : JsMap McpServer := Map_set name srv mcpServers.

(** The child process's ['exit'] handler: [this.mcpServers.delete(name)],
    whatever the exit code. *)
Definition on_exit (name : string) (code : Z) (mcpServers : JsMap McpServer)
  : JsMap McpServer := Map_delete name mcpServers.

(** The transport's ['disconnect'] handler. *)
Definition on_disconnect (name : string) (mcpServers : JsMap McpServer)
  : JsMap McpServer := Map_delete name mcpServers.

(** [ConfigValidator.validateServer], the two checks on [server.name]: present
    and non-empty, and free of colons. *)
Definition valid_server_name (name : string) : bool :=
  str_truthy name && negb (includes ":" name).

(* ===================================================================== *)
(** ** tools/list: aggregation over the registry                          *)
(* ===================================================================== *)

Definition list_request (ty : ServerType) (now : Z) : Request :=
  match ty with
  | STDIO => mkRequest None "tools/list" None None
  | _ => mkRequest (Some "2.0") "tools/list"
           (Some ("list-" +:+ Z_to_string now)) (Some EmptyParams)
  end.

(** [tool => ({ ...tool, name: `${serverName}:${tool.name}`,
                description: `[${serverName}] ${tool.description || ''}` })] *)
Definition prefix_tool (serverName : string) (tool : jsval) : Outcome jsval :=
  let copied := spread tool in
  let* name := get_prop "name" tool in
  let* name_text := to_string name in
  let* description := get_prop "description" tool in
  let* description_text := to_string (js_or description (VStr "")) in
  Return (VObj (assoc_set "description"
                  (VStr ("[" +:+ serverName +:+ "] " +:+ description_text))
                  (assoc_set "name" (VStr (serverName +:+ ":" +:+ name_text)) copied))).

(** [response.tools || response.result?.tools || []] *)
Definition response_tools (response : jsval) : Outcome jsval :=
  let* direct := get_prop "tools" response in
  Return (js_or direct
            (js_or (get_prop_opt "tools" (get_prop_opt "result" response))
                   (VArr []))).

(** [tools.map(...)]: only an array has the method. *)
Definition prefix_tools (serverName : string) (tools : jsval) : Outcome (list jsval) :=
  match tools with
  | VArr items => map_outcome (prefix_tool serverName) items
  | _ => Throw (TypeError "tools.map is not a function")
  end.

(** The body of the [try] block for one registry entry. *)
Definition list_one (now : Z) (serverName : string) (srv : McpServer)
  : Outcome (list jsval) :=
  let* response := request srv (list_request (srv_type srv) now) in
  let* tools := response_tools response in
  prefix_tools serverName tools.

(** The [for ... of this.mcpServers] loop.  [clock i] is what [Date.now()]
    reads while the [i]-th entry is handled; a throwing entry is logged and
    leaves [allTools] as it was. *)
Fixpoint list_loop (clock : nat -> Z) (i : nat) (entries : JsMap McpServer)
    (allTools : list jsval) : list jsval :=
  match entries with
  | [] => allTools
  | (serverName, srv) :: rest =>
      let allTools' :=
        match list_one (clock i) serverName srv with
        | Return prefixedTools => (allTools ++ prefixedTools)%list
        | Throw _ => allTools
        end in
      list_loop clock (S i) rest allTools'
  end.

(** The handler of [ListToolsRequestSchema]. *)
Definition listTools_handler (mcpServers : JsMap McpServer) (clock : nat -> Z)
  : Outcome jsval :=
  Return (VObj [("tools", VArr (list_loop clock 0 mcpServers []))]).

(* ===================================================================== *)
(** ** tools/call: dispatch                                               *)
(* ===================================================================== *)

Definition MalformedToolName (toolName : string) : JsError :=
  Error ("Invalid tool name format: " +:+ toolName
         +:+ ". Expected format: serverName:toolName").

Definition UnknownBackend (serverName : string) : JsError :=
  Error ("MCP server not found: " +:+ serverName).

Definition call_request (ty : ServerType) (now : Z) (actualToolName : string)
    (toolArgs : jsval) : Request :=
  match ty with
  | STDIO => mkRequest None "tools/call" None
               (Some (CallParams actualToolName toolArgs))
  | _ => mkRequest (Some "2.0") "tools/call"
           (Some ("call-" +:+ Z_to_string now))
           (Some (CallParams actualToolName toolArgs))
  end.

(** [response.result ? response : { content: response }] *)
Definition normalize_response (response : jsval) : Outcome jsval :=
  let* result := get_prop "result" response in
  Return (if truthy result then response else VObj [("content", response)]).

(** The handler of [CallToolRequestSchema]: the sessions it invoked, in order,
    and its completion.  The [catch] block logs and rethrows, so an error of
    the [try] block is the handler's. *)
Definition callTool_handler (mcpServers : JsMap McpServer) (now : Z)
    (toolName : string) (toolArgs : jsval) : list Invocation * Outcome jsval :=
  let parts := split_limit colon 2 toolName in
  let serverName := parts !! 0%nat in
  let actualToolName := parts !! 1%nat in
  if negb (opt_truthy serverName) || negb (opt_truthy actualToolName)
  then ([], Throw (MalformedToolName toolName))
  else
    let serverName := default "" serverName in
    let actualToolName := default "" actualToolName in
    match Map_get serverName mcpServers with
    | None => ([], Throw (UnknownBackend serverName))
    | Some mcpServer =>
        let req := call_request (srv_type mcpServer) now actualToolName toolArgs in
        ([mkInvocation (sid mcpServer) req],
         let* response := request mcpServer req in
         normalize_response response)
    end.

(* ===================================================================== *)
(** ** HttpTransport                                                      *)
(* ===================================================================== *)

(** What [fetch] resolves with, as far as the transport reads it.
    [resp_contentType] is [response.headers.get('content-type')], [None] for
    [null]; [resp_chunks] is the body in the pieces [reader.read()] delivers,
    each already decoded, so the whole body is their concatenation.  The
    body is there and its reads come to an end; a response without body and
    a read that fails are told apart by [BodyEnd] further down. *)
Record HttpResponse : Type := mkHttpResponse {
  resp_ok : bool;
  resp_status : Z;
  resp_statusText : string;
  resp_contentType : option string;
  resp_chunks : list string
}.

Definition body_text (response : HttpResponse) : string :=
  foldr String.append "" (resp_chunks response).

(** Events the transport emits on itself. *)
Inductive Emitted : Type :=
  | EmConnect
  | EmMessage (data : jsval)
  | EmError (e : JsError)
  | EmDisconnect.

(** An entry of [pendingRequests]: [{ resolve, reject, timeout }].  The two
    closures settle the promise [pr_promise]; [pr_timeout] is the timer handle. *)
Record Pending : Type := mkPending {
  pr_promise : nat;
  pr_timeout : nat
}.

(** The fields of an [HttpTransport] object; [emitted] is the log of its
    [emit] calls, oldest first. *)
Record HttpTransport : Type := mkHttpTransport {
  config_name : string;
  config_type : ServerType;
  url : string;
  connected : bool;
  eventSource : bool;
  requestId : Z;
  pendingRequests : gmap string Pending;
  emitted : list Emitted
}.

Definition set_connected (b : bool) (t : HttpTransport) : HttpTransport :=
  mkHttpTransport (config_name t) (config_type t) (url t) b (eventSource t)
    (requestId t) (pendingRequests t) (emitted t).

Definition set_eventSource (b : bool) (t : HttpTransport) : HttpTransport :=
  mkHttpTransport (config_name t) (config_type t) (url t) (connected t) b
    (requestId t) (pendingRequests t) (emitted t).

Definition set_requestId (n : Z) (t : HttpTransport) : HttpTransport :=
  mkHttpTransport (config_name t) (config_type t) (url t) (connected t)
    (eventSource t) n (pendingRequests t) (emitted t).

Definition set_pendingRequests (m : gmap string Pending) (t : HttpTransport)
  : HttpTransport :=
  mkHttpTransport (config_name t) (config_type t) (url t) (connected t)
    (eventSource t) (requestId t) m (emitted t).

Definition emit (e : Emitted) (t : HttpTransport) : HttpTransport :=
  mkHttpTransport (config_name t) (config_type t) (url t) (connected t)
    (eventSource t) (requestId t) (pendingRequests t) (emitted t ++ [e])%list.

(** [new HttpTransport(config)] *)
Definition new_HttpTransport (name : string) (ty : ServerType) (u : string)
  : HttpTransport :=
  mkHttpTransport name ty u false false 0 ∅ [].

(** [connectSSE]: importing the event-source module, parsing the URL and
    opening the channel either all succeed or throw; [setup] says which. *)
Definition connectSSE (t : HttpTransport) (setup : Outcome unit)
  : HttpTransport * Outcome unit :=
  match setup with
  | Return _ => (set_eventSource true t, Return tt)
  | Throw e => (t, Throw e)
  end.

(** [connectHTTP]: one [initialize] probe, [probe] being what its [fetch]
    settles with (an [AbortError] when the five-second timer aborted it). *)
Definition connectHTTP (t : HttpTransport) (probe : Outcome HttpResponse)
  : Outcome unit :=
  try_catch
    (let* response := probe in
     if negb (resp_ok response)
     then Throw (Error ("HTTP " +:+ Z_to_string (resp_status response) +:+ ": "
                        +:+ resp_statusText response))
     else Return tt)
    (fun error =>
       if String.eqb (error_name error) "AbortError"
       then Throw (Error ("Connection timeout to " +:+ config_name t))
       else Throw error).

(** [connect] *)
Definition connect (t : HttpTransport) (setup : Outcome unit)
    (probe : Outcome HttpResponse) : HttpTransport :=
  if connected t then t
  else
    let '(t1, attempt) :=
      match config_type t with
      | SSE => connectSSE t setup
      | STREAMABLE_HTTP => (t, connectHTTP t probe)
      | STDIO => (t, Return tt)
      end in
    match attempt with
    | Return _ => emit EmConnect (set_connected true t1)
    | Throw _ =>
        (* Mark as connected anyway - we'll handle errors per request *)
        emit EmConnect (set_connected true t1)
    end.

(** [isConnected] *)
Definition isConnected (t : HttpTransport) : bool := connected t.

Definition NotConnected (t : HttpTransport) : JsError :=
  Error ("Transport not connected for " +:+ config_name t).

(** The first statements of [send]: the connection check, then
    [message.id = message.id || `req-${++this.requestId}`].  Gives the
    transport, the message with its id and that id. *)
Definition send_prepare (t : HttpTransport) (message : Request)
  : Outcome (HttpTransport * Request * string) :=
  if negb (connected t) then Throw (NotConnected t)
  else
    if opt_truthy (req_id message)
    then Return (t, message, default "" (req_id message))
    else
      let n := requestId t + 1 in
      let requestId := "req-" +:+ Z_to_string n in
      Return (set_requestId n t,
              mkRequest (req_jsonrpc message) (req_method message)
                (Some requestId) (req_params message),
              requestId).

(** Where [send] goes after its synchronous prefix. *)
Inductive SendRoute : Type :=
  | SendThrows (e : JsError)
  | ViaSSE (t : HttpTransport) (message : Request) (message_id : string)
  | ViaHTTP (t : HttpTransport) (message : Request) (message_id : string)
  | SendUndefined (t : HttpTransport).

(** The delay of the timer [sendSSE] arms, in milliseconds. *)
Definition SSE_TIMEOUT : Z := 30000.

(** An armed timer of [sendSSE]: the [message.id] its callback closes over. *)
Record Timer : Type := mkTimer {
  tm_request_id : string;
  tm_delay : Z
}.

(** The transport together with what the event loop holds for it: calls of
    [send] suspended at [await fetch] (with the message and its id), armed
    timers, and the calls of [resolve] and [reject] so far, oldest first.
    A call of [send] is named by a number; the promise it returns and the
    timer it arms carry the same number. *)
Record Runtime : Type := mkRuntime {
  transport : HttpTransport;
  in_flight : gmap nat (Request * string);
  timers : gmap nat Timer;
  settlements : list (nat * Outcome jsval);
  next_call : nat
}.

Definition set_transport (t : HttpTransport) (rt : Runtime) : Runtime :=
  mkRuntime t (in_flight rt) (timers rt) (settlements rt) (next_call rt).

Definition set_in_flight (m : gmap nat (Request * string)) (rt : Runtime) : Runtime :=
  mkRuntime (transport rt) m (timers rt) (settlements rt) (next_call rt).

Definition set_timers (m : gmap nat Timer) (rt : Runtime) : Runtime :=
  mkRuntime (transport rt) (in_flight rt) m (settlements rt) (next_call rt).

Definition set_next_call (n : nat) (rt : Runtime) : Runtime :=
  mkRuntime (transport rt) (in_flight rt) (timers rt) (settlements rt) n.

(** [resolve(v)] or [reject(e)] of call [c]. *)
Definition settle (c : nat) (o : Outcome jsval) (rt : Runtime) : Runtime :=
  mkRuntime (transport rt) (in_flight rt) (timers rt)
    (settlements rt ++ [(c, o)])%list (next_call rt).

Definition start_runtime (t : HttpTransport) : Runtime :=
  mkRuntime t ∅ ∅ [] 0%nat.

(** What the event loop runs for a transport. *)
Inductive Event : Type :=
  | CallSend (message : Request)
  | FetchSettles (c : nat) (fetched : Outcome HttpResponse)
  | SseMessage (event_data : string)
  | TimerFires (c : nat).

Section WithJSON.

(** [JSON.parse]: the value, or a [SyntaxError]. *)
Variable JSON_parse : string -> Outcome jsval.

(** [data.id === message.id] for a freshly parsed [data.id]: equal strings,
    or both [undefined]. *)
Definition id_matches (data_id : jsval) (message_id : option string) : bool :=
  match data_id, message_id with
  | VStr s, Some s' => String.eqb s s'
  | VUndefined, None => true
  | _, _ => false
  end.

(** [contentType && contentType.includes(kind)] *)
Definition content_type_has (kind : string) (contentType : option string) : bool :=
  match contentType with
  | None => false
  | Some ct => str_truthy ct && includes kind ct
  end.

(** [for (const line of lines)]: the first line that is not blank, parses
    and carries the id of the message is returned; a line that does not
    parse (or parses to [null]) is logged and skipped. *)
Fixpoint scan_lines (message_id : option string) (lines : list string)
  : option jsval :=
  match lines with
  | [] => None
  | line :: rest =>
      if str_truthy (trim line)
      then
        match (let* data := JSON_parse line in
               let* data_id := get_prop "id" data in
               Return (data, data_id)) with
        | Return (data, data_id) =>
            if id_matches data_id message_id then Some data
            else scan_lines message_id rest
        | Throw _ => scan_lines message_id rest
        end
      else scan_lines message_id rest
  end.

(** The [while (true)] loop over [reader.read()]: [inl data] when a line
    made the function return, [inr buffer] when the stream is done. *)
Fixpoint read_loop (message_id : option string) (chunks : list string)
    (buffer : string) : jsval + string :=
  match chunks with
  | [] => inr buffer
  | value :: more =>
      let buffer := buffer +:+ value in
      let lines := str_split newline buffer in
      let buffer := default "" (last lines) in
      match scan_lines message_id (removelast lines) with
      | Some data => inl data
      | None => read_loop message_id more buffer
      end
  end.

(** [sendHTTP], [fetched] being what its [fetch] settles with. *)
Definition sendHTTP (message : Request) (fetched : Outcome HttpResponse)
  : Outcome jsval :=
  let* response := fetched in
  if negb (resp_ok response)
  then Throw (Error ("HTTP " +:+ Z_to_string (resp_status response) +:+ ": "
                     +:+ resp_statusText response))
  else
    let contentType := resp_contentType response in
    if content_type_has "application/json" contentType
    then JSON_parse (body_text response)
    else if content_type_has "text/" contentType
    then
      let text := body_text response in
      try_catch (JSON_parse text)
        (fun _ => Return (VObj [("result", VStr text)]))
    else
      match read_loop (req_id message) (resp_chunks response) "" with
      | inl data => Return data
      | inr buffer =>
          if str_truthy (trim buffer)
          then try_catch (JSON_parse buffer)
                 (fun _ => Return (VObj [("result", VStr buffer)]))
          else Return VUndefined
      end.

(** [send]: after the check and the id, the transport kind picks the path;
    with neither kind the function falls off its end.  The [catch] around the
    two paths logs and rethrows, so their completion is the call's. *)
Definition send_route (t : HttpTransport) (message : Request) : SendRoute :=
  match send_prepare t message with
  | Throw e => SendThrows e
  | Return (t', message', message_id) =>
      match config_type t' with
      | SSE => ViaSSE t' message' message_id
      | STREAMABLE_HTTP => ViaHTTP t' message' message_id
      | STDIO => SendUndefined t'
      end
  end.

(** [sendSSE] once its POST has settled with [posted]: a failure rejects the
    call [c]; otherwise the timer is armed and the entry is registered under
    [message.id]. *)
Definition sendSSE_continue (rt : Runtime) (c : nat) (message_id : string)
    (posted : Outcome HttpResponse) : Runtime :=
  match posted with
  | Throw e => settle c (Throw e) rt
  | Return response =>
      if negb (resp_ok response)
      then settle c
             (Throw (Error ("SSE POST failed: "
                            +:+ Z_to_string (resp_status response) +:+ " "
                            +:+ resp_statusText response))) rt
      else
        let rt := set_timers (<[c := mkTimer message_id SSE_TIMEOUT]> (timers rt)) rt in
        set_transport
          (set_pendingRequests
             (<[message_id := mkPending c c]> (pendingRequests (transport rt)))
             (transport rt)) rt
  end.

(** The timer callback of [sendSSE]:
    [this.pendingRequests.delete(message.id); reject(new Error(...))]. *)
Definition timeout_callback (rt : Runtime) (c : nat) (tm : Timer) : Runtime :=
  let rt := set_timers (delete c (timers rt)) rt in
  let rt := set_transport
              (set_pendingRequests
                 (delete (tm_request_id tm) (pendingRequests (transport rt)))
                 (transport rt)) rt in
  settle c (Throw (Error "SSE request timeout")) rt.

(** [handleMessage] *)
Definition handleMessage (rt : Runtime) (data : jsval) : Outcome Runtime :=
  let* data_id := get_prop "id" data in
  let unsolicited := set_transport (emit (EmMessage data) (transport rt)) rt in
  match data_id with
  | VStr key =>
      if str_truthy key
      then
        match pendingRequests (transport rt) !! key with
        | Some entry =>
            (* clearTimeout(timeout) *)
            let rt := set_timers (delete (pr_timeout entry) (timers rt)) rt in
            let rt := set_transport
                        (set_pendingRequests
                           (delete key (pendingRequests (transport rt)))
                           (transport rt)) rt in
            Return (settle (pr_promise entry) (Return data) rt)
        | None => Return unsolicited
        end
      else Return unsolicited
  | _ => Return unsolicited
  end.

(** [eventSource.onmessage]: a message that does not parse, or that makes
    [handleMessage] throw, is logged and dropped. *)
Definition onmessage (rt : Runtime) (event_data : string) : Runtime :=
  match (let* data := JSON_parse event_data in handleMessage rt data) with
  | Return rt' => rt'
  | Throw _ => rt
  end.

(** One callback of the event loop; [None] when the event cannot happen in
    this state (no such suspended call, no such armed timer). *)
Definition step (rt : Runtime) (ev : Event) : option Runtime :=
  match ev with
  | CallSend message =>
      let c := next_call rt in
      let rt := set_next_call (S c) rt in
      Some match send_route (transport rt) message with
           | SendThrows e => settle c (Throw e) rt
           | ViaSSE t' message' message_id
           | ViaHTTP t' message' message_id =>
               set_in_flight (<[c := (message', message_id)]> (in_flight rt))
                 (set_transport t' rt)
           | SendUndefined t' => settle c (Return VUndefined) (set_transport t' rt)
           end
  | FetchSettles c fetched =>
      match in_flight rt !! c with
      | None => None
      | Some (message, message_id) =>
          let rt := set_in_flight (delete c (in_flight rt)) rt in
          Some match config_type (transport rt) with
               | SSE => sendSSE_continue rt c message_id fetched
               | _ => settle c (sendHTTP message fetched) rt
               end
      end
  | SseMessage event_data => Some (onmessage rt event_data)
  | TimerFires c =>
      match timers rt !! c with
      | None => None
      | Some tm => Some (timeout_callback rt c tm)
      end
  end.

Fixpoint run (rt : Runtime) (evs : list Event) : option Runtime :=
  match evs with
  | [] => Some rt
  | ev :: rest =>
      match step rt ev with
      | None => None
      | Some rt' => run rt' rest
      end
  end.

End WithJSON.

(** The calls of [resolve] and [reject] of call [c] in a log, oldest first. *)
Fixpoint settlements_of (c : nat) (log : list (nat * Outcome jsval))
  : list (Outcome jsval) :=
  match log with
  | [] => []
  | (c', o) :: rest =>
      if Nat.eqb c' c then o :: settlements_of c rest else settlements_of c rest
  end.

(** How the promise of call [c] is settled: by the first call of its
    [resolve] or [reject]; later ones have no effect on a promise. *)
Definition completion (c : nat) (rt : Runtime) : option (Outcome jsval) :=
  head (settlements_of c (settlements rt)).

(* ===================================================================== *)
(** ** A model of [JSON.parse]                                            *)
(* ===================================================================== *)

(** The transport is parametric in [JSON.parse]; the scenarios below need it
    on concrete texts.  [json_parse] reads the JSON grammar with integer
    number literals and ASCII escapes; a text with a fraction, an exponent or
    a [\u] escape beyond ASCII is outside this model and rejected.  It is
    applied to the texts of the scenarios only; every statement about texts
    in general takes [JSON.parse] as a parameter. *)

Definition is_json_space (c : ascii) : bool :=
  let n := nat_of_ascii c in
  (Nat.eqb n 32 || Nat.eqb n 9 || Nat.eqb n 10 || Nat.eqb n 13)%bool.

Fixpoint skip_ws (s : string) : string :=
  match s with
  | EmptyString => EmptyString
  | String c rest => if is_json_space c then skip_ws rest else s
  end.

Definition digit_of (c : ascii) : option Z :=
  let n := nat_of_ascii c in
  if (Nat.leb 48 n && Nat.leb n 57)%bool then Some (Z.of_nat (n - 48)) else None.

Definition hex_of (c : ascii) : option nat :=
  let n := nat_of_ascii c in
  if (Nat.leb 48 n && Nat.leb n 57)%bool then Some (n - 48)%nat
  else if (Nat.leb 97 n && Nat.leb n 102)%bool then Some (n - 87)%nat
  else if (Nat.leb 65 n && Nat.leb n 70)%bool then Some (n - 55)%nat
  else None.

Definition escape_of (c : ascii) : option ascii :=
  let n := nat_of_ascii c in
  if (Nat.eqb n 34 || Nat.eqb n 92 || Nat.eqb n 47)%bool then Some c
  else if Nat.eqb n 98 then Some (ascii_of_nat 8)
  else if Nat.eqb n 102 then Some (ascii_of_nat 12)
  else if Nat.eqb n 110 then Some (ascii_of_nat 10)
  else if Nat.eqb n 114 then Some (ascii_of_nat 13)
  else if Nat.eqb n 116 then Some (ascii_of_nat 9)
  else None.

(** The characters of a string literal after its opening quote, and the text
    after its closing quote. *)
Fixpoint parse_string_body (s : string) : option (string * string) :=
  match s with
  | EmptyString => None
  | String c rest =>
      if Nat.eqb (nat_of_ascii c) 34 then Some (EmptyString, rest)
      else if Nat.eqb (nat_of_ascii c) 92 then
        match rest with
        | String e rest1 =>
            if Nat.eqb (nat_of_ascii e) 117 then
              match rest1 with
              | String h1 (String h2 (String h3 (String h4 rest2))) =>
                  match hex_of h1, hex_of h2, hex_of h3, hex_of h4 with
                  | Some a, Some b, Some c', Some d =>
                      let n := (((a * 16 + b) * 16 + c') * 16 + d)%nat in
                      if Nat.ltb n 128 then
                        match parse_string_body rest2 with
                        | Some (body, after) => Some (String (ascii_of_nat n) body, after)
                        | None => None
                        end
                      else None
                  | _, _, _, _ => None
                  end
              | _ => None
              end
            else
              match escape_of e with
              | Some ch =>
                  match parse_string_body rest1 with
                  | Some (body, after) => Some (String ch body, after)
                  | None => None
                  end
              | None => None
              end
        | EmptyString => None
        end
      else if Nat.ltb (nat_of_ascii c) 32 then None
      else
        match parse_string_body rest with
        | Some (body, after) => Some (String c body, after)
        | None => None
        end
  end.

Fixpoint parse_digits (acc : Z) (s : string) : Z * string :=
  match s with
  | EmptyString => (acc, s)
  | String c rest =>
      match digit_of c with
      | Some d => parse_digits (acc * 10 + d) rest
      | None => (acc, s)
      end
  end.

(** [0] or a digit string without leading zero; a following [.], [e] or [E]
    would make a literal outside the model. *)
Definition parse_natural (s : string) : option (Z * string) :=
  match s with
  | EmptyString => None
  | String c rest =>
      match digit_of c with
      | None => None
      | Some d =>
          let '(n, after) := if d =? 0 then (0, rest) else parse_digits d rest in
          match after with
          | String x _ =>
              let k := nat_of_ascii x in
              if (Nat.eqb k 46 || Nat.eqb k 101 || Nat.eqb k 69)%bool then None
              else Some (n, after)
          | EmptyString => Some (n, after)
          end
      end
  end.

Definition parse_number (s : string) : option (Z * string) :=
  match s with
  | String "-"%char rest =>
      match parse_natural rest with
      | Some (n, after) => Some (- n, after)
      | None => None
      end
  | _ => parse_natural s
  end.

(** [strip word s]: [s] without its prefix [word], when it has it. *)
Fixpoint strip (word s : string) : option string :=
  match word, s with
  | EmptyString, _ => Some s
  | String a word', String b s' => if Ascii.eqb a b then strip word' s' else None
  | String _ _, EmptyString => None
  end.

Definition quote : ascii := ascii_of_nat 34.

Fixpoint parse_value (fuel : nat) (s : string) : option (jsval * string) :=
  match fuel with
  | O => None
  | S fuel =>
      match skip_ws s with
      | String "{"%char rest =>
          match skip_ws rest with
          | String "}"%char after => Some (VObj [], after)
          | _ => parse_members fuel rest []
          end
      | String "["%char rest =>
          match skip_ws rest with
          | String "]"%char after => Some (VArr [], after)
          | _ => parse_elements fuel rest []
          end
      | text =>
          match strip (String quote "") text with
          | Some rest =>
              match parse_string_body rest with
              | Some (body, after) => Some (VStr body, after)
              | None => None
              end
          | None =>
              match strip "true" text, strip "false" text, strip "null" text with
              | Some after, _, _ => Some (VBool true, after)
              | _, Some after, _ => Some (VBool false, after)
              | _, _, Some after => Some (VNull, after)
              | None, None, None =>
                  match parse_number text with
                  | Some (n, after) => Some (VNum n, after)
                  | None => None
                  end
              end
          end
      end
  end
with parse_elements (fuel : nat) (s : string) (acc : list jsval)
  : option (jsval * string) :=
  match fuel with
  | O => None
  | S fuel =>
      match parse_value fuel s with
      | Some (v, after) =>
          match skip_ws after with
          | String ","%char more => parse_elements fuel more (acc ++ [v])%list
          | String "]"%char more => Some (VArr (acc ++ [v])%list, more)
          | _ => None
          end
      | None => None
      end
  end
with parse_members (fuel : nat) (s : string) (acc : list (string * jsval))
  : option (jsval * string) :=
  match fuel with
  | O => None
  | S fuel =>
      match strip (String quote "") (skip_ws s) with
      | Some rest =>
          match parse_string_body rest with
          | Some (key, after_key) =>
              match skip_ws after_key with
              | String ":"%char after_colon =>
                  match parse_value fuel after_colon with
                  | Some (v, after) =>
                      match skip_ws after with
                      | String ","%char more =>
                          parse_members fuel more (assoc_set key v acc)
                      | String "}"%char more =>
                          Some (VObj (assoc_set key v acc), more)
                      | _ => None
                      end
                  | None => None
                  end
              | _ => None
              end
          | None => None
          end
      | None => None
      end
  end.

Definition json_parse (text : string) : Outcome jsval :=
  match parse_value (2 * String.length text + 2) text with
  | Some (v, after) =>
      match skip_ws after with
      | EmptyString => Return v
      | _ => Throw (SyntaxError "Unexpected non-whitespace character after JSON")
      end
  | None => Throw (SyntaxError "Unexpected token in JSON")
  end.

(* ===================================================================== *)
(** ** The specification's vocabulary                                     *)
(* ===================================================================== *)

(** The specification splits a namespaced tool name at the first occurrence
    of the separator: [before_sep] is the text before it (the whole text when
    there is none), [after_sep] the text after it. *)
Fixpoint before_sep (sep : ascii) (s : string) : string :=
  match s with
  | EmptyString => EmptyString
  | String c rest =>
      if Ascii.eqb c sep then EmptyString else String c (before_sep sep rest)
  end.

Fixpoint after_sep (sep : ascii) (s : string) : option string :=
  match s with
  | EmptyString => None
  | String c rest => if Ascii.eqb c sep then Some rest else after_sep sep rest
  end.

Definition backend_segment (toolName : string) : string := before_sep colon toolName.
Definition tool_segment (toolName : string) : option string := after_sep colon toolName.

(** The name the catalog shows for tool [t] of backend [b]. *)
Definition namespaced_name (b t : string) : string := b +:+ ":" +:+ t.

(** A Tool Descriptor as a backend lists it: an object whose [name] is a
    string and whose [description], when present, is a string. *)
Definition is_tool_descriptor (tool : jsval) : bool :=
  match tool with
  | VObj fields =>
      match assoc_get "name" fields, assoc_get "description" fields with
      | Some (VStr _), (None | Some (VStr _)) => true
      | _, _ => false
      end
  | _ => false
  end.

Definition tool_name (tool : jsval) : string :=
  match get_prop_opt "name" tool with
  | VStr s => s
  | _ => ""
  end.

Definition tool_description (tool : jsval) : string :=
  match get_prop_opt "description" tool with
  | VStr s => s
  | _ => ""
  end.

(** The descriptor the specification puts in the catalog for [tool] of
    backend [b]: the name qualified, the description prefixed by the backend
    name in brackets, every other property as the backend gave it. *)
Definition namespaced (b : string) (tool : jsval) : jsval :=
  VObj (assoc_set "description" (VStr ("[" +:+ b +:+ "] " +:+ tool_description tool))
          (assoc_set "name" (VStr (namespaced_name b (tool_name tool)))
             (spread tool))).

(** The tools a backend lists when asked at time [now]; none when the call
    fails or the answer carries no array of tools. *)
Definition backend_tools (now : Z) (srv : McpServer) : list jsval :=
  match request srv (list_request (srv_type srv) now) with
  | Return response =>
      match response_tools response with
      | Return (VArr items) => items
      | _ => []
      end
  | Throw _ => []
  end.

(** The backend answers the list call made at time [now] with well-formed
    descriptors. *)
Definition lists_well (now : Z) (srv : McpServer) : Prop :=
  exists response items,
    request srv (list_request (srv_type srv) now) = Return response /\
    response_tools response = Return (VArr items) /\
    forallb is_tool_descriptor items = true.

(** The catalog of the entries [entries], the first of them handled as the
    [i]-th of the registry: every backend's tools, namespaced, in registry
    order. *)
Fixpoint catalog (clock : nat -> Z) (i : nat) (entries : JsMap McpServer)
  : list jsval :=
  match entries with
  | [] => []
  | (name, srv) :: rest =>
      (map (namespaced name) (backend_tools (clock i) srv)
       ++ catalog clock (S i) rest)%list
  end.

(** The states of a transport's event loop: what some sequence of events
    leads to from a fresh runtime around a transport with an empty
    correlation table. *)
Definition reachable (JSON_parse : string -> Outcome jsval) (rt : Runtime) : Prop :=
  exists t evs,
    pendingRequests t = ∅ /\ run JSON_parse (start_runtime t) evs = Some rt.

(** What holds of every reachable runtime: suspended calls and armed timers
    belong to calls already made, no call is both suspended and armed, every
    entry of the correlation table has its timer armed for the key it sits
    under, and a call that is suspended, armed or not yet made has not been
    settled. *)
Record wf_runtime (rt : Runtime) : Prop := mk_wf_runtime {
  wf_in_flight : forall c, is_Some (in_flight rt !! c) -> (c < next_call rt)%nat;
  wf_timers : forall c, is_Some (timers rt !! c) -> (c < next_call rt)%nat;
  wf_phase : forall c, is_Some (in_flight rt !! c) -> timers rt !! c = None;
  wf_entries : forall key entry,
      pendingRequests (transport rt) !! key = Some entry ->
      pr_promise entry = pr_timeout entry /\
      exists tm, timers rt !! pr_timeout entry = Some tm /\ tm_request_id tm = key;
  wf_unsettled : forall c,
      is_Some (in_flight rt !! c) \/ is_Some (timers rt !! c)
      \/ (next_call rt <= c)%nat ->
      settlements_of c (settlements rt) = []
}.

(** Call [c] is over: made, neither suspended nor armed, and no entry of the
    correlation table holds its [resolve]. *)
Record finished (c : nat) (rt : Runtime) : Prop := mk_finished {
  fin_made : (c < next_call rt)%nat;
  fin_in_flight : in_flight rt !! c = None;
  fin_timers : timers rt !! c = None;
  fin_entries : forall key entry,
      pendingRequests (transport rt) !! key = Some entry -> pr_promise entry <> c
}.

(** Text written with apostrophes where JSON has double quotes. *)
Fixpoint dq (s : string) : string :=
  match s with
  | EmptyString => EmptyString
  | String c rest =>
      String (if Nat.eqb (nat_of_ascii c) 39 then quote else c) (dq rest)
  end.

(** A fragment stream read as a whole text: its complete lines are scanned
    in order and its last piece, the text after the last newline, is what
    remains in the buffer. *)
Definition scan_text (JSON_parse : string -> Outcome jsval)
    (message_id : option string) (text : string) : jsval + string :=
  let pieces := str_split newline text in
  match scan_lines JSON_parse message_id (removelast pieces) with
  | Some data => inl data
  | None => inr (default "" (last pieces))
  end.

(** The fragment [line] parses to a value whose id is the id of the
    outstanding request. *)
Definition answers (JSON_parse : string -> Outcome jsval)
    (message_id : option string) (line : string) : Prop :=
  exists data data_id,
    JSON_parse line = Return data /\
    get_prop "id" data = Return data_id /\
    id_matches data_id message_id = true.

(* ===================================================================== *)
(** ** Scenarios                                                          *)
(* ===================================================================== *)

Definition line_feed : string := String newline "".

(** The text of a stream whose fragments are [lines], each ended by a
    newline. *)
Definition lines_text (lines : list string) : string :=
  foldr (fun line text => line +:+ line_feed +:+ text) "" lines.

(** The two fragments of the streamed-HTTP scenario and the stream made of
    them. *)
Definition partial_text : string := dq "{'id':'x','partial':true}".
Definition result_text : string := dq "{'id':'x','result':42}".
Definition stream_text : string :=
  partial_text +:+ line_feed +:+ result_text +:+ line_feed.

Definition partial_fragment : jsval := VObj [("id", VStr "x"); ("partial", VBool true)].
Definition result_fragment : jsval := VObj [("id", VStr "x"); ("result", VNum 42)].

(** A [tools/call] message with id [x], and the stream delivered one
    fragment per read with no declared content type. *)
Definition request_x : Request :=
  mkRequest (Some "2.0") "tools/call" (Some "x")
    (Some (CallParams "run" (VObj []))).

Definition stream_response : HttpResponse :=
  mkHttpResponse true 200 "OK" None
    [partial_text +:+ line_feed; result_text +:+ line_feed].

(** A stream whose only fragment answers another request, followed by a
    blank line. *)
Definition other_response : HttpResponse :=
  mkHttpResponse true 200 "OK" None
    [dq "{'id':'y','result':1}" +:+ line_feed; "  "].

(** Backends for the router scenarios: one that answers every call with a
    result naming itself, one that lists a single tool [run], one whose
    every request fails. *)
Definition answering (n : nat) (ty : ServerType) : McpServer :=
  mkMcpServer n ty
    (fun _ => Return (VObj [("result", VObj [("from", VNum (Z.of_nat n))])])).

Definition run_tool : jsval :=
  VObj [("name", VStr "run"); ("description", VStr "Runs a job");
        ("inputSchema", VObj [("type", VStr "object")])].

Definition listing (n : nat) (ty : ServerType) : McpServer :=
  mkMcpServer n ty (fun _ => Return (VObj [("tools", VArr [run_tool])])).

Definition broken (n : nat) : McpServer :=
  mkMcpServer n SSE (fun _ => Throw (Error "Server c is unavailable: fetch failed")).

Definition two_backends : JsMap McpServer :=
  register "b" (answering 2 SSE) (register "a" (answering 1 STDIO) []).

(** A streamed-HTTP transport and a push-stream transport, not yet connected. *)
Definition http_transport : HttpTransport :=
  new_HttpTransport "files" STREAMABLE_HTTP "https://backend.example/mcp".

Definition sse_transport : HttpTransport :=
  new_HttpTransport "events" SSE "https://backend.example/sse".

Definition ok_response : HttpResponse := mkHttpResponse true 200 "OK" None [].

(** The push-stream transport once [connect] has run, and the runtime around
    it after one message was sent and its POST accepted: the request is
    registered and its timer armed. *)
Definition connected_sse : HttpTransport :=
  connect sse_transport (Return tt) (Throw (Error "no probe on this kind")).

Definition armed_runtime : Runtime :=
  default (start_runtime connected_sse)
    (run json_parse (start_runtime connected_sse)
       [CallSend request_x; FetchSettles 0 (Return ok_response)]).

(* ===================================================================== *)
(** ** The configuration validator                                     *)
(* ===================================================================== *)

(** [typeof v] *)
Definition js_typeof (v : jsval) : string :=
  match v with
  | VUndefined => "undefined"
  | VNull => "object"
  | VBool _ => "boolean"
  | VNum _ => "number"
  | VStr _ => "string"
  | VArr _ | VObj _ => "object"
  end.

(** [Array.isArray(v)] *)
Definition is_array (v : jsval) : bool :=
  match v with
  | VArr _ => true
  | _ => false
  end.

(** [a === b] when the two are not one and the same object: equal
    primitives.  The objects of a parsed configuration are all distinct, so
    this is [===] between any two of its values met at different places. *)
Definition strict_eq_prim (a b : jsval) : bool :=
  match a, b with
  | VUndefined, VUndefined => true
  | VNull, VNull => true
  | VBool x, VBool y => Bool.eqb x y
  | VNum x, VNum y => x =? y
  | VStr x, VStr y => String.eqb x y
  | _, _ => false
  end.

(** [items.join(sep)] *)
Fixpoint join_text (sep : string) (items : list jsval) : Outcome string :=
  match items with
  | [] => Return ""
  | x :: rest =>
      let* a := match x with
                | VUndefined | VNull => Return ""
                | _ => to_string x
                end in
      match rest with
      | [] => Return a
      | _ => let* b := join_text sep rest in Return (a +:+ sep +:+ b)
      end
  end.

(** [names.filter((name, index) => names.indexOf(name) !== index)]: the names
    that occurred before, [seen] being the names already passed. *)
Fixpoint duplicates_from (seen names : list jsval) : list jsval :=
  match names with
  | [] => []
  | name :: rest =>
      let later := duplicates_from (seen ++ [name]) rest in
      if existsb (strict_eq_prim name) seen then name :: later else later
  end.

(** [value.includes(':')] on a truthy [server.name]: the substring test of a
    string, the membership test of an array, and no such method elsewhere. *)
Definition name_includes_colon (name : jsval) : Outcome bool :=
  match name with
  | VStr s => Return (includes ":" s)
  | VArr items => Return (existsb (strict_eq_prim (VStr ":")) items)
  | _ => Throw (TypeError "server.name.includes is not a function")
  end.

Definition validTypes : list jsval := [VStr "STDIO"; VStr "SSE"; VStr "STREAMABLE_HTTP"].

Record ValidationResult : Type := mkValidationResult {
  isValid : bool;
  errors : list string
}.

(** [`servers[${index}]`] *)
Definition server_prefix (index : nat) : string :=
  "servers[" +:+ pretty index +:+ "]".

Section Validator.

(** [new URL(v)] returns rather than throws. *)
Variable URL_parses : jsval -> bool.

(** [port < 1 || port > 65535] for a [port] that is not a number: the
    comparison goes through the conversion of [port] to a number, which may
    throw. *)
Variable coerced_out_of_range : jsval -> Outcome bool.

(** [ConfigValidator.validateServer] *)
Definition validateServer (server : jsval) (index : nat) : Outcome (list string) :=
  let prefix := server_prefix index in
  let* name := get_prop "name" server in
  let errors1 :=
    if negb (truthy name) || negb (String.eqb (js_typeof name) "string")
    then [prefix +:+ ": Missing or invalid name"] else [] in
  let* errors2 :=
    if truthy name
    then let* has := name_includes_colon name in
         Return (if has
                 then [prefix +:+ ": Server name cannot contain colons (:)"]
                 else [])
    else Return [] in
  let* declared := get_prop "type" server in
  let type := js_or declared (VStr "STDIO") in
  let* errors3 :=
    if negb (existsb (strict_eq_prim type) validTypes)
    then let* type_text := to_string type in
         Return [prefix +:+ ": Invalid type " +:+ String quote "" +:+ type_text
                 +:+ String quote ""
                 +:+ ". Must be one of: STDIO, SSE, STREAMABLE_HTTP"]
    else Return [] in
  let* errors4 :=
    if strict_eq_prim type (VStr "STDIO")
    then
      let* command := get_prop "command" server in
      let* args := get_prop "args" server in
      Return ((if negb (truthy command)
                  || negb (String.eqb (js_typeof command) "string")
               then [prefix +:+ ": Missing or invalid command for STDIO server"]
               else [])
              ++ (if truthy args && negb (is_array args)
                  then [prefix +:+ ": args must be an array for STDIO server"]
                  else []))%list
    else if strict_eq_prim type (VStr "SSE")
            || strict_eq_prim type (VStr "STREAMABLE_HTTP")
    then
      let* url := get_prop "url" server in
      let* type_text := to_string type in
      Return ((if negb (truthy url) || negb (String.eqb (js_typeof url) "string")
               then [prefix +:+ ": Missing or invalid url for " +:+ type_text
                     +:+ " server"]
               else [])
              ++ (if truthy url && negb (URL_parses url)
                  then [prefix +:+ ": Invalid URL format for " +:+ type_text
                        +:+ " server"]
                  else []))%list
    else Return [] in
  let* env := get_prop "env" server in
  let errors5 :=
    if truthy env && negb (String.eqb (js_typeof env) "object")
    then [prefix +:+ ": env must be an object"] else [] in
  Return (errors1 ++ errors2 ++ errors3 ++ errors4 ++ errors5)%list.

(** [config.servers.forEach((server, index) => errors.push(...))], from
    [index] on. *)
Fixpoint validate_servers (index : nat) (servers : list jsval)
  : Outcome (list string) :=
  match servers with
  | [] => Return []
  | server :: rest =>
      let* serverErrors := validateServer server index in
      let* restErrors := validate_servers (S index) rest in
      Return (serverErrors ++ restErrors)%list
  end.

(** [ConfigValidator.validate] *)
Definition validate (config : jsval) : Outcome ValidationResult :=
  let* proxy := get_prop "proxy" config in
  let* proxyErrors :=
    if negb (truthy proxy) then Return ["Missing proxy configuration"]
    else
      let* port := get_prop "port" proxy in
      let* out :=
        match port with
        | VNum n => Return ((n <? 1) || (n >? 65535))
        | _ => coerced_out_of_range port
        end in
      Return ((if negb (truthy port)
                  || negb (String.eqb (js_typeof port) "number")
               then ["Invalid or missing proxy.port"] else [])
              ++ (if out then ["proxy.port must be between 1 and 65535"]
                  else []))%list in
  let* servers := get_prop "servers" config in
  let* serverErrors :=
    match servers with
    | VArr items => validate_servers 0 items
    | _ => Return ["Missing or invalid servers configuration"]
    end in
  let* duplicateErrors :=
    if truthy servers
    then
      match servers with
      | VArr items =>
          let* names := map_outcome (get_prop "name") items in
          match duplicates_from [] names with
          | [] => Return []
          | duplicates =>
              let* listed := join_text ", " duplicates in
              Return ["Duplicate server names found: " +:+ listed]
          end
      | _ => Throw (TypeError "config.servers.map is not a function")
      end
    else Return [] in
  let errors := (proxyErrors ++ serverErrors ++ duplicateErrors)%list in
  Return (mkValidationResult (match errors with [] => true | _ => false end) errors).

End Validator.

(** A server entry that [validateServer] has nothing to say against: a
    non-empty colon-free string for name; no type or [STDIO] with a non-empty
    string for command and, if any, an array for args, or else [SSE] or
    [STREAMABLE_HTTP] with a non-empty string for url that parses; and, if
    any, an object for env. *)
Definition server_ok (URL_parses : jsval -> bool) (server : jsval) : Prop :=
  exists s declared env,
    get_prop "name" server = Return (VStr s) /\
    valid_server_name s = true /\
    get_prop "type" server = Return declared /\
    ((js_or declared (VStr "STDIO") = VStr "STDIO" /\
      exists command args,
        get_prop "command" server = Return (VStr command) /\
        command <> "" /\
        get_prop "args" server = Return args /\
        (truthy args = false \/ is_array args = true))
     \/
     ((declared = VStr "SSE" \/ declared = VStr "STREAMABLE_HTTP") /\
      exists u,
        get_prop "url" server = Return (VStr u) /\
        u <> "" /\
        URL_parses (VStr u) = true)) /\
    get_prop "env" server = Return env /\
    (truthy env = false \/ js_typeof env = "object").

(* ===================================================================== *)
(** ** Environment variables in the configuration                      *)
(* ===================================================================== *)

Definition dollar : ascii := "$"%char.
Definition open_brace : ascii := "{"%char.
Definition close_brace : ascii := "}"%char.

(** What [process.env[name]] gives: [undefined]; a variable of the
    environment, a string that may be empty; or a member that the object
    inherits ([constructor], [toString] and the like), an object or a
    function and so truthy, with the text [replace] makes of it. *)
Inductive EnvValue : Type :=
  | EnvUnset
  | EnvVariable (value : string)
  | EnvInherited (text : string).

(** The text of the match [${envVar}]. *)
Definition placeholder (envVar : string) : string := "${" +:+ envVar +:+ "}".

(** What the callback of [replace] returns for the match [${envVar}]:
    [process.env[envVar] || match]. *)
Definition placeholder_value (env : string -> EnvValue) (envVar : string)
  : string :=
  match env envVar with
  | EnvVariable value => if str_truthy value then value else placeholder envVar
  | EnvInherited text => text
  | EnvUnset => placeholder envVar
  end.

(** [text.replace(/\$\{([^}]+)\}/g, callback)]: at a [${] followed by at
    least one character other than [}] and then a [}], the match is replaced
    and the scan goes on after it; anywhere else the character is kept.
    [fuel] bounds the number of characters still to scan. *)
Fixpoint replace_placeholders (fuel : nat) (env : string -> EnvValue)
    (text : string) : string :=
  match fuel with
  | O => text
  | S fuel =>
      match text with
      | EmptyString => EmptyString
      | String c rest =>
          let skip := String c (replace_placeholders fuel env rest) in
          if Ascii.eqb c dollar
          then
            match rest with
            | String b body =>
                if Ascii.eqb b open_brace
                then
                  match after_sep close_brace body with
                  | Some after =>
                      let envVar := before_sep close_brace body in
                      if str_truthy envVar
                      then placeholder_value env envVar
                           +:+ replace_placeholders fuel env after
                      else skip
                  | None => skip
                  end
                else skip
            | EmptyString => skip
            end
          else skip
      end
  end.

Definition expand_text (env : string -> EnvValue) (text : string) : string :=
  replace_placeholders (String.length text) env text.

Section Expand.
Variable JSON_stringify : jsval -> string.
Variable JSON_parse : string -> Outcome jsval.

(** [ConfigValidator.expandEnvironmentVariables] *)
Definition expandEnvironmentVariables (env : string -> EnvValue)
    (config : jsval) : Outcome jsval :=
  JSON_parse (expand_text env (JSON_stringify config)).
End Expand.

(* ===================================================================== *)
(** ** The headers of a transport                                      *)
(* ===================================================================== *)

(** [c.toLowerCase()] within ASCII. *)
Definition lower_char (c : ascii) : ascii :=
  let n := nat_of_ascii c in
  if (Nat.leb 65 n && Nat.leb n 90)%bool then ascii_of_nat (n + 32) else c.

Fixpoint to_lower (s : string) : string :=
  match s with
  | EmptyString => EmptyString
  | String c rest => String (lower_char c) (to_lower rest)
  end.

(** The test [buildHeaders] puts on a key of [config.env]. *)
Definition is_header_key (key : string) : bool :=
  includes "header" (to_lower key) || String.eqb key "Authorization".

(** [Object.entries(env).forEach(([key, value]) => ...)] *)
Fixpoint copy_env_headers (entries headers : list (string * jsval))
  : list (string * jsval) :=
  match entries with
  | [] => headers
  | (key, value) :: rest =>
      copy_env_headers rest
        (if is_header_key key then assoc_set key value headers else headers)
  end.

Definition default_headers : list (string * jsval) :=
  [("Content-Type", VStr "application/json");
   ("Accept", VStr "application/json");
   ("User-Agent", VStr "WebSocket-MCP-Proxy/1.0.0")].

(** [buildHeaders], on the three fields of the configuration it reads. *)
Definition buildHeaders (bearerToken apiKey env : jsval)
  : Outcome (list (string * jsval)) :=
  let headers := default_headers in
  let* headers :=
    if truthy bearerToken
    then let* token := to_string bearerToken in
         Return (assoc_set "Authorization" (VStr ("Bearer " +:+ token)) headers)
    else Return headers in
  let headers :=
    if truthy apiKey then assoc_set "X-API-Key" apiKey headers else headers in
  Return (if truthy env then copy_env_headers (spread env) headers else headers).

(* ===================================================================== *)
(** ** Streamed-HTTP sessions and disconnection                        *)
(* ===================================================================== *)

(** [error.message] *)
Definition error_message (e : JsError) : string :=
  match e with
  | Error m | TypeError m | SyntaxError m | AbortError m => m
  end.

(** The [request] method of the object [startHttpServer] registers: what
    [transport.send] throws comes back wrapped. *)
Definition http_server_request (name : string) (sent : Outcome jsval)
  : Outcome jsval :=
  try_catch sent
    (fun error =>
       Throw (Error ("Server " +:+ name +:+ " is unavailable: "
                     +:+ error_message error))).

(** [transport.send(message)] on a transport of kind [STREAMABLE_HTTP],
    where the whole call is a function of what [fetch] delivers for the
    message: the check, the id, then [sendHTTP]. *)
Definition send_streamed (JSON_parse : string -> Outcome jsval)
    (t : HttpTransport) (fetch : Request -> Outcome HttpResponse)
    (message : Request) : Outcome jsval :=
  let* prepared := send_prepare t message in
  let '(_, message', _) := prepared in
  sendHTTP JSON_parse message' (fetch message').

(** The registry entry [startHttpServer] makes for a streamed-HTTP backend.
    The router gives every request an id, so the transport's counter stays
    as it is from one request to the next. *)
Definition streamed_http_server (JSON_parse : string -> Outcome jsval)
    (n : nat) (t : HttpTransport) (fetch : Request -> Outcome HttpResponse)
  : McpServer :=
  mkMcpServer n (config_type t)
    (fun message =>
       http_server_request (config_name t)
         (send_streamed JSON_parse t fetch message)).

(** [disconnect]: the event source is closed, every entry of the table has
    its timer cleared and its call rejected, the table is emptied and
    ['disconnect'] is emitted.  The entries are taken in the order
    [map_to_list] gives, not the insertion order of the source; the
    settlements of one call do not depend on it. *)
Definition disconnect (rt : Runtime) : Runtime :=
  let t := transport rt in
  if negb (connected t) then rt
  else
    let entries := map_to_list (pendingRequests t) in
    let cleared :=
      foldr (fun kv m => delete (pr_timeout (snd kv)) m) (timers rt) entries in
    let rejected :=
      map (fun kv => (pr_promise (snd kv),
                      Throw (Error "Transport disconnected") : Outcome jsval))
        entries in
    mkRuntime
      (emit EmDisconnect
         (set_connected false
            (set_pendingRequests ∅ (set_eventSource false t))))
      (in_flight rt) cleared (settlements rt ++ rejected)%list (next_call rt).

(** Some character of [s] is an ASCII character that [trim] does not strip.
    [is_space] knows the white space of ASCII only; a text with such a
    character is not blank however the characters beyond ASCII are read. *)
Definition has_ascii_text (s : string) : bool :=
  existsb (fun c => negb (is_space c) && (nat_of_ascii c <? 128)%nat)
    (list_ascii_of_string s).

(** How the body of a response turns out for the code that reads it:
    [response.body] is [null] (a response without content, as after status
    204); the reads deliver [resp_chunks] and then report the end; or the
    reads deliver [resp_chunks] and the next one rejects. *)
Inductive BodyEnd : Type :=
  | BodyAbsent
  | BodyEnds
  | BodyBreaks (error : JsError).

(** [response.body.getReader()] on a response without body. *)
Definition NoReader : JsError :=
  TypeError "Cannot read properties of null (reading 'getReader')".

Section Reading.
Variable JSON_parse : string -> Outcome jsval.

(** [sendHTTP] on a response whose body may be absent or break off.  A body
    that ends is what [sendHTTP] is written for.  Without body,
    [response.json()] and [response.text()] read the empty text and
    [getReader] is called on [null].  When a read rejects, [response.json()]
    and [response.text()] reject with its error; the loop over the reads
    returns at a line that answers in the chunks before it and rejects
    otherwise. *)
Definition sendHTTP_reading (message : Request) (response : HttpResponse)
    (ending : BodyEnd) : Outcome jsval :=
  let contentType := resp_contentType response in
  let parsed := content_type_has "application/json" contentType
                || content_type_has "text/" contentType in
  match ending with
  | BodyEnds => sendHTTP JSON_parse message (Return response)
  | BodyAbsent =>
      if resp_ok response && negb parsed then Throw NoReader
      else sendHTTP JSON_parse message
             (Return (mkHttpResponse (resp_ok response) (resp_status response)
                        (resp_statusText response) contentType []))
  | BodyBreaks error =>
      if negb (resp_ok response)
      then sendHTTP JSON_parse message (Return response)
      else if parsed then Throw error
      else match read_loop JSON_parse (req_id message)
                   (resp_chunks response) "" with
           | inl data => Return data
           | inr _ => Throw error
           end
  end.

End Reading.

(* ===================================================================== *)
(** ** Scenarios for the validator, the headers and the sessions       *)
(* ===================================================================== *)

(** Configurations as the YAML reader hands them to the validator: a proxy
    on a port, and server entries started by a command or reached by a URL. *)
Definition stdio_entry (name : string) : jsval :=
  VObj [("name", VStr name); ("command", VStr "node");
        ("args", VArr [VStr "server.js"])].

Definition sse_entry (name : string) : jsval :=
  VObj [("name", VStr name); ("type", VStr "SSE");
        ("url", VStr "https://backend.example/sse")].

Definition config_of (servers : jsval) : jsval :=
  VObj [("proxy", VObj [("port", VNum 8080)]); ("servers", servers)].

Definition valid_config : jsval :=
  config_of (VArr [stdio_entry "test-server"; sse_entry "remote"]).

Definition colon_config : jsval :=
  config_of (VArr [stdio_entry "test:server"]).

Definition duplicate_config : jsval :=
  config_of (VArr [stdio_entry "duplicate"; stdio_entry "duplicate"]).

Definition scalar_servers_config : jsval := config_of (VStr "none").

(** A URL parser that asks for a scheme, and a comparison of a port that is
    not a number that finds it in range. *)
Definition url_with_scheme (v : jsval) : bool :=
  match v with
  | VStr s => includes "://" s
  | _ => false
  end.
Definition coerced_in_range (_ : jsval) : Outcome bool := Return false.

(** The [env] of a server entry with one header entry, one entry that is
    no header, and a replacement for the authorization. *)
Definition header_env : list (string * jsval) :=
  [("X-Custom-Header", VStr "v"); ("API_KEY", VStr "secret");
   ("Authorization", VStr "Basic abc")].

(** The members every object inherits, as [process.env] answers for their
    names when no variable hides them, and two environments over them: one
    with a variable set and one set to the empty string, one with the empty
    one only. *)
Definition inherited_functions : list string :=
  ["toString"; "toLocaleString"; "valueOf"; "hasOwnProperty"; "isPrototypeOf";
   "propertyIsEnumerable"; "__defineGetter__"; "__defineSetter__";
   "__lookupGetter__"; "__lookupSetter__"].

Definition object_member (name : string) : EnvValue :=
  if String.eqb name "constructor"
  then EnvInherited "function Object() { [native code] }"
  else if String.eqb name "__proto__" then EnvInherited "[object Object]"
  else if existsb (String.eqb name) inherited_functions
  then EnvInherited ("function " +:+ name +:+ "() { [native code] }")
  else EnvUnset.

Definition one_variable (name : string) : EnvValue :=
  if String.eqb name "TEST_VAR" then EnvVariable "test-value"
  else if String.eqb name "EMPTY" then EnvVariable ""
  else object_member name.

Definition only_empty (name : string) : EnvValue :=
  if String.eqb name "EMPTY" then EnvVariable "" else object_member name.

(** The streamed-HTTP transport once [connect] has run, and responses of a
    backend reached through it. *)
Definition connected_http : HttpTransport :=
  connect http_transport (Return tt) (Return ok_response).

Definition whole_response : HttpResponse :=
  mkHttpResponse true 200 "OK" None
    [partial_text +:+ line_feed +:+ result_text +:+ line_feed].

Definition trailing_response : HttpResponse :=
  mkHttpResponse true 200 "OK" None
    [dq "{'id':'y','result':1}" +:+ line_feed; "not json"].

Definition failed_response : HttpResponse :=
  mkHttpResponse false 503 "Service Unavailable" None [].

Definition json_response (body : string) : HttpResponse :=
  mkHttpResponse true 200 "OK" (Some "application/json") [body].

Definition error_body : string :=
  dq "{'id':'call-1700000000000','error':{'code':-32601}}".

(** A response without content. *)
Definition no_content_response : HttpResponse :=
  mkHttpResponse true 204 "No Content" None [].

(** The runtime around the push-stream transport after one message was
    sent, its POST not yet settled. *)
Definition posting_runtime : Runtime :=
  default (start_runtime connected_sse)
    (run json_parse (start_runtime connected_sse) [CallSend request_x]).

(** A message that comes without an id. *)
Definition request_without_id : Request :=
  mkRequest (Some "2.0") "tools/list" None None.

(** A registry with one streamed-HTTP backend, answering every request
    with [response]. *)
Definition http_backend (response : HttpResponse) : McpServer :=
  streamed_http_server json_parse 7 connected_http (fun _ => Return response).

Definition http_registry (response : HttpResponse) : JsMap McpServer :=
  register "files" (http_backend response) [].

(* ===================================================================== *)
(** * Properties                                                          *)
(* ===================================================================== *)

(** ** Splitting *)

Lemma str_split_first (sep : ascii) (s : string) :
  str_split sep s =
  before_sep sep s :: match after_sep sep s with
                      | None => []
                      | Some rest => str_split sep rest
                      end.
Proof.
  induction s as [|c s IH]; simpl; [reflexivity|].
  destruct (Ascii.eqb c sep); [reflexivity|].
  rewrite IH. reflexivity.
Qed.

Lemma str_split_head (sep : ascii) (s : string) :
  head (str_split sep s) = Some (before_sep sep s).
Proof. rewrite str_split_first. reflexivity. Qed.

(** The two names the handler destructures out of [toolName.split(':', 2)]. *)
Lemma split_limit_serverName (toolName : string) :
  split_limit colon 2 toolName !! 0%nat = Some (backend_segment toolName).
Proof. unfold split_limit. rewrite str_split_first. reflexivity. Qed.

Lemma split_limit_actualToolName (toolName : string) :
  split_limit colon 2 toolName !! 1%nat =
  before_sep colon <$> tool_segment toolName.
Proof.
  unfold split_limit, tool_segment. rewrite str_split_first.
  destruct (after_sep colon toolName) as [rest|]; [|reflexivity].
  rewrite (str_split_first colon rest). reflexivity.
Qed.

Lemma includes_char_cons (sep c : ascii) (s : string) :
  includes (String sep "") (String c s) =
  Ascii.eqb c sep || includes (String sep "") s.
Proof.
  simpl. destruct (ascii_dec sep c) as [->|Hne].
  - rewrite Ascii.eqb_refl.
    destruct s; reflexivity.
  - destruct (Ascii.eqb_spec c sep) as [->|_]; [congruence|].
    reflexivity.
Qed.

Lemma before_sep_app (sep : ascii) (b t : string) :
  includes (String sep "") b = false ->
  before_sep sep (b +:+ String sep t) = b.
Proof.
  induction b as [|c b IH]; intros Hb.
  - simpl. rewrite Ascii.eqb_refl. reflexivity.
  - rewrite includes_char_cons in Hb. apply orb_false_iff in Hb as [Hc Hb].
    simpl. rewrite Hc, IH by exact Hb. reflexivity.
Qed.

Lemma after_sep_app (sep : ascii) (b t : string) :
  includes (String sep "") b = false ->
  after_sep sep (b +:+ String sep t) = Some t.
Proof.
  induction b as [|c b IH]; intros Hb.
  - simpl. rewrite Ascii.eqb_refl. reflexivity.
  - rewrite includes_char_cons in Hb. apply orb_false_iff in Hb as [Hc Hb].
    simpl. rewrite Hc. apply IH, Hb.
Qed.

Lemma after_sep_none (sep : ascii) (s : string) :
  includes (String sep "") s = false -> after_sep sep s = None.
Proof.
  induction s as [|c s IH]; intros Hs; [reflexivity|].
  rewrite includes_char_cons in Hs. apply orb_false_iff in Hs as [Hc Hs].
  simpl. rewrite Hc. apply IH, Hs.
Qed.

Lemma before_sep_whole (sep : ascii) (s : string) :
  includes (String sep "") s = false -> before_sep sep s = s.
Proof.
  induction s as [|c s IH]; intros Hs; [reflexivity|].
  rewrite includes_char_cons in Hs. apply orb_false_iff in Hs as [Hc Hs].
  simpl. rewrite Hc, IH by exact Hs. reflexivity.
Qed.

Lemma str_truthy_true (s : string) : s <> "" -> str_truthy s = true.
Proof.
  intros Hs. unfold str_truthy.
  destruct (String.eqb_spec s ""); [contradiction|reflexivity].
Qed.

Lemma str_truthy_false (s : string) : str_truthy s = false -> s = "".
Proof.
  unfold str_truthy. destruct (String.eqb_spec s ""); [auto|discriminate].
Qed.

(** ** The registry as a [Map] *)


Lemma Map_get_delete_ne {V} (k k' : string) (m : JsMap V) :
  k <> k' -> Map_get k' (Map_delete k m) = Map_get k' m.
Proof.
  intros Hne. induction m as [|[k0 v] m IH]; [reflexivity|].
  unfold Map_get in *. simpl.
  destruct (String.eqb_spec k k0) as [->|Hk]; simpl.
  - rewrite IH. destruct (String.eqb_spec k' k0); [congruence|reflexivity].
  - rewrite IH. reflexivity.
Qed.

Lemma Map_get_set {V} (k : string) (v : V) (m : JsMap V) :
  Map_get k (Map_set k v m) = Some v.
Proof.
  induction m as [|[k' v'] m IH]; simpl.
  - unfold Map_get. simpl. rewrite String.eqb_refl. reflexivity.
  - unfold Map_get, Map_set in *. simpl.
    destruct (String.eqb_spec k k') as [->|Hne]; simpl.
    + rewrite String.eqb_refl. reflexivity.
    + destruct (String.eqb_spec k k'); [contradiction|exact IH].
Qed.

(** ** Dispatch *)

(** The handler, read through the first-separator split of the name. *)
Lemma callTool_handler_unfold (mcpServers : JsMap McpServer) (now : Z)
    (toolName : string) (toolArgs : jsval) :
  callTool_handler mcpServers now toolName toolArgs =
  match tool_segment toolName with
  | None => ([], Throw (MalformedToolName toolName))
  | Some rest =>
      if negb (str_truthy (backend_segment toolName))
         || negb (str_truthy (before_sep colon rest))
      then ([], Throw (MalformedToolName toolName))
      else
        match Map_get (backend_segment toolName) mcpServers with
        | None => ([], Throw (UnknownBackend (backend_segment toolName)))
        | Some mcpServer =>
            let req := call_request (srv_type mcpServer) now
                         (before_sep colon rest) toolArgs in
            ([mkInvocation (sid mcpServer) req],
             let* response := request mcpServer req in
             normalize_response response)
        end
  end.
Proof.
  unfold callTool_handler.
  rewrite split_limit_serverName, split_limit_actualToolName.
  destruct (tool_segment toolName) as [rest|]; simpl.
  - reflexivity.
  - rewrite orb_true_r. reflexivity.
Qed.

Lemma valid_server_name_inv (b : string) :
  valid_server_name b = true ->
  str_truthy b = true /\ includes ":" b = false.
Proof.
  unfold valid_server_name. intros H.
  apply andb_true_iff in H as [H1 H2].
  apply negb_true_iff in H2. auto.
Qed.

Lemma segments_of_namespaced_name (b t : string) :
  includes ":" b = false ->
  backend_segment (namespaced_name b t) = b /\
  tool_segment (namespaced_name b t) = Some t.
Proof.
  intros Hb. unfold backend_segment, tool_segment, namespaced_name. simpl.
  split; [apply (before_sep_app colon), Hb | apply (after_sep_app colon), Hb].
Qed.



(** C5 (the code at the failing input).  With a session registered under
    [b], the call named [b:t1:t2] reaches that session with the tool name
    [t1]: [split(':', 2)] keeps two pieces and drops [:t2], although the text
    after the first separator is [t1:t2]. *)
Theorem dispatch_truncates_tool_segment
    (mcpServers : JsMap McpServer) (session : McpServer) (now : Z)
    (toolArgs : jsval) :
  tool_segment "b:t1:t2" = Some "t1:t2" /\
  fst (callTool_handler (register "b" session mcpServers) now "b:t1:t2" toolArgs)
  = [mkInvocation (sid session)
       (call_request (srv_type session) now "t1" toolArgs)].
Proof.
  split; [reflexivity|].
  rewrite callTool_handler_unfold. simpl.
  change (backend_segment "b:t1:t2") with "b".
  unfold register. rewrite Map_get_set. reflexivity.
Qed.

(** C6.  A tool name without separator, or with nothing before its first
    separator, or with nothing after it, makes the handler throw the
    malformed-name error without invoking any session. *)
Theorem dispatch_rejects_malformed_name
    (mcpServers : JsMap McpServer) (now : Z) (toolName : string)
    (toolArgs : jsval) :
  includes ":" toolName = false \/
  backend_segment toolName = "" \/
  tool_segment toolName = Some "" ->
  callTool_handler mcpServers now toolName toolArgs =
    ([], Throw (MalformedToolName toolName)).
Proof.
  intros H. rewrite callTool_handler_unfold.
  destruct H as [H|[H|H]].
  - unfold tool_segment. rewrite (after_sep_none colon _ H). reflexivity.
  - rewrite H. destruct (tool_segment toolName); reflexivity.
  - rewrite H. simpl. rewrite orb_true_r. reflexivity.
Qed.



(** ** Aggregation *)

Lemma assoc_get_set_eq {A} (k : string) (v : A) (l : list (string * A)) :
  assoc_get k (assoc_set k v l) = Some v.
Proof.
  induction l as [|[k' v'] l IH]; simpl.
  - rewrite String.eqb_refl. reflexivity.
  - destruct (String.eqb_spec k k') as [->|Hne]; simpl.
    + rewrite String.eqb_refl. reflexivity.
    + destruct (String.eqb_spec k k'); [contradiction|exact IH].
Qed.

Lemma assoc_get_set_ne {A} (k k' : string) (v : A) (l : list (string * A)) :
  k <> k' -> assoc_get k' (assoc_set k v l) = assoc_get k' l.
Proof.
  intros Hne. induction l as [|[k0 v0] l IH]; simpl.
  - destruct (String.eqb_spec k' k); [congruence|reflexivity].
  - destruct (String.eqb_spec k k0) as [->|Hk]; simpl.
    + destruct (String.eqb_spec k' k0); [congruence|reflexivity].
    + rewrite IH. reflexivity.
Qed.

(** What the catalog entry of a tool shows. *)
Lemma namespaced_shows_name (b : string) (tool : jsval) :
  get_prop "name" (namespaced b tool) =
  Return (VStr (namespaced_name b (tool_name tool))).
Proof.
  unfold namespaced. simpl.
  rewrite assoc_get_set_ne by discriminate.
  rewrite assoc_get_set_eq. reflexivity.
Qed.

Lemma namespaced_shows_description (b : string) (tool : jsval) :
  get_prop "description" (namespaced b tool) =
  Return (VStr ("[" +:+ b +:+ "] " +:+ tool_description tool)).
Proof.
  unfold namespaced. simpl. rewrite assoc_get_set_eq. reflexivity.
Qed.

Lemma namespaced_keeps_others (b key : string) (fields : list (string * jsval)) :
  key <> "name" -> key <> "description" ->
  get_prop key (namespaced b (VObj fields)) = get_prop key (VObj fields).
Proof.
  intros Hn Hd. unfold namespaced. simpl.
  rewrite !assoc_get_set_ne by congruence. reflexivity.
Qed.

Lemma prefix_tool_descriptor (serverName : string) (tool : jsval) :
  is_tool_descriptor tool = true ->
  prefix_tool serverName tool = Return (namespaced serverName tool).
Proof.
  destruct tool as [| | | | |items|fields]; try discriminate.
  unfold is_tool_descriptor, prefix_tool, namespaced, tool_name,
    tool_description. simpl.
  destruct (assoc_get "name" fields) as [[| | | |n| |]|]; try discriminate.
  destruct (assoc_get "description" fields) as [[| | | |d| |]|];
    try discriminate; intros _; simpl.
  - unfold js_or. simpl. destruct (String.eqb_spec d "") as [->|_]; reflexivity.
  - reflexivity.
Qed.

Lemma map_outcome_descriptors (serverName : string) (items : list jsval) :
  forallb is_tool_descriptor items = true ->
  map_outcome (prefix_tool serverName) items =
  Return (map (namespaced serverName) items).
Proof.
  induction items as [|tool items IH]; intros H; [reflexivity|].
  simpl in H. apply andb_true_iff in H as [Htool Hitems].
  simpl. rewrite (prefix_tool_descriptor _ _ Htool). simpl.
  rewrite (IH Hitems). reflexivity.
Qed.

Lemma list_one_lists_well (now : Z) (serverName : string) (srv : McpServer) :
  lists_well now srv ->
  list_one now serverName srv =
  Return (map (namespaced serverName) (backend_tools now srv)).
Proof.
  intros (response & items & Hreq & Htools & Hwf).
  unfold list_one, backend_tools. rewrite Hreq. simpl. rewrite Htools. simpl.
  apply map_outcome_descriptors, Hwf.
Qed.

Lemma list_loop_all_well (clock : nat -> Z) (entries : JsMap McpServer) :
  forall (i : nat) (allTools : list jsval),
    (forall j name srv,
        entries !! j = Some (name, srv) -> lists_well (clock (i + j)%nat) srv) ->
    list_loop clock i entries allTools = (allTools ++ catalog clock i entries)%list.
Proof.
  induction entries as [|[name srv] rest IH]; intros i allTools Hwell; simpl.
  - rewrite app_nil_r. reflexivity.
  - rewrite (list_one_lists_well (clock i) name srv).
    + rewrite IH.
      * rewrite <- app_assoc. reflexivity.
      * intros j name' srv' Hj.
        replace (S i + j)%nat with (i + S j)%nat by lia.
        apply (Hwell (S j) name' srv'). exact Hj.
    + replace i with (i + 0)%nat at 1 by lia.
      apply (Hwell 0%nat name srv). reflexivity.
Qed.

(** C2.  In a registry where the listing of one backend [b] throws (its
    call fails, or its answer is unusable) and every other backend answers
    with well-formed descriptors, the handler returns, and what it returns is
    the catalog of the other backends in registry order: every tool with its
    name qualified by its backend and its description prefixed by the backend
    name in brackets. *)
Theorem aggregate_skips_failing_backend
    (before after : JsMap McpServer) (b : string) (s : McpServer)
    (clock : nat -> Z) (e : JsError) :
  list_one (clock (length before)) b s = Throw e ->
  (forall j name srv,
      before !! j = Some (name, srv) -> lists_well (clock j) srv) ->
  (forall j name srv,
      after !! j = Some (name, srv) ->
      lists_well (clock (S (length before) + j)%nat) srv) ->
  listTools_handler (before ++ (b, s) :: after)%list clock =
    Return (VObj [("tools",
                   VArr (catalog clock 0 before
                         ++ catalog clock (S (length before)) after)%list)]).
Proof.
  intros Hfail Hbefore Hafter. unfold listTools_handler. do 4 f_equal.
  assert (Hsplit : forall entries i acc,
            list_loop clock i (entries ++ (b, s) :: after)%list acc =
            list_loop clock (i + length entries)%nat ((b, s) :: after)
              (list_loop clock i entries acc)).
  { induction entries as [|[name srv] rest IH]; intros i acc; simpl.
    - rewrite Nat.add_0_r. reflexivity.
    - rewrite IH. replace (S i + length rest)%nat with (i + S (length rest))%nat by lia.
      reflexivity. }
  rewrite Hsplit. simpl. rewrite Hfail.
  rewrite (list_loop_all_well clock before 0 []) by exact Hbefore.
  rewrite list_loop_all_well by exact Hafter.
  reflexivity.
Qed.

(** ** The streamed body *)

Lemma str_app_cons (x : ascii) (a b : string) :
  String x a +:+ b = String x (a +:+ b).
Proof. reflexivity. Qed.

Lemma str_app_assoc (a b c : string) : (a +:+ b) +:+ c = a +:+ (b +:+ c).
Proof.
  induction a as [|x a IH]; [reflexivity|].
  rewrite !str_app_cons, IH. reflexivity.
Qed.

Lemma str_app_nil_r (a : string) : a +:+ "" = a.
Proof.
  induction a as [|x a IH]; [reflexivity|].
  rewrite str_app_cons, IH. reflexivity.
Qed.

Lemma str_split_snoc (sep : ascii) (s : string) :
  exists init lst,
    str_split sep s = (init ++ [lst])%list /\
    forall r, str_split sep (s +:+ r) = (init ++ str_split sep (lst +:+ r))%list.
Proof.
  induction s as [|c s (init & lst & Hs & Hr)].
  - exists [], "". split; [reflexivity|]. intros r. reflexivity.
  - simpl. destruct (Ascii.eqb c sep) eqn:Hc.
    + exists ("" :: init), lst. rewrite Hs. split; [reflexivity|].
      intros r. rewrite Hr. reflexivity.
    + destruct init as [|p init].
      * exists [], (String c lst). rewrite Hs. split; [reflexivity|].
        intros r. rewrite Hr. simpl. rewrite Hc. reflexivity.
      * exists (String c p :: init), lst. rewrite Hs. split; [reflexivity|].
        intros r. rewrite Hr. reflexivity.
Qed.

Section Streaming.

Variable JSON_parse : string -> Outcome jsval.

Lemma scan_lines_app (message_id : option string) (l1 l2 : list string) :
  scan_lines JSON_parse message_id (l1 ++ l2) =
  match scan_lines JSON_parse message_id l1 with
  | Some data => Some data
  | None => scan_lines JSON_parse message_id l2
  end.
Proof.
  induction l1 as [|line l1 IH]; [reflexivity|].
  simpl. destruct (str_truthy (trim line)); [|exact IH].
  destruct (JSON_parse line) as [data|e]; simpl; [|exact IH].
  destruct (get_prop "id" data) as [data_id|e]; simpl; [|exact IH].
  destruct (id_matches data_id message_id); [reflexivity|exact IH].
Qed.

Lemma scan_lines_no_answer (message_id : option string) (lines : list string) :
  (forall line, line ∈ lines -> ~ answers JSON_parse message_id line) ->
  scan_lines JSON_parse message_id lines = None.
Proof.
  induction lines as [|line lines IH]; intros Hno; [reflexivity|].
  assert (Hrest : scan_lines JSON_parse message_id lines = None).
  { apply IH. intros l Hl. apply Hno. right. exact Hl. }
  simpl. destruct (str_truthy (trim line)); [|exact Hrest].
  destruct (JSON_parse line) as [data|e] eqn:Hparse; simpl; [|exact Hrest].
  destruct (get_prop "id" data) as [data_id|e] eqn:Hid; simpl; [|exact Hrest].
  destruct (id_matches data_id message_id) eqn:Hm; [|exact Hrest].
  exfalso. apply (Hno line); [left|].
  exists data, data_id. auto.
Qed.

(** Reading the body in chunks scans the same lines, in the same order, as
    the whole text has, and ends with the same buffer. *)
Lemma read_loop_chunks (message_id : option string) (chunks : list string) :
  forall buffer,
    read_loop JSON_parse message_id chunks buffer =
    match chunks with
    | [] => inr buffer
    | _ => scan_text JSON_parse message_id
             (buffer +:+ foldr String.append "" chunks)
    end.
Proof.
  induction chunks as [|value more IH]; intros buffer; [reflexivity|].
  simpl read_loop.
  destruct (str_split_snoc newline (buffer +:+ value)) as (init & lst & Hs & Hr).
  rewrite Hs, removelast_last, last_snoc. simpl default.
  rewrite IH. unfold scan_text. destruct more as [|value' more'].
  - simpl foldr. rewrite str_app_nil_r, Hs, removelast_last, last_snoc.
    reflexivity.
  - set (rest := foldr String.append "" (value' :: more')).
    change (foldr String.append "" (value :: value' :: more'))
      with (value +:+ rest).
    rewrite <- str_app_assoc, Hr.
    destruct (str_split_snoc newline (lst +:+ rest)) as (init' & lst' & Hs' & _).
    rewrite Hs', app_assoc, !removelast_last, !last_snoc, scan_lines_app.
    destruct (scan_lines JSON_parse message_id init); reflexivity.
Qed.

(** [sendHTTP] on a body that is read as a stream, in terms of the whole
    text of the body. *)
Lemma sendHTTP_stream (message : Request) (response : HttpResponse) :
  resp_ok response = true ->
  content_type_has "application/json" (resp_contentType response) = false ->
  content_type_has "text/" (resp_contentType response) = false ->
  sendHTTP JSON_parse message (Return response) =
  match scan_text JSON_parse (req_id message) (body_text response) with
  | inl data => Return data
  | inr buffer =>
      if str_truthy (trim buffer)
      then try_catch (JSON_parse buffer)
             (fun _ => Return (VObj [("result", VStr buffer)]))
      else Return VUndefined
  end.
Proof.
  intros Hok Hjson Htext. unfold sendHTTP. simpl.
  rewrite Hok, Hjson, Htext. simpl.
  rewrite read_loop_chunks. unfold body_text.
  destruct (resp_chunks response); reflexivity.
Qed.

End Streaming.

(** C3 (as the specification's scenario states it, refuted).  On the stream
    [{id:x,partial:true}] newline [{id:x,result:42}] newline, delivered one
    fragment per read, the call with id [x] resolves with the partial
    fragment, the first whose id matches, and not with the fragment that
    carries the result. *)
Lemma stream_scenario_not_the_result :
  sendHTTP json_parse request_x (Return stream_response) = Return partial_fragment
  /\ sendHTTP json_parse request_x (Return stream_response) <> Return result_fragment.
Proof.
  assert (H : sendHTTP json_parse request_x (Return stream_response)
              = Return partial_fragment) by (vm_compute; reflexivity).
  split; [exact H|]. rewrite H. discriminate.
Qed.

Lemma str_split_line (sep : ascii) (line rest : string) :
  includes (String sep "") line = false ->
  str_split sep (line +:+ String sep rest) = line :: str_split sep rest.
Proof.
  intros Hline.
  rewrite str_split_first, (before_sep_app sep), (after_sep_app sep) by exact Hline.
  reflexivity.
Qed.

Lemma str_split_lines_text (lines : list string) (tail : string) :
  Forall (fun line => includes line_feed line = false) lines ->
  str_split newline (lines_text lines +:+ tail) =
  (lines ++ str_split newline tail)%list.
Proof.
  induction 1 as [|line lines Hline _ IH]; [reflexivity|].
  change (lines_text (line :: lines))
    with (line +:+ String newline (lines_text lines)).
  rewrite str_app_assoc, str_app_cons, (str_split_line newline) by exact Hline.
  rewrite IH. reflexivity.
Qed.

Lemma removelast_pieces (sep : ascii) (lines : list string) (tail : string) :
  removelast (lines ++ str_split sep tail) =
  (lines ++ removelast (str_split sep tail))%list.
Proof.
  apply removelast_app. rewrite str_split_first. discriminate.
Qed.

(** C3 (amended).  Let a stream hold, after any fragments that do not answer
    the request, the fragment [{id:x,partial:true}] and then anything, the
    fragment [{id:x,result:42}] included.  However the stream is cut into
    reads, and whatever content type other than JSON or text is declared, a
    call whose id is [x] resolves with the first fragment whose id matches,
    which is the partial fragment; what follows it is not looked at.  This
    holds for every [JSON.parse] that reads the text of the partial fragment
    as that fragment; whether an earlier fragment answers is judged by the
    same parser. *)
Theorem stream_resolves_with_first_match
    (JSON_parse : string -> Outcome jsval)
    (message : Request) (status : Z) (statusText : string)
    (contentType : option string) (chunks : list string)
    (earlier : list string) (rest : string) :
  JSON_parse partial_text = Return partial_fragment ->
  req_id message = Some "x" ->
  content_type_has "application/json" contentType = false ->
  content_type_has "text/" contentType = false ->
  Forall (fun line => includes line_feed line = false) earlier ->
  (forall line, line ∈ earlier -> ~ answers JSON_parse (Some "x") line) ->
  foldr String.append "" chunks =
    lines_text earlier +:+ partial_text +:+ line_feed +:+ rest ->
  sendHTTP JSON_parse message
    (Return (mkHttpResponse true status statusText contentType chunks))
  = Return partial_fragment.
Proof.
  intros Hparse Hid Hjson Htext Hlines Hearlier Hbody.
  rewrite sendHTTP_stream by (simpl; first [assumption | reflexivity]).
  unfold body_text. simpl resp_chunks. rewrite Hbody, Hid.
  unfold scan_text.
  rewrite str_split_lines_text by exact Hlines.
  change (partial_text +:+ line_feed +:+ rest)
    with (partial_text +:+ String newline rest).
  rewrite (str_split_line newline) by (vm_compute; reflexivity).
  rewrite cons_middle, app_assoc, removelast_pieces, <- app_assoc.
  rewrite scan_lines_app, (scan_lines_no_answer JSON_parse _ _ Hearlier).
  cbn [app scan_lines].
  replace (str_truthy (trim partial_text)) with true by (vm_compute; reflexivity).
  rewrite Hparse. reflexivity.
Qed.

Lemma stream_scenario_witness :
  sendHTTP json_parse request_x
    (Return (mkHttpResponse true 200 "OK" (Some "application/x-ndjson")
               [dq "{'id':'y','result':0}" +:+ line_feed +:+ dq "{'id':'x','par";
                dq "tial':true}" +:+ line_feed +:+ result_text;
                line_feed]))
  = Return partial_fragment.
Proof.
  apply (stream_resolves_with_first_match json_parse request_x 200 "OK"
           (Some "application/x-ndjson") _
           [dq "{'id':'y','result':0}"] (result_text +:+ line_feed));
    try (vm_compute; reflexivity).
  - repeat constructor.
  - intros line Hin (data & data_id & Hparse & Hget & Hmatch).
    apply list_elem_of_singleton in Hin. subst line.
    vm_compute in Hparse. injection Hparse as <-.
    vm_compute in Hget. injection Hget as <-.
    vm_compute in Hmatch. discriminate Hmatch.
Defined.

(** C10.  When the body is read as a stream, none of its complete lines
    answers the request and what follows its last newline is blank, the send
    resolves with [undefined]: neither a result nor an error. *)
Theorem stream_without_answer_resolves_undefined
    (JSON_parse : string -> Outcome jsval) (message : Request)
    (response : HttpResponse) :
  resp_ok response = true ->
  content_type_has "application/json" (resp_contentType response) = false ->
  content_type_has "text/" (resp_contentType response) = false ->
  (forall line,
      line ∈ removelast (str_split newline (body_text response)) ->
      ~ answers JSON_parse (req_id message) line) ->
  trim (default "" (last (str_split newline (body_text response)))) = "" ->
  sendHTTP JSON_parse message (Return response) = Return VUndefined.
Proof.
  intros Hok Hjson Htext Hno Hblank.
  rewrite sendHTTP_stream by assumption. unfold scan_text.
  rewrite (scan_lines_no_answer JSON_parse _ _ Hno), Hblank. reflexivity.
Qed.

Lemma stream_without_answer_witness :
  sendHTTP json_parse request_x (Return other_response) = Return VUndefined.
Proof.
  apply stream_without_answer_resolves_undefined;
    try (vm_compute; reflexivity).
  intros line Hin (data & data_id & Hparse & Hid & Hmatch).
  vm_compute in Hin. apply list_elem_of_singleton in Hin. subst line.
  vm_compute in Hparse. injection Hparse as <-.
  vm_compute in Hid. injection Hid as <-.
  vm_compute in Hmatch. discriminate Hmatch.
Defined.

(** ** Witnesses for the router *)


Lemma dispatch_rejects_witness :
  callTool_handler two_backends 0 "a:" VUndefined
  = ([], Throw (MalformedToolName "a:")).
Proof.
  apply dispatch_rejects_malformed_name.
  right. right. vm_compute. reflexivity.
Defined.


Lemma aggregate_witness :
  listTools_handler
    [("a", listing 1 STDIO); ("c", broken 3); ("b", listing 2 STREAMABLE_HTTP)]
    (fun _ => 1700000000000)
  = Return (VObj [("tools",
                   VArr [namespaced "a" run_tool; namespaced "b" run_tool])]).
Proof.
  apply (aggregate_skips_failing_backend
           [("a", listing 1 STDIO)] [("b", listing 2 STREAMABLE_HTTP)]
           "c" (broken 3) (fun _ => 1700000000000)
           (Error "Server c is unavailable: fetch failed")).
  - vm_compute. reflexivity.
  - intros [|j] name srv Hj; [|destruct j; discriminate Hj].
    injection Hj as <- <-.
    exists (VObj [("tools", VArr [run_tool])]), [run_tool].
    repeat split; vm_compute; reflexivity.
  - intros [|j] name srv Hj; [|destruct j; discriminate Hj].
    injection Hj as <- <-.
    exists (VObj [("tools", VArr [run_tool])]), [run_tool].
    repeat split; vm_compute; reflexivity.
Defined.

(** ** The event loop of the transport *)

Lemma settlements_of_app (c : nat) (l1 l2 : list (nat * Outcome jsval)) :
  settlements_of c (l1 ++ l2) = (settlements_of c l1 ++ settlements_of c l2)%list.
Proof.
  induction l1 as [|[c' o] l1 IH]; [reflexivity|].
  simpl. destruct (Nat.eqb c' c); simpl; rewrite IH; reflexivity.
Qed.

Lemma settlements_of_settle_ne (c c' : nat) (o : Outcome jsval) (rt : Runtime) :
  c' <> c ->
  settlements_of c (settlements (settle c' o rt)) = settlements_of c (settlements rt).
Proof.
  intros Hne. simpl. rewrite settlements_of_app. simpl.
  destruct (Nat.eqb_spec c' c); [contradiction|]. apply app_nil_r.
Qed.

Lemma settlements_of_settle_eq (c : nat) (o : Outcome jsval) (rt : Runtime) :
  settlements_of c (settlements (settle c o rt)) =
  (settlements_of c (settlements rt) ++ [o])%list.
Proof.
  simpl. rewrite settlements_of_app. simpl. rewrite Nat.eqb_refl. reflexivity.
Qed.

Lemma send_prepare_keeps (t t' : HttpTransport) (message message' : Request)
    (message_id : string) :
  send_prepare t message = Return (t', message', message_id) ->
  connected t = true /\
  pendingRequests t' = pendingRequests t /\
  config_type t' = config_type t /\
  req_id message' = Some message_id.
Proof.
  unfold send_prepare. destruct (connected t); [simpl|discriminate].
  destruct (req_id message) as [i|] eqn:Hid; simpl.
  - destruct (str_truthy i); intros H; injection H as <- <- <-; auto.
  - intros H; injection H as <- <- <-; auto.
Qed.

Section EventLoop.

Variable JSON_parse : string -> Outcome jsval.

(** Issuing a call leaves the correlation table as it was: nothing is
    registered while the POST is on its way. *)
Lemma CallSend_keeps_table (rt rt' : Runtime) (message : Request) :
  step JSON_parse rt (CallSend message) = Some rt' ->
  pendingRequests (transport rt') = pendingRequests (transport rt).
Proof.
  simpl. intros H. injection H as <-.
  unfold send_route.
  destruct (send_prepare (transport rt) message) as [[[t' m'] i]|e] eqn:Hp;
    [|reflexivity].
  apply send_prepare_keeps in Hp as (_ & Htable & _ & _).
  destruct (config_type t'); simpl; auto.
Qed.

Lemma handleMessage_cases (rt rt' : Runtime) (data : jsval) :
  handleMessage rt data = Return rt' ->
  rt' = set_transport (emit (EmMessage data) (transport rt)) rt
  \/ exists key entry,
       pendingRequests (transport rt) !! key = Some entry /\
       rt' = settle (pr_promise entry) (Return data)
               (set_transport
                  (set_pendingRequests
                     (delete key (pendingRequests (transport rt)))
                     (transport rt))
                  (set_timers (delete (pr_timeout entry) (timers rt)) rt)).
Proof.
  unfold handleMessage.
  destruct (get_prop "id" data) as [data_id|e]; simpl; [|discriminate].
  destruct data_id as [| | | |key| |]; try (intros H; injection H as <-; auto).
  destruct (str_truthy key); [|intros H; injection H as <-; auto].
  destruct (pendingRequests (transport rt) !! key) as [entry|] eqn:Hk;
    intros H; injection H as <-; [|auto].
  right. exists key, entry. auto.
Qed.

Lemma wf_start (t : HttpTransport) :
  pendingRequests t = ∅ -> wf_runtime (start_runtime t).
Proof.
  intros Hempty. constructor; simpl.
  - intros c [x Hx]. rewrite lookup_empty in Hx. discriminate.
  - intros c [x Hx]. rewrite lookup_empty in Hx. discriminate.
  - intros c _. apply lookup_empty.
  - intros key entry H. rewrite Hempty, lookup_empty in H. discriminate.
  - reflexivity.
Qed.

End EventLoop.

Section Invariant.
Variable JSON_parse : string -> Outcome jsval.

Lemma wf_call_settled (rt : Runtime) (t' : HttpTransport) (o : Outcome jsval) :
  wf_runtime rt ->
  pendingRequests t' = pendingRequests (transport rt) ->
  wf_runtime (settle (next_call rt) o
                (set_transport t' (set_next_call (S (next_call rt)) rt))).
Proof.
  intros [W1 W2 W3 W4 W5] Ht. constructor; simpl.
  - intros c Hc. specialize (W1 c Hc). lia.
  - intros c Hc. specialize (W2 c Hc). lia.
  - exact W3.
  - rewrite Ht. exact W4.
  - intros c Hc. rewrite settlements_of_app. simpl.
    destruct (Nat.eqb_spec (next_call rt) c) as [<-|Hne].
    + exfalso. destruct Hc as [Hc|[Hc|Hc]].
      * specialize (W1 _ Hc). lia.
      * specialize (W2 _ Hc). lia.
      * lia.
    + rewrite app_nil_r. apply W5.
      destruct Hc as [Hc|[Hc|Hc]]; auto. right. right. lia.
Qed.

Lemma wf_call_suspended (rt : Runtime) (t' : HttpTransport)
    (message : Request) (message_id : string) :
  wf_runtime rt ->
  pendingRequests t' = pendingRequests (transport rt) ->
  wf_runtime (set_in_flight
                (<[next_call rt := (message, message_id)]> (in_flight rt))
                (set_transport t' (set_next_call (S (next_call rt)) rt))).
Proof.
  intros [W1 W2 W3 W4 W5] Ht. constructor; simpl.
  - intros c Hc. apply lookup_insert_is_Some in Hc as [<-|[_ Hc]]; [lia|].
    specialize (W1 c Hc). lia.
  - intros c Hc. specialize (W2 c Hc). lia.
  - intros c Hc. apply lookup_insert_is_Some in Hc as [<-|[_ Hc]]; [|auto].
    destruct (timers rt !! next_call rt) eqn:E; [|reflexivity].
    assert (next_call rt < next_call rt)%nat by (apply W2; eauto). lia.
  - rewrite Ht. exact W4.
  - intros c Hc. apply W5. destruct Hc as [Hc|[Hc|Hc]]; auto.
    + apply lookup_insert_is_Some in Hc as [<-|[_ Hc]]; auto.
    + right. right. lia.
Qed.

Lemma wf_fetch_settled (rt : Runtime) (c : nat) (o : Outcome jsval) :
  wf_runtime rt ->
  is_Some (in_flight rt !! c) ->
  wf_runtime (settle c o (set_in_flight (delete c (in_flight rt)) rt)).
Proof.
  intros [W1 W2 W3 W4 W5] Hc. constructor; simpl.
  - intros c' H'. apply lookup_delete_is_Some in H' as [_ H']. auto.
  - exact W2.
  - intros c' H'. apply lookup_delete_is_Some in H' as [_ H']. auto.
  - exact W4.
  - intros c' H'. rewrite settlements_of_app. simpl.
    destruct (Nat.eqb_spec c c') as [<-|Hne].
    + exfalso. destruct H' as [H'|[H'|H']].
      * apply lookup_delete_is_Some in H' as [H' _]. congruence.
      * rewrite (W3 c Hc) in H'. destruct H'; discriminate.
      * specialize (W1 c Hc). lia.
    + rewrite app_nil_r. apply W5.
      destruct H' as [H'|[H'|H']]; auto.
      apply lookup_delete_is_Some in H' as [_ H']. auto.
Qed.

Lemma wf_registered (rt : Runtime) (c : nat) (message_id : string) :
  wf_runtime rt ->
  is_Some (in_flight rt !! c) ->
  let rt0 := set_in_flight (delete c (in_flight rt)) rt in
  let rt1 := set_timers (<[c := mkTimer message_id SSE_TIMEOUT]> (timers rt0)) rt0 in
  wf_runtime
    (set_transport
       (set_pendingRequests
          (<[message_id := mkPending c c]> (pendingRequests (transport rt1)))
          (transport rt1)) rt1).
Proof.
  intros [W1 W2 W3 W4 W5] Hc. constructor; simpl.
  - intros c' H'. apply lookup_delete_is_Some in H' as [_ H']. auto.
  - intros c' H'. apply lookup_insert_is_Some in H' as [<-|[_ H']]; auto.
  - intros c' H'. apply lookup_delete_is_Some in H' as [Hne H'].
    rewrite lookup_insert_ne by exact Hne. auto.
  - intros key entry H'.
    apply lookup_insert_Some in H' as [[<- <-]|[Hne H']]; simpl.
    + split; [reflexivity|]. eexists. rewrite lookup_insert_eq. split; reflexivity.
    + destruct (W4 key entry H') as (Hp & tm & Htm & Hkey).
      split; [exact Hp|]. exists tm. split; [|exact Hkey].
      rewrite lookup_insert_ne; [exact Htm|].
      intros Heq. rewrite <- Heq, (W3 c Hc) in Htm. discriminate.
  - intros c' H'. apply W5. destruct H' as [H'|[H'|H']]; auto.
    + apply lookup_delete_is_Some in H' as [_ H']. auto.
    + apply lookup_insert_is_Some in H' as [<-|[_ H']]; auto.
Qed.

Lemma wf_entry_removed (rt : Runtime) (c : nat) (key : string) (tm : Timer)
    (o : Outcome jsval) :
  wf_runtime rt ->
  timers rt !! c = Some tm ->
  tm_request_id tm = key ->
  wf_runtime
    (settle c o
       (set_transport
          (set_pendingRequests (delete key (pendingRequests (transport rt)))
             (transport rt))
          (set_timers (delete c (timers rt)) rt))).
Proof.
  intros [W1 W2 W3 W4 W5] Htm Hkey. constructor; simpl.
  - exact W1.
  - intros c' H'. apply lookup_delete_is_Some in H' as [_ H']. auto.
  - intros c' H'. rewrite lookup_delete_ne; [auto|].
    intros <-. rewrite (W3 c H') in Htm. discriminate.
  - intros key' entry' H'. apply lookup_delete_Some in H' as [Hne H'].
    destruct (W4 key' entry' H') as (Hp & tm' & Htm' & Hkey').
    split; [exact Hp|]. exists tm'. split; [|exact Hkey'].
    rewrite lookup_delete_ne; [exact Htm'|].
    intros Heq. rewrite <- Heq, Htm in Htm'. congruence.
  - intros c' H'. rewrite settlements_of_app. simpl.
    destruct (Nat.eqb_spec c c') as [<-|Hne].
    + exfalso. destruct H' as [H'|[H'|H']].
      * rewrite (W3 c H') in Htm. discriminate.
      * apply lookup_delete_is_Some in H' as [H' _]. congruence.
      * assert (c < next_call rt)%nat by (apply W2; eauto). lia.
    + rewrite app_nil_r. apply W5.
      destruct H' as [H'|[H'|H']]; auto.
      apply lookup_delete_is_Some in H' as [_ H']. auto.
Qed.

Lemma wf_ext (rt rt' : Runtime) :
  in_flight rt' = in_flight rt ->
  timers rt' = timers rt ->
  pendingRequests (transport rt') = pendingRequests (transport rt) ->
  settlements rt' = settlements rt ->
  next_call rt' = next_call rt ->
  wf_runtime rt -> wf_runtime rt'.
Proof.
  intros E1 E2 E3 E4 E5 [W1 W2 W3 W4 W5].
  constructor; rewrite ?E1, ?E2, ?E3, ?E4, ?E5; assumption.
Qed.

Lemma wf_step (rt rt' : Runtime) (ev : Event) :
  wf_runtime rt -> step JSON_parse rt ev = Some rt' -> wf_runtime rt'.
Proof.
  intros W H. destruct ev as [message|c fetched|event_data|c]; simpl in H.
  - injection H as <-. unfold send_route.
    destruct (send_prepare (transport rt) message) as [[[t' m'] i]|e] eqn:Hp.
    + apply send_prepare_keeps in Hp as (_ & Htable & _ & _).
      destruct (config_type t').
      * eapply wf_ext; [..|apply (wf_call_settled rt t' (Return VUndefined) W Htable)];
          reflexivity.
      * eapply wf_ext; [..|apply (wf_call_suspended rt t' m' i W Htable)];
          reflexivity.
      * eapply wf_ext; [..|apply (wf_call_suspended rt t' m' i W Htable)];
          reflexivity.
    + eapply wf_ext;
        [..|apply (wf_call_settled rt (transport rt) (Throw e) W eq_refl)];
        reflexivity.
  - destruct (in_flight rt !! c) as [[message message_id]|] eqn:Hc;
      [|discriminate].
    injection H as <-.
    assert (Hsome : is_Some (in_flight rt !! c)) by eauto.
    destruct (config_type (transport rt)); simpl.
    + apply wf_fetch_settled; assumption.
    + unfold sendSSE_continue.
      destruct fetched as [response|e]; [|apply wf_fetch_settled; assumption].
      destruct (resp_ok response); simpl;
        [|apply wf_fetch_settled; assumption].
      apply (wf_registered rt c message_id W Hsome).
    + apply wf_fetch_settled; assumption.
  - injection H as <-. unfold onmessage.
    destruct (JSON_parse event_data) as [data|e]; simpl; [|exact W].
    destruct (handleMessage rt data) as [rt1|e] eqn:Hh; [|exact W].
    apply handleMessage_cases in Hh as [->|(key & entry & Hk & ->)].
    + eapply wf_ext; [..|exact W]; reflexivity.
    + destruct (wf_entries rt W key entry Hk) as (Hp & tm & Htm & Hkey).
      rewrite Hp.
      apply (wf_entry_removed rt (pr_timeout entry) key tm); assumption.
  - destruct (timers rt !! c) as [tm|] eqn:Htm; [|discriminate].
    injection H as <-. unfold timeout_callback.
    apply (wf_entry_removed rt c (tm_request_id tm) tm); auto.
Qed.

Lemma wf_run (evs : list Event) :
  forall rt rt',
    wf_runtime rt -> run JSON_parse rt evs = Some rt' -> wf_runtime rt'.
Proof.
  induction evs as [|ev evs IH]; intros rt rt' W H; simpl in H.
  - injection H as <-. exact W.
  - destruct (step JSON_parse rt ev) as [rt1|] eqn:Hs; [|discriminate].
    apply (IH rt1); [|exact H]. apply (wf_step rt rt1 ev W Hs).
Qed.

Lemma reachable_wf (rt : Runtime) : reachable JSON_parse rt -> wf_runtime rt.
Proof.
  intros (t & evs & Hempty & Hrun).
  apply (wf_run evs (start_runtime t) rt); [|exact Hrun].
  apply wf_start, Hempty.
Qed.

(** Once a call is over no event settles it again. *)
Lemma finished_step (c : nat) (rt rt' : Runtime) (ev : Event) :
  finished c rt -> step JSON_parse rt ev = Some rt' ->
  finished c rt' /\
  settlements_of c (settlements rt') = settlements_of c (settlements rt).
Proof.
  intros [F1 F2 F3 F4] H.
  destruct ev as [message|c' fetched|event_data|c']; simpl in H.
  - injection H as <-. unfold send_route.
    assert (Hne : next_call rt <> c) by lia.
    destruct (send_prepare (transport rt) message) as [[[t' m'] i]|e] eqn:Hp.
    + apply send_prepare_keeps in Hp as (_ & Htable & _ & _).
      destruct (config_type t'); (split; [constructor|]); simpl;
        rewrite ?Htable, ?lookup_insert_ne by exact Hne; auto;
        rewrite settlements_of_app; simpl;
        destruct (Nat.eqb_spec (next_call rt) c); [contradiction|];
        apply app_nil_r.
    + split; [constructor; simpl; auto|].
      rewrite settlements_of_settle_ne by exact Hne. reflexivity.
  - destruct (in_flight rt !! c') as [[message message_id]|] eqn:Hc;
      [|discriminate].
    injection H as <-.
    assert (Hne : c' <> c) by congruence.
    assert (Hsettled : forall o,
              finished c (settle c' o (set_in_flight (delete c' (in_flight rt)) rt))
              /\ settlements_of c
                   (settlements
                      (settle c' o (set_in_flight (delete c' (in_flight rt)) rt)))
                 = settlements_of c (settlements rt)).
    { intros o. split; [constructor; simpl; auto|].
      - rewrite lookup_delete_ne by exact Hne. exact F2.
      - rewrite settlements_of_settle_ne by exact Hne. reflexivity. }
    destruct (config_type (transport rt)); simpl; try apply Hsettled.
    unfold sendSSE_continue.
    destruct fetched as [response|e]; [|apply Hsettled].
    destruct (resp_ok response); simpl; [|apply Hsettled].
    split; [constructor; simpl; auto|reflexivity].
    + rewrite lookup_delete_ne by exact Hne. exact F2.
    + rewrite lookup_insert_ne by exact Hne. exact F3.
    + intros key entry Hk.
      apply lookup_insert_Some in Hk as [[_ <-]|[_ Hk]]; [exact Hne|eauto].
  - injection H as <-. unfold onmessage.
    destruct (JSON_parse event_data) as [data|e]; simpl;
      [|split; [constructor; auto|reflexivity]].
    destruct (handleMessage rt data) as [rt1|e] eqn:Hh;
      [|split; [constructor; auto|reflexivity]].
    apply handleMessage_cases in Hh as [->|(key & entry & Hk & ->)].
    + split; [constructor; auto|reflexivity].
    + assert (Hne : pr_promise entry <> c) by eauto.
      split; [constructor; simpl; auto|].
      * destruct (decide (pr_timeout entry = c)) as [->|Hn].
        -- apply lookup_delete_eq.
        -- rewrite lookup_delete_ne by exact Hn. exact F3.
      * intros key' entry' Hk'.
        apply lookup_delete_Some in Hk' as [_ Hk']. eauto.
      * rewrite settlements_of_settle_ne by exact Hne. reflexivity.
  - destruct (timers rt !! c') as [tm|] eqn:Htm; [|discriminate].
    injection H as <-. unfold timeout_callback.
    assert (Hne : c' <> c) by congruence.
    split; [constructor; simpl; auto|].
    + rewrite lookup_delete_ne by exact Hne. exact F3.
    + intros key' entry' Hk'.
      apply lookup_delete_Some in Hk' as [_ Hk']. eauto.
    + rewrite settlements_of_settle_ne by exact Hne. reflexivity.
Qed.

Lemma finished_run (c : nat) (evs : list Event) :
  forall rt rt',
    finished c rt -> run JSON_parse rt evs = Some rt' ->
    settlements_of c (settlements rt') = settlements_of c (settlements rt).
Proof.
  induction evs as [|ev evs IH]; intros rt rt' F H; simpl in H.
  - injection H as <-. reflexivity.
  - destruct (step JSON_parse rt ev) as [rt1|] eqn:Hs; [|discriminate].
    destruct (finished_step c rt rt1 ev F Hs) as [F1 E1].
    rewrite (IH rt1 rt' F1 H). exact E1.
Qed.

Lemma timeout_finishes (rt : Runtime) (c : nat) (tm : Timer) :
  wf_runtime rt -> timers rt !! c = Some tm ->
  finished c (timeout_callback rt c tm).
Proof.
  intros [W1 W2 W3 W4 W5] Htm. unfold timeout_callback.
  constructor; simpl.
  - apply W2. eauto.
  - destruct (in_flight rt !! c) eqn:E; [|reflexivity].
    rewrite W3 in Htm by eauto. discriminate.
  - apply lookup_delete_eq.
  - intros key entry Hk Hp.
    apply lookup_delete_Some in Hk as [Hne Hk].
    destruct (W4 key entry Hk) as (Heq & tm' & Htm' & Hkey).
    rewrite <- Heq, Hp, Htm in Htm'. congruence.
Qed.
End Invariant.

(** A message whose id has no entry is an unsolicited one. *)
Lemma handleMessage_unmatched (rt : Runtime) (data : jsval) (key : string) :
  pendingRequests (transport rt) !! key = None ->
  get_prop "id" data = Return (VStr key) ->
  handleMessage rt data =
  Return (set_transport (emit (EmMessage data) (transport rt)) rt).
Proof.
  intros Hnone Hid. unfold handleMessage. rewrite Hid. simpl.
  rewrite Hnone. destruct (str_truthy key); reflexivity.
Qed.

(** C8.  In a reachable state where the timer of call [c] is still armed (no
    matching response has been handled), the timer callback rejects the call
    with the timeout error, this being its only settlement, and removes the
    entry under the request's id; a response with that id arriving next finds
    no entry and is emitted as an unsolicited message, the session going on;
    and whatever events follow, the call is never settled a second time. *)
Theorem timeout_settles_exactly_once
    (JSON_parse : string -> Outcome jsval) (rt : Runtime) (c : nat) (tm : Timer) :
  reachable JSON_parse rt ->
  timers rt !! c = Some tm ->
  exists rt1,
    step JSON_parse rt (TimerFires c) = Some rt1 /\
    settlements_of c (settlements rt1) = [Throw (Error "SSE request timeout")] /\
    pendingRequests (transport rt1) !! tm_request_id tm = None /\
    (forall event_data data,
        JSON_parse event_data = Return data ->
        get_prop "id" data = Return (VStr (tm_request_id tm)) ->
        step JSON_parse rt1 (SseMessage event_data) =
        Some (set_transport (emit (EmMessage data) (transport rt1)) rt1)) /\
    (forall evs rt2,
        run JSON_parse rt1 evs = Some rt2 ->
        settlements_of c (settlements rt2) = [Throw (Error "SSE request timeout")]
        /\ completion c rt2 = Some (Throw (Error "SSE request timeout"))).
Proof.
  intros Hreach Htm.
  pose proof (reachable_wf JSON_parse rt Hreach) as W.
  exists (timeout_callback rt c tm).
  assert (Hlog : settlements_of c (settlements (timeout_callback rt c tm))
                 = [Throw (Error "SSE request timeout")]).
  { unfold timeout_callback. rewrite settlements_of_settle_eq. simpl.
    rewrite (wf_unsettled rt W c) by eauto. reflexivity. }
  assert (Hgone : pendingRequests (transport (timeout_callback rt c tm))
                    !! tm_request_id tm = None).
  { unfold timeout_callback. simpl. apply lookup_delete_eq. }
  repeat split.
  - simpl. rewrite Htm. reflexivity.
  - exact Hlog.
  - exact Hgone.
  - intros event_data data Hparse Hid. unfold step, onmessage.
    rewrite Hparse. unfold bind.
    rewrite (handleMessage_unmatched _ _ _ Hgone Hid). reflexivity.
  - rewrite (finished_run JSON_parse c evs _ rt2 (timeout_finishes rt c tm W Htm) H).
    exact Hlog.
  - unfold completion.
    rewrite (finished_run JSON_parse c evs _ rt2 (timeout_finishes rt c tm W Htm) H).
    rewrite Hlog. reflexivity.
Qed.

Lemma timeout_witness :
  exists rt1,
    step json_parse armed_runtime (TimerFires 0) = Some rt1 /\
    settlements_of 0 (settlements rt1) = [Throw (Error "SSE request timeout")] /\
    pendingRequests (transport rt1) !! "x" = None /\
    (forall event_data data,
        json_parse event_data = Return data ->
        get_prop "id" data = Return (VStr "x") ->
        step json_parse rt1 (SseMessage event_data) =
        Some (set_transport (emit (EmMessage data) (transport rt1)) rt1)) /\
    (forall evs rt2,
        run json_parse rt1 evs = Some rt2 ->
        settlements_of 0 (settlements rt2) = [Throw (Error "SSE request timeout")]
        /\ completion 0 rt2 = Some (Throw (Error "SSE request timeout"))).
Proof.
  apply (timeout_settles_exactly_once json_parse armed_runtime 0
           (mkTimer "x" SSE_TIMEOUT)).
  - exists connected_sse, [CallSend request_x; FetchSettles 0 (Return ok_response)].
    split; vm_compute; reflexivity.
  - vm_compute. reflexivity.
Defined.

Lemma connect_connected (t : HttpTransport) (setup : Outcome unit)
    (probe : Outcome HttpResponse) :
  connected (connect t setup probe) = true /\
  config_type (connect t setup probe) = config_type t.
Proof.
  unfold connect. destruct (connected t) eqn:Hc; [auto|].
  destruct (config_type t) eqn:Hty.
  - simpl. auto.
  - unfold connectSSE. destruct setup; simpl; auto.
  - destruct (connectHTTP t probe); simpl; auto.
Qed.

(** C9.  Whatever the start-up probe of a streamed-HTTP transport does, fail
    or succeed, [connect] leaves the transport connected, and a send on it
    passes the connection check, goes down the [sendHTTP] path and completes
    as [sendHTTP] does on what [fetch] delivers. *)
Theorem probe_failure_still_accepts_sends
    (t : HttpTransport) (setup : Outcome unit) (probe : Outcome HttpResponse)
    (message : Request) :
  config_type t = STREAMABLE_HTTP ->
  let t1 := connect t setup probe in
  isConnected t1 = true /\
  exists t2 message' message_id,
    send_route t1 message = ViaHTTP t2 message' message_id /\
    req_id message' = Some message_id /\
    forall JSON_parse fetched,
      exists rt,
        run JSON_parse (start_runtime t1)
          [CallSend message; FetchSettles 0 fetched] = Some rt /\
        settlements rt = [(0%nat, sendHTTP JSON_parse message' fetched)].
Proof.
  intros Hty t1.
  destruct (connect_connected t setup probe) as [Hc Hty1].
  fold t1 in Hc, Hty1. rewrite Hty in Hty1.
  split; [exact Hc|].
  destruct (send_prepare t1 message) as [[[t2 m'] i]|e] eqn:Hp.
  - pose proof (send_prepare_keeps _ _ _ _ _ Hp) as (_ & _ & Hty2 & Hid).
    rewrite Hty1 in Hty2.
    assert (Hroute : send_route t1 message = ViaHTTP t2 m' i).
    { unfold send_route. rewrite Hp, Hty2. reflexivity. }
    exists t2, m', i. repeat split; [exact Hroute|exact Hid|].
    intros JSON_parse fetched. eexists. split.
    + simpl. rewrite Hroute. simpl. rewrite lookup_insert_eq. simpl.
      rewrite Hty2. reflexivity.
    + reflexivity.
  - exfalso. unfold send_prepare in Hp. rewrite Hc in Hp. simpl in Hp.
    destruct (opt_truthy (req_id message)); discriminate.
Qed.

Lemma probe_failure_witness :
  isConnected (connect http_transport (Return tt) (Throw (AbortError "aborted"))) = true.
Proof.
  apply (probe_failure_still_accepts_sends http_transport (Return tt)
           (Throw (AbortError "aborted")) request_x).
  vm_compute. reflexivity.
Defined.

(** C4 (the code on the failing execution).  After [send] has issued the POST
    of the message with id [x] the call is suspended and the correlation
    table has no entry for [x]; a reply with that id handled before the POST
    settles is emitted as an unsolicited message, the entry is registered only
    afterwards, and the call ends in the timeout error. *)
Theorem reply_before_registration_is_lost :
  exists rt1 rt,
    run json_parse (start_runtime connected_sse) [CallSend request_x] = Some rt1 /\
    in_flight rt1 !! 0%nat = Some (request_x, "x") /\
    pendingRequests (transport rt1) !! "x" = None /\
    run json_parse rt1
      [SseMessage result_text; FetchSettles 0 (Return ok_response); TimerFires 0]
    = Some rt /\
    emitted (transport rt) = [EmConnect; EmMessage result_fragment] /\
    settlements rt = [(0%nat, Throw (Error "SSE request timeout"))].
Proof.
  do 2 eexists. repeat split; vm_compute; reflexivity.
Qed.

(* ===================================================================== *)
(** ** The configuration validator                                     *)
(* ===================================================================== *)

Lemma bind_Return {A B} (m : Outcome A) (k : A -> Outcome B) (b : B) :
  bind m k = Return b -> exists a, m = Return a /\ k a = Return b.
Proof. destruct m as [a|e]; simpl; [eauto|discriminate]. Qed.

Lemma app_nil_inv {A} (l1 l2 : list A) : (l1 ++ l2)%list = [] -> l1 = [] /\ l2 = [].
Proof. destruct l1; simpl; [auto|discriminate]. Qed.

Lemma typeof_string_inv (v : jsval) :
  String.eqb (js_typeof v) "string" = true -> exists s, v = VStr s.
Proof. destruct v; simpl; try discriminate. eauto. Qed.

Lemma typeof_number_inv (v : jsval) :
  String.eqb (js_typeof v) "number" = true -> exists n, v = VNum n.
Proof. destruct v; simpl; try discriminate. eauto. Qed.

Section ValidatorFacts.

Variable URL_parses : jsval -> bool.
Variable coerced_out_of_range : jsval -> Outcome bool.

Lemma validateServer_errors (server : jsval) (index : nat) (errs : list string) :
  validateServer URL_parses server index = Return errs ->
  exists name e2 rest,
    get_prop "name" server = Return name /\
    (if truthy name
     then let* has := name_includes_colon name in
          Return (if has
                  then [server_prefix index
                        +:+ ": Server name cannot contain colons (:)"]
                  else [])
     else Return []) = Return e2 /\
    errs = ((if negb (truthy name) || negb (String.eqb (js_typeof name) "string")
             then [server_prefix index +:+ ": Missing or invalid name"] else [])
            ++ e2 ++ rest)%list.
Proof.
  unfold validateServer. intros H.
  apply bind_Return in H as (name & Hname & H).
  apply bind_Return in H as (e2 & He2 & H).
  apply bind_Return in H as (declared & _ & H).
  apply bind_Return in H as (e3 & _ & H).
  apply bind_Return in H as (e4 & _ & H).
  apply bind_Return in H as (env & _ & H).
  injection H as <-.
  exists name, e2. eexists. split; [exact Hname|]. split; [exact He2|reflexivity].
Qed.

(** A server that draws no error has a non-empty string for name, without
    colon. *)
Lemma validateServer_clean_name (server : jsval) (index : nat) :
  validateServer URL_parses server index = Return [] ->
  exists s, get_prop "name" server = Return (VStr s) /\ valid_server_name s = true.
Proof.
  intros H. apply validateServer_errors in H as (name & e2 & rest & Hname & He2 & Herrs).
  symmetry in Herrs. apply app_nil_inv in Herrs as [H1 H2].
  apply app_nil_inv in H2 as [H2 _]. subst e2.
  destruct (truthy name) eqn:Htruthy; [|discriminate H1]. simpl in H1.
  destruct (String.eqb (js_typeof name) "string") eqn:Hty; [|discriminate H1].
  apply typeof_string_inv in Hty as [s ->].
  exists s. split; [exact Hname|].
  simpl in He2. unfold valid_server_name.
  simpl in Htruthy. unfold str_truthy. rewrite Htruthy. simpl.
  destruct (includes ":" s); [discriminate He2|reflexivity].
Qed.

Lemma validate_servers_lookup (servers : list jsval) :
  forall (index : nat) (errs : list string),
    validate_servers URL_parses index servers = Return errs ->
    forall k server,
      servers !! k = Some server ->
      exists e,
        validateServer URL_parses server (index + k) = Return e /\
        forall msg, msg ∈ e -> msg ∈ errs.
Proof.
  induction servers as [|first rest IH]; intros index errs H k server Hk.
  - discriminate Hk.
  - simpl in H. apply bind_Return in H as (e1 & He1 & H).
    apply bind_Return in H as (e2 & He2 & H). injection H as <-.
    destruct k as [|k]; simpl in Hk.
    + injection Hk as <-. exists e1. rewrite Nat.add_0_r.
      split; [exact He1|]. intros msg Hm. apply elem_of_app. auto.
    + destruct (IH (S index) e2 He2 k server Hk) as (e & He & Hsub).
      exists e. replace (index + S k)%nat with (S index + k)%nat by lia.
      split; [exact He|]. intros msg Hm. apply elem_of_app. auto.
Qed.

Lemma duplicates_from_none (names : list jsval) :
  forall seen,
    duplicates_from seen names = [] ->
    forall i a, names !! i = Some a ->
      (forall b, b ∈ seen -> strict_eq_prim a b = false) /\
      (forall j b, (j < i)%nat -> names !! j = Some b -> strict_eq_prim a b = false).
Proof.
  induction names as [|name rest IH]; intros seen H i a Hi; [discriminate Hi|].
  simpl in H.
  destruct (existsb (strict_eq_prim name) seen) eqn:Hex; [discriminate H|].
  assert (Hseen : forall b, b ∈ seen -> strict_eq_prim name b = false).
  { intros b Hb. destruct (strict_eq_prim name b) eqn:E; [|reflexivity].
    assert (existsb (strict_eq_prim name) seen = true).
    { apply existsb_exists. exists b. split; [apply list_elem_of_In, Hb|exact E]. }
    congruence. }
  destruct i as [|i]; simpl in Hi.
  - injection Hi as <-. split; [exact Hseen|]. intros j b Hj. lia.
  - destruct (IH _ H i a Hi) as [Hs Hj]. split.
    + intros b Hb. apply Hs. apply elem_of_app. auto.
    + intros [|j] b Hlt Hb; simpl in Hb.
      * injection Hb as <-. apply Hs. apply elem_of_app. right. left.
      * apply (Hj j b); [lia|exact Hb].
Qed.

Lemma map_outcome_lookup {A B} (f : A -> Outcome B) (l : list A) :
  forall ys, map_outcome f l = Return ys ->
    forall i x, l !! i = Some x -> exists y, f x = Return y /\ ys !! i = Some y.
Proof.
  induction l as [|x0 l IH]; intros ys H i x Hi; [discriminate Hi|].
  simpl in H. apply bind_Return in H as (y0 & Hy0 & H).
  apply bind_Return in H as (ys0 & Hys0 & H). injection H as <-.
  destruct i as [|i]; simpl in Hi.
  - injection Hi as <-. exists y0. auto.
  - apply (IH ys0 Hys0 i x Hi).
Qed.

(** What an accepted configuration is made of. *)
Lemma validate_accepts_inv (config : jsval) (r : ValidationResult) :
  validate URL_parses coerced_out_of_range config = Return r ->
  isValid r = true ->
  exists proxy port items names,
    get_prop "proxy" config = Return proxy /\
    get_prop "port" proxy = Return (VNum port) /\
    1 <= port <= 65535 /\
    get_prop "servers" config = Return (VArr items) /\
    validate_servers URL_parses 0 items = Return [] /\
    map_outcome (get_prop "name") items = Return names /\
    duplicates_from [] names = [].
Proof.
  unfold validate. intros H Hvalid.
  apply bind_Return in H as (proxy & Hproxy & H).
  apply bind_Return in H as (e1 & He1 & H).
  apply bind_Return in H as (servers & Hservers & H).
  apply bind_Return in H as (e2 & He2 & H).
  apply bind_Return in H as (e3 & He3 & H).
  injection H as <-. simpl in Hvalid.
  destruct (e1 ++ e2 ++ e3)%list eqn:Herrs; [|discriminate Hvalid].
  apply app_nil_inv in Herrs as [-> Herrs].
  apply app_nil_inv in Herrs as [-> ->].
  destruct (truthy proxy) eqn:Hp; [|discriminate He1]. simpl in He1.
  apply bind_Return in He1 as (port & Hport & He1).
  apply bind_Return in He1 as (out & Hout & He1).
  injection He1 as He1. apply app_nil_inv in He1 as [Ha Hb].
  destruct (truthy port) eqn:Htp; [|discriminate Ha]. simpl in Ha.
  destruct (String.eqb (js_typeof port) "number") eqn:Hty; [|discriminate Ha].
  apply typeof_number_inv in Hty as [n ->].
  injection Hout as Hout. destruct out; [discriminate Hb|].
  apply orb_false_iff in Hout as [Hlo Hhi].
  destruct servers as [| | | | |items|fields]; try discriminate He2.
  simpl in He3. apply bind_Return in He3 as (names & Hnames & He3).
  destruct (duplicates_from [] names) eqn:Hdup.
  - exists proxy, n, items, names. repeat split; auto; lia.
  - apply bind_Return in He3 as (listed & _ & He3). discriminate He3.
Qed.

(** X2.  In a configuration that [validate] accepts, [servers] is an array
    and every server of it is named by a string that is not empty and holds
    no colon: the names the router can split a tool name at. *)
Theorem validate_accepts_only_routable_names (config : jsval) (r : ValidationResult) :
  validate URL_parses coerced_out_of_range config = Return r ->
  isValid r = true ->
  exists items,
    get_prop "servers" config = Return (VArr items) /\
    forall i server,
      items !! i = Some server ->
      exists s, get_prop "name" server = Return (VStr s)
                /\ valid_server_name s = true.
Proof.
  intros H Hvalid.
  destruct (validate_accepts_inv config r H Hvalid)
    as (proxy & port & items & names & _ & _ & _ & Hservers & Hclean & _ & _).
  exists items. split; [exact Hservers|].
  intros i server Hi.
  destruct (validate_servers_lookup items 0 [] Hclean i server Hi) as (e & He & Hsub).
  destruct e as [|msg e].
  - apply (validateServer_clean_name server (0 + i) He).
  - exfalso. specialize (Hsub msg). apply elem_of_nil in Hsub; [contradiction|left].
Qed.

(** X3.  In a configuration that [validate] accepts no two servers carry the
    same name. *)
Theorem validate_accepts_only_distinct_names (config : jsval) (r : ValidationResult) :
  validate URL_parses coerced_out_of_range config = Return r ->
  isValid r = true ->
  exists items,
    get_prop "servers" config = Return (VArr items) /\
    forall i j a b s,
      i <> j ->
      items !! i = Some a -> items !! j = Some b ->
      get_prop "name" a = Return (VStr s) ->
      get_prop "name" b <> Return (VStr s).
Proof.
  intros H Hvalid.
  destruct (validate_accepts_inv config r H Hvalid)
    as (proxy & port & items & names & _ & _ & _ & Hservers & _ & Hnames & Hdup).
  exists items. split; [exact Hservers|].
  assert (Hlt : forall i j a b s, (i < j)%nat ->
            items !! i = Some a -> items !! j = Some b ->
            get_prop "name" a = Return (VStr s) ->
            get_prop "name" b <> Return (VStr s)).
  { intros i j a b s Hij Ha Hb Hna Hnb.
    destruct (map_outcome_lookup _ _ _ Hnames i a Ha) as (ya & Hya & Hia).
    destruct (map_outcome_lookup _ _ _ Hnames j b Hb) as (yb & Hyb & Hjb).
    rewrite Hna in Hya. injection Hya as <-.
    rewrite Hnb in Hyb. injection Hyb as <-.
    destruct (duplicates_from_none names [] Hdup j (VStr s) Hjb) as [_ Hearlier].
    specialize (Hearlier i (VStr s) Hij Hia). simpl in Hearlier.
    rewrite String.eqb_refl in Hearlier. discriminate. }
  intros i j a b s Hij Ha Hb Hna Hnb.
  destruct (Nat.lt_total i j) as [Hl|[He|Hg]]; [|contradiction|].
  - apply (Hlt i j a b s Hl Ha Hb Hna Hnb).
  - apply (Hlt j i b a s Hg Hb Ha Hnb Hna).
Qed.

(** X4.  In a configuration that [validate] accepts the proxy port is a
    number between 1 and 65535. *)
Theorem validate_accepts_only_ports_in_range (config : jsval) (r : ValidationResult) :
  validate URL_parses coerced_out_of_range config = Return r ->
  isValid r = true ->
  exists proxy port,
    get_prop "proxy" config = Return proxy /\
    get_prop "port" proxy = Return (VNum port) /\
    1 <= port <= 65535.
Proof.
  intros H Hvalid.
  destruct (validate_accepts_inv config r H Hvalid)
    as (proxy & port & items & names & Hproxy & Hport & Hrange & _).
  exists proxy, port. auto.
Qed.

Lemma validate_parts (config : jsval) (r : ValidationResult) :
  validate URL_parses coerced_out_of_range config = Return r ->
  exists e1 servers e2 e3,
    get_prop "servers" config = Return servers /\
    match servers with
    | VArr items => validate_servers URL_parses 0 items
    | _ => Return ["Missing or invalid servers configuration"]
    end = Return e2 /\
    (if truthy servers
     then match servers with
          | VArr items =>
              let* names := map_outcome (get_prop "name") items in
              match duplicates_from [] names with
              | [] => Return []
              | duplicates =>
                  let* listed := join_text ", " duplicates in
                  Return ["Duplicate server names found: " +:+ listed]
              end
          | _ => Throw (TypeError "config.servers.map is not a function")
          end
     else Return []) = Return e3 /\
    errors r = (e1 ++ e2 ++ e3)%list /\
    isValid r = match (e1 ++ e2 ++ e3)%list with [] => true | _ => false end.
Proof.
  unfold validate. intros H.
  apply bind_Return in H as (proxy & Hproxy & H).
  apply bind_Return in H as (e1 & He1 & H).
  apply bind_Return in H as (servers & Hservers & H).
  apply bind_Return in H as (e2 & He2 & H).
  apply bind_Return in H as (e3 & He3 & H).
  injection H as <-. exists e1, servers, e2, e3. auto.
Qed.

Lemma invalid_when_error (r : ValidationResult) (e1 e2 e3 : list string) (msg : string) :
  errors r = (e1 ++ e2 ++ e3)%list ->
  isValid r = match (e1 ++ e2 ++ e3)%list with [] => true | _ => false end ->
  msg ∈ (e2 ++ e3)%list ->
  isValid r = false /\ msg ∈ errors r.
Proof.
  intros He Hv Hm. rewrite He, Hv.
  assert (Hin : msg ∈ (e1 ++ e2 ++ e3)%list) by (apply elem_of_app; auto).
  split; [|exact Hin].
  destruct (e1 ++ e2 ++ e3)%list; [|reflexivity].
  apply elem_of_nil in Hin. contradiction.
Qed.

(** X5.  When the name of the server at index [i] is a string with a colon in
    it, [validate], if it returns, rejects the configuration, with the error
    about colons for [servers[i]] among its errors. *)
Theorem validate_rejects_colon_in_name
    (config : jsval) (items : list jsval) (i : nat) (server : jsval)
    (s : string) (r : ValidationResult) :
  get_prop "servers" config = Return (VArr items) ->
  items !! i = Some server ->
  get_prop "name" server = Return (VStr s) ->
  includes ":" s = true ->
  validate URL_parses coerced_out_of_range config = Return r ->
  isValid r = false /\
  (server_prefix i +:+ ": Server name cannot contain colons (:)") ∈ errors r.
Proof.
  intros Hservers Hi Hname Hcolon H.
  apply validate_parts in H as (e1 & servers & e2 & e3 & Hs & He2 & _ & He & Hv).
  rewrite Hservers in Hs. injection Hs as <-.
  destruct (validate_servers_lookup items 0 e2 He2 i server Hi) as (e & Hsrv & Hsub).
  apply validateServer_errors in Hsrv
    as (name & c & rest & Hn & Hc & ->).
  rewrite Hname in Hn. injection Hn as <-.
  assert (Htruthy : truthy (VStr s) = true).
  { simpl. destruct s; [discriminate Hcolon|reflexivity]. }
  rewrite Htruthy in Hc. simpl in Hc. rewrite Hcolon in Hc. injection Hc as <-.
  apply (invalid_when_error r e1 e2 e3 _ He Hv).
  apply elem_of_app. left. apply Hsub.
  apply elem_of_app. right. apply elem_of_app. left. left.
Qed.

Lemma duplicates_from_seen (names : list jsval) :
  forall seen k a b,
    a ∈ seen -> names !! k = Some b -> strict_eq_prim b a = true ->
    duplicates_from seen names <> [].
Proof.
  induction names as [|name rest IH]; intros seen k a b Ha Hk Heq; [discriminate Hk|].
  simpl. destruct k as [|k]; simpl in Hk.
  - injection Hk as <-.
    replace (existsb (strict_eq_prim name) seen) with true; [discriminate|].
    symmetry. apply existsb_exists. exists a.
    split; [apply list_elem_of_In, Ha|exact Heq].
  - assert (Hrest : duplicates_from (seen ++ [name]) rest <> []).
    { apply (IH _ k a b); [apply elem_of_app; auto|exact Hk|exact Heq]. }
    destruct (existsb (strict_eq_prim name) seen); [discriminate|exact Hrest].
Qed.

Lemma duplicates_from_found (names : list jsval) :
  forall seen i j a b,
    (i < j)%nat -> names !! i = Some a -> names !! j = Some b ->
    strict_eq_prim b a = true ->
    duplicates_from seen names <> [].
Proof.
  induction names as [|name rest IH]; intros seen i j a b Hij Hi Hj Heq;
    [discriminate Hi|].
  destruct j as [|j]; [lia|]. simpl in Hj.
  assert (Hrest : duplicates_from (seen ++ [name]) rest <> []).
  { destruct i as [|i]; simpl in Hi.
    - injection Hi as <-.
      apply (duplicates_from_seen rest _ j name b); [|exact Hj|exact Heq].
      apply elem_of_app. right. left.
    - apply (IH _ i j a b); [lia|exact Hi|exact Hj|exact Heq]. }
  simpl. destruct (existsb (strict_eq_prim name) seen); [discriminate|exact Hrest].
Qed.

(** X6.  When two servers carry the same name, [validate], if it returns,
    rejects the configuration, with an error listing duplicate names among
    its errors. *)
Theorem validate_rejects_duplicate_names
    (config : jsval) (items : list jsval) (i j : nat) (a b : jsval)
    (s : string) (r : ValidationResult) :
  get_prop "servers" config = Return (VArr items) ->
  i <> j ->
  items !! i = Some a -> items !! j = Some b ->
  get_prop "name" a = Return (VStr s) ->
  get_prop "name" b = Return (VStr s) ->
  validate URL_parses coerced_out_of_range config = Return r ->
  isValid r = false /\
  exists listed, ("Duplicate server names found: " +:+ listed) ∈ errors r.
Proof.
  intros Hservers Hij Ha Hb Hna Hnb H.
  apply validate_parts in H as (e1 & servers & e2 & e3 & Hs & _ & He3 & He & Hv).
  rewrite Hservers in Hs. injection Hs as <-. simpl in He3.
  apply bind_Return in He3 as (names & Hnames & He3).
  destruct (map_outcome_lookup _ _ _ Hnames i a Ha) as (ya & Hya & Hia).
  destruct (map_outcome_lookup _ _ _ Hnames j b Hb) as (yb & Hyb & Hjb).
  rewrite Hna in Hya. injection Hya as <-.
  rewrite Hnb in Hyb. injection Hyb as <-.
  assert (Hdup : duplicates_from [] names <> []).
  { assert (Heq : strict_eq_prim (VStr s) (VStr s) = true)
      by (simpl; apply String.eqb_refl).
    destruct (Nat.lt_total i j) as [Hl|[Hq|Hg]]; [|contradiction|].
    - apply (duplicates_from_found names [] i j _ _ Hl Hia Hjb Heq).
    - apply (duplicates_from_found names [] j i _ _ Hg Hjb Hia Heq). }
  destruct (duplicates_from [] names) as [|d ds]; [contradiction|].
  apply bind_Return in He3 as (listed & _ & He3). injection He3 as <-.
  assert (Hmsg : ("Duplicate server names found: " +:+ listed)
                 ∈ (e2 ++ ["Duplicate server names found: " +:+ listed])%list).
  { apply elem_of_app. right. left. }
  destruct (invalid_when_error r e1 e2 _ _ He Hv Hmsg) as [Hinv Hin].
  split; [exact Hinv|]. exists listed. exact Hin.
Qed.

(** X7.  With a numeric proxy port and a [servers] that is truthy but no array
    (a string, a number, an object), [validate] does not return a verdict:
    the duplicate check calls [map] on it and the TypeError escapes. *)
Theorem validate_throws_on_servers_not_array
    (config proxy servers : jsval) (port : Z) :
  get_prop "proxy" config = Return proxy ->
  get_prop "port" proxy = Return (VNum port) ->
  get_prop "servers" config = Return servers ->
  truthy servers = true ->
  is_array servers = false ->
  validate URL_parses coerced_out_of_range config =
    Throw (TypeError "config.servers.map is not a function").
Proof.
  intros Hproxy Hport Hservers Htruthy Harr.
  unfold validate. rewrite Hproxy. simpl.
  destruct (truthy proxy); simpl; rewrite ?Hport; simpl; rewrite Hservers; simpl;
    rewrite Htruthy; destruct servers; try discriminate; reflexivity.
Qed.

Lemma duplicates_from_distinct (names : list jsval) :
  forall seen,
    (forall i a b, names !! i = Some a -> b ∈ seen -> strict_eq_prim a b = false) ->
    (forall i j a b, (i < j)%nat -> names !! i = Some a -> names !! j = Some b ->
                     strict_eq_prim b a = false) ->
    duplicates_from seen names = [].
Proof.
  induction names as [|name rest IH]; intros seen Hseen Hpair; [reflexivity|].
  simpl.
  replace (existsb (strict_eq_prim name) seen) with false.
  - apply IH.
    + intros i a b Ha Hb. apply elem_of_app in Hb as [Hb|Hb].
      * apply (Hseen (S i) a b Ha Hb).
      * apply list_elem_of_singleton in Hb. subst b.
        apply (Hpair 0%nat (S i) name a); [lia|reflexivity|exact Ha].
    + intros i j a b Hij Ha Hb.
      apply (Hpair (S i) (S j) a b); [lia|exact Ha|exact Hb].
  - symmetry. apply not_true_is_false. intros Hex.
    apply existsb_exists in Hex as (b & Hb & Heq).
    rewrite (Hseen 0%nat name b eq_refl) in Heq; [discriminate|].
    apply list_elem_of_In, Hb.
Qed.

Lemma validateServer_ok (server : jsval) (index : nat) :
  server_ok URL_parses server ->
  validateServer URL_parses server index = Return [].
Proof.
  intros (s & declared & env & Hname & Hvalid & Htype & Hkind & Henv & Henv_ok).
  apply valid_server_name_inv in Hvalid as [Hs Hcolon].
  unfold str_truthy in Hs.
  unfold validateServer. rewrite Hname. simpl. rewrite Hs. simpl.
  rewrite Hcolon. simpl. rewrite Htype. simpl.
  assert (Henv_clean :
            (if truthy env && negb (String.eqb (js_typeof env) "object")
             then [server_prefix index +:+ ": env must be an object"]
             else []) = []).
  { destruct Henv_ok as [->| ->]; [reflexivity|]. simpl.
    rewrite andb_false_r. reflexivity. }
  destruct Hkind as [[Hstdio (command & args & Hc & Hne & Ha & Hargs)]
                    |[Hhttp (u & Hu & Hne & Hparse)]].
  - rewrite Hstdio. simpl. rewrite Hc, Ha. simpl.
    destruct (String.eqb_spec command ""); [contradiction|]. simpl.
    rewrite Henv. simpl. rewrite Henv_clean, app_nil_r.
    destruct Hargs as [-> | ->]; [reflexivity|].
    rewrite andb_false_r. reflexivity.
  - destruct Hhttp as [-> | ->]; simpl; rewrite Hu; simpl;
      (destruct (String.eqb_spec u ""); [contradiction|]); simpl;
      rewrite Hparse, Henv; simpl; rewrite Henv_clean; reflexivity.
Qed.

Lemma validate_servers_ok (servers : list jsval) :
  forall index,
    (forall i server, servers !! i = Some server -> server_ok URL_parses server) ->
    validate_servers URL_parses index servers = Return [].
Proof.
  induction servers as [|server rest IH]; intros index Hok; [reflexivity|].
  simpl. rewrite (validateServer_ok server index (Hok 0%nat server eq_refl)).
  simpl. rewrite IH; [reflexivity|].
  intros i srv Hi. apply (Hok (S i) srv Hi).
Qed.

Lemma map_outcome_names (URL : jsval -> bool) (servers : list jsval) :
  (forall i server, servers !! i = Some server -> server_ok URL server) ->
  exists names,
    map_outcome (get_prop "name") servers = Return names /\
    forall i name, names !! i = Some name ->
      exists server, servers !! i = Some server
                     /\ get_prop "name" server = Return name.
Proof.
  induction servers as [|server rest IH]; intros Hok.
  - exists []. split; [reflexivity|]. intros i name Hi. discriminate Hi.
  - destruct (Hok 0%nat server eq_refl) as (s & _ & _ & Hname & _).
    destruct IH as (names & Hnames & Hback).
    { intros i srv Hi. apply (Hok (S i) srv Hi). }
    exists (VStr s :: names). simpl. rewrite Hname. simpl. rewrite Hnames.
    split; [reflexivity|].
    intros [|i] name Hi; simpl in Hi.
    + injection Hi as <-. exists server. auto.
    + apply (Hback i name Hi).
Qed.

(** X1.  A configuration with a proxy port between 1 and 65535 and an array
    of servers, each of them well formed ([server_ok]) and no two of them
    under the same name, is accepted: [validate] returns, with no error. *)
Theorem validate_accepts_well_formed
    (config proxy : jsval) (port : Z) (items : list jsval) :
  get_prop "proxy" config = Return proxy ->
  get_prop "port" proxy = Return (VNum port) ->
  1 <= port <= 65535 ->
  get_prop "servers" config = Return (VArr items) ->
  (forall i server, items !! i = Some server -> server_ok URL_parses server) ->
  (forall i j a b s,
      i <> j -> items !! i = Some a -> items !! j = Some b ->
      get_prop "name" a = Return (VStr s) ->
      get_prop "name" b <> Return (VStr s)) ->
  validate URL_parses coerced_out_of_range config =
    Return (mkValidationResult true []).
Proof.
  intros Hproxy Hport Hrange Hservers Hok Hdistinct.
  assert (Hp : truthy proxy = true).
  { destruct proxy; try discriminate Hport; reflexivity. }
  destruct (map_outcome_names URL_parses items Hok) as (names & Hnames & Hback).
  assert (Hdup : duplicates_from [] names = []).
  { apply duplicates_from_distinct.
    - intros i a b _ Hb. apply elem_of_nil in Hb. contradiction.
    - intros i j a b Hij Ha Hb.
      destruct (Hback i a Ha) as (sa & Hsa & Hna).
      destruct (Hback j b Hb) as (sb & Hsb & Hnb).
      destruct (Hok j sb Hsb) as (s & _ & _ & Hname & _).
      rewrite Hname in Hnb. injection Hnb as <-.
      destruct a; try reflexivity. simpl.
      destruct (String.eqb_spec s s0) as [<-|]; [|reflexivity].
      exfalso. apply (Hdistinct j i sb sa s); [lia|assumption..]. }
  unfold validate. rewrite Hproxy. simpl. rewrite Hp. simpl. rewrite Hport. simpl.
  replace (port <? 1) with false by (symmetry; apply Z.ltb_ge; lia).
  replace (port >? 65535) with false
    by (symmetry; rewrite Z.gtb_ltb; apply Z.ltb_ge; lia).
  replace (port =? 0) with false by (symmetry; apply Z.eqb_neq; lia).
  simpl. rewrite Hservers. simpl.
  rewrite (validate_servers_ok items 0 Hok). simpl.
  rewrite Hnames. simpl. rewrite Hdup. reflexivity.
Qed.

End ValidatorFacts.

Lemma validate_routable_names_witness :
  exists items,
    get_prop "servers" valid_config = Return (VArr items) /\
    forall i server,
      items !! i = Some server ->
      exists s, get_prop "name" server = Return (VStr s)
                /\ valid_server_name s = true.
Proof.
  apply (validate_accepts_only_routable_names url_with_scheme coerced_in_range
           valid_config (mkValidationResult true [])).
  - vm_compute. reflexivity.
  - reflexivity.
Defined.

Lemma validate_distinct_names_witness :
  exists items,
    get_prop "servers" valid_config = Return (VArr items) /\
    forall i j a b s,
      i <> j ->
      items !! i = Some a -> items !! j = Some b ->
      get_prop "name" a = Return (VStr s) ->
      get_prop "name" b <> Return (VStr s).
Proof.
  apply (validate_accepts_only_distinct_names url_with_scheme coerced_in_range
           valid_config (mkValidationResult true [])).
  - vm_compute. reflexivity.
  - reflexivity.
Defined.

Lemma validate_ports_witness :
  exists proxy port,
    get_prop "proxy" valid_config = Return proxy /\
    get_prop "port" proxy = Return (VNum port) /\
    1 <= port <= 65535.
Proof.
  apply (validate_accepts_only_ports_in_range url_with_scheme coerced_in_range
           valid_config (mkValidationResult true [])).
  - vm_compute. reflexivity.
  - reflexivity.
Defined.

Lemma validate_colon_witness :
  isValid (mkValidationResult false
             ["servers[0]: Server name cannot contain colons (:)"]) = false /\
  (server_prefix 0 +:+ ": Server name cannot contain colons (:)")
    ∈ errors (mkValidationResult false
                ["servers[0]: Server name cannot contain colons (:)"]).
Proof.
  apply (validate_rejects_colon_in_name url_with_scheme coerced_in_range
           colon_config [stdio_entry "test:server"] 0
           (stdio_entry "test:server") "test:server").
  - vm_compute. reflexivity.
  - reflexivity.
  - vm_compute. reflexivity.
  - vm_compute. reflexivity.
  - vm_compute. reflexivity.
Defined.

Lemma validate_duplicate_witness :
  isValid (mkValidationResult false
             ["Duplicate server names found: duplicate"]) = false /\
  exists listed,
    ("Duplicate server names found: " +:+ listed)
      ∈ errors (mkValidationResult false
                  ["Duplicate server names found: duplicate"]).
Proof.
  apply (validate_rejects_duplicate_names url_with_scheme coerced_in_range
           duplicate_config [stdio_entry "duplicate"; stdio_entry "duplicate"]
           0 1 (stdio_entry "duplicate") (stdio_entry "duplicate") "duplicate").
  - vm_compute. reflexivity.
  - lia.
  - reflexivity.
  - reflexivity.
  - vm_compute. reflexivity.
  - vm_compute. reflexivity.
  - vm_compute. reflexivity.
Defined.

Lemma validate_throws_witness :
  validate url_with_scheme coerced_in_range scalar_servers_config =
    Throw (TypeError "config.servers.map is not a function").
Proof.
  apply (validate_throws_on_servers_not_array url_with_scheme coerced_in_range
           scalar_servers_config (VObj [("port", VNum 8080)]) (VStr "none") 8080).
  - vm_compute. reflexivity.
  - vm_compute. reflexivity.
  - vm_compute. reflexivity.
  - reflexivity.
  - reflexivity.
Defined.

Lemma validate_well_formed_witness :
  validate url_with_scheme coerced_in_range valid_config =
    Return (mkValidationResult true []).
Proof.
  apply (validate_accepts_well_formed url_with_scheme coerced_in_range
           valid_config (VObj [("port", VNum 8080)]) 8080
           [stdio_entry "test-server"; sse_entry "remote"]).
  - vm_compute. reflexivity.
  - vm_compute. reflexivity.
  - lia.
  - vm_compute. reflexivity.
  - intros i server Hi.
    destruct i as [|[|i]]; simpl in Hi; [| |discriminate Hi];
      injection Hi as <-.
    + exists "test-server", VUndefined, VUndefined.
      repeat split; try (vm_compute; reflexivity).
      * left. split; [vm_compute; reflexivity|].
        exists "node", (VArr [VStr "server.js"]).
        repeat split; try (vm_compute; reflexivity).
        -- discriminate.
        -- right. reflexivity.
      * left. reflexivity.
    + exists "remote", (VStr "SSE"), VUndefined.
      repeat split; try (vm_compute; reflexivity).
      * right. split; [left; reflexivity|].
        exists "https://backend.example/sse".
        repeat split; try (vm_compute; reflexivity). discriminate.
      * left. reflexivity.
  - intros i j a b s Hij Hi Hj Ha Hb.
    destruct i as [|[|i]], j as [|[|j]]; simpl in Hi, Hj;
      try discriminate Hi; try discriminate Hj; try (exfalso; apply Hij; reflexivity);
      injection Hi as <-; injection Hj as <-;
      vm_compute in Ha; vm_compute in Hb; congruence.
Defined.

(* ===================================================================== *)
(** ** Environment variables in the configuration                      *)
(* ===================================================================== *)

Lemma before_after_sep (sep : ascii) (s rest : string) :
  after_sep sep s = Some rest ->
  s = before_sep sep s +:+ String sep rest.
Proof.
  induction s as [|c s IH]; [discriminate|].
  simpl. destruct (Ascii.eqb_spec c sep) as [->|Hne].
  - intros H. injection H as <-. reflexivity.
  - intros H. rewrite str_app_cons. f_equal. apply IH, H.
Qed.

Lemma after_sep_shorter (sep : ascii) (s rest : string) :
  after_sep sep s = Some rest -> (String.length rest < String.length s)%nat.
Proof.
  revert rest. induction s as [|c s IH]; intros rest; [discriminate|].
  simpl. destruct (Ascii.eqb c sep).
  - intros H. injection H as <-. lia.
  - intros H. specialize (IH rest H). lia.
Qed.

Lemma placeholder_rebuild (body after : string) :
  after_sep close_brace body = Some after ->
  placeholder (before_sep close_brace body) +:+ after
  = String dollar (String open_brace body).
Proof.
  intros H. pose proof (before_after_sep close_brace body after H) as Hbody.
  unfold placeholder.
  remember (before_sep close_brace body) as name eqn:Hname.
  rewrite Hbody. rewrite !str_app_assoc. reflexivity.
Qed.

Lemma prefix_app (a b : string) : String.prefix a (a +:+ b) = true.
Proof.
  induction a as [|c a IH]; [destruct b; reflexivity|].
  rewrite str_app_cons. simpl. destruct (ascii_dec c c); [exact IH|congruence].
Qed.

Lemma includes_unfold (needle s : string) :
  includes needle s =
  if String.prefix needle s then true
  else match s with
       | EmptyString => false
       | String _ rest => includes needle rest
       end.
Proof. destruct s; reflexivity. Qed.

Lemma includes_app_l (needle rest : string) :
  includes needle (needle +:+ rest) = true.
Proof. rewrite includes_unfold, prefix_app. reflexivity. Qed.

Lemma includes_tail (needle : string) (c : ascii) (s : string) :
  includes needle (String c s) = false -> includes needle s = false.
Proof.
  rewrite includes_unfold.
  destruct (String.prefix needle (String c s)); [discriminate|auto].
Qed.

Lemma includes_suffix (needle front s : string) :
  includes needle (front +:+ s) = false -> includes needle s = false.
Proof.
  induction front as [|c front IH]; [auto|].
  rewrite str_app_cons. intros H. apply IH, (includes_tail _ c), H.
Qed.

(** Where every variable is empty and no placeholder of the text names an
    inherited member, the scan changes nothing. *)
Lemma replace_placeholders_unset (env : string -> EnvValue) (fuel : nat) :
  (forall name value, env name = EnvVariable value -> value = "") ->
  forall text : string,
    (forall name member,
        env name = EnvInherited member ->
        includes (placeholder name) text = false) ->
    replace_placeholders fuel env text = text.
Proof.
  intros Hvars.
  induction fuel as [|fuel IH]; intros text Hmembers; [reflexivity|].
  destruct text as [|c rest]; [reflexivity|]. simpl.
  assert (Hrest : replace_placeholders fuel env rest = rest).
  { apply IH. intros name member E.
    apply (includes_tail _ c), (Hmembers name member E). }
  rewrite Hrest.
  destruct (Ascii.eqb_spec c dollar) as [->|_]; [|reflexivity].
  destruct rest as [|b body]; [reflexivity|].
  destruct (Ascii.eqb_spec b open_brace) as [->|_]; [|reflexivity].
  destruct (after_sep close_brace body) as [after|] eqn:Hafter; [|reflexivity].
  destruct (str_truthy (before_sep close_brace body)); [|reflexivity].
  pose proof (placeholder_rebuild body after Hafter) as Hbuild.
  assert (Hafter' : replace_placeholders fuel env after = after).
  { apply IH. intros name member E.
    apply (includes_suffix _ (placeholder (before_sep close_brace body))).
    rewrite Hbuild. exact (Hmembers name member E). }
  rewrite Hafter'.
  assert (Hvalue : placeholder_value env (before_sep close_brace body)
                   = placeholder (before_sep close_brace body)).
  { unfold placeholder_value.
    destruct (env (before_sep close_brace body)) as [|value|member] eqn:E.
    - reflexivity.
    - rewrite (Hvars _ _ E). reflexivity.
    - specialize (Hmembers _ _ E). rewrite <- Hbuild, includes_app_l in Hmembers.
      discriminate Hmembers. }
  rewrite Hvalue. exact Hbuild.
Qed.

(** X8.  When every variable of the environment is empty and no placeholder
    of the text names a member that [process.env] inherits, the text comes
    out of the replacement as it went in, whatever placeholders it holds. *)
Theorem expand_text_without_variables (env : string -> EnvValue) (text : string) :
  (forall name value, env name = EnvVariable value -> value = "") ->
  (forall name member,
      env name = EnvInherited member ->
      includes (placeholder name) text = false) ->
  expand_text env text = text.
Proof.
  intros Hvars Hmembers. unfold expand_text.
  apply replace_placeholders_unset; assumption.
Qed.

Lemma replace_placeholders_fuel (fuel1 : nat) :
  forall (fuel2 : nat) (env : string -> EnvValue) (text : string),
    (String.length text <= fuel1)%nat ->
    (String.length text <= fuel2)%nat ->
    replace_placeholders fuel1 env text = replace_placeholders fuel2 env text.
Proof.
  induction fuel1 as [|fuel1 IH]; intros fuel2 env text H1 H2.
  - destruct text; [|simpl in H1; lia]. destruct fuel2; reflexivity.
  - destruct text as [|c rest]; [destruct fuel2; reflexivity|].
    destruct fuel2 as [|fuel2]; [simpl in H2; lia|].
    simpl in H1, H2. simpl.
    rewrite (IH fuel2 env rest) by lia.
    destruct (Ascii.eqb c dollar); [|reflexivity].
    destruct rest as [|b body]; [reflexivity|].
    destruct (Ascii.eqb b open_brace); [|reflexivity].
    destruct (after_sep close_brace body) as [after|] eqn:Hafter; [|reflexivity].
    destruct (str_truthy (before_sep close_brace body)); [|reflexivity].
    apply after_sep_shorter in Hafter. simpl in H1, H2.
    rewrite (IH fuel2 env after) by lia. reflexivity.
Qed.

Lemma str_length_app (a b : string) :
  String.length (a +:+ b) = (String.length a + String.length b)%nat.
Proof.
  induction a as [|c a IH]; [reflexivity|].
  rewrite str_app_cons. simpl. rewrite IH. reflexivity.
Qed.

(** Text free of [$] passes unchanged and the scan resumes behind it. *)
Lemma expand_text_plain_prefix (env : string -> EnvValue)
    (plain rest : string) :
  includes "$" plain = false ->
  expand_text env (plain +:+ rest) = plain +:+ expand_text env rest.
Proof.
  unfold expand_text. induction plain as [|c plain IH]; intros Hplain.
  - reflexivity.
  - rewrite (includes_char_cons dollar) in Hplain.
    apply orb_false_iff in Hplain as [Hc Hplain].
    rewrite str_app_cons. simpl. rewrite Hc, (IH Hplain). reflexivity.
Qed.

Lemma replace_placeholders_at_brace (fuel : nat) (env : string -> EnvValue)
    (body : string) :
  replace_placeholders (S fuel) env (String dollar (String open_brace body)) =
  match after_sep close_brace body with
  | Some after =>
      if str_truthy (before_sep close_brace body)
      then placeholder_value env (before_sep close_brace body)
           +:+ replace_placeholders fuel env after
      else String dollar (replace_placeholders fuel env (String open_brace body))
  | None => String dollar (replace_placeholders fuel env (String open_brace body))
  end.
Proof. reflexivity. Qed.

(** A placeholder at the head of the text is replaced by what the callback
    returns for it, and the scan goes on after its closing brace. *)
Lemma expand_text_placeholder (env : string -> EnvValue)
    (name rest : string) :
  name <> "" ->
  includes "}" name = false ->
  expand_text env (placeholder name +:+ rest)
  = placeholder_value env name +:+ expand_text env rest.
Proof.
  intros Hname Hclose. unfold expand_text.
  replace (placeholder name +:+ rest)
    with (String dollar (String open_brace (name +:+ String close_brace rest)))
    by (unfold placeholder; rewrite !str_app_assoc; reflexivity).
  cbn [String.length]. rewrite replace_placeholders_at_brace.
  rewrite (after_sep_app close_brace) by exact Hclose.
  rewrite (before_sep_app close_brace) by exact Hclose.
  rewrite (str_truthy_true _ Hname). f_equal.
  apply replace_placeholders_fuel; rewrite ?str_length_app; simpl; lia.
Qed.

(** X9.  The first placeholder of a text, after a piece without dollar sign,
    is replaced by the value of its variable when that is set and not empty;
    the piece before it is kept and the replacement goes on after the closing
    brace, so the value itself is not expanded again. *)
Theorem expand_text_replaces_placeholder
    (env : string -> EnvValue) (plain name value rest : string) :
  includes "$" plain = false ->
  name <> "" ->
  includes "}" name = false ->
  env name = EnvVariable value ->
  value <> "" ->
  expand_text env (plain +:+ "${" +:+ name +:+ "}" +:+ rest)
  = plain +:+ value +:+ expand_text env rest.
Proof.
  intros Hplain Hname Hclose Henv Hvalue.
  replace (plain +:+ "${" +:+ name +:+ "}" +:+ rest)
    with (plain +:+ placeholder name +:+ rest)
    by (unfold placeholder; rewrite !str_app_assoc; reflexivity).
  rewrite expand_text_plain_prefix by exact Hplain.
  rewrite expand_text_placeholder by assumption.
  unfold placeholder_value. rewrite Henv, (str_truthy_true _ Hvalue). reflexivity.
Qed.

(** X10.  A placeholder for which [process.env] has nothing, neither a
    variable nor an inherited member, or has a variable that is empty, stays
    in the text as it is written, and the replacement goes on after it. *)
Theorem expand_text_keeps_unset_placeholder
    (env : string -> EnvValue) (plain name rest : string) :
  includes "$" plain = false ->
  name <> "" ->
  includes "}" name = false ->
  env name = EnvUnset \/ env name = EnvVariable "" ->
  expand_text env (plain +:+ placeholder name +:+ rest)
  = plain +:+ placeholder name +:+ expand_text env rest.
Proof.
  intros Hplain Hname Hclose Henv.
  rewrite expand_text_plain_prefix by exact Hplain.
  rewrite expand_text_placeholder by assumption.
  unfold placeholder_value. destruct Henv as [-> | ->]; reflexivity.
Qed.

(** X29.  A placeholder that names no variable but a member [process.env]
    inherits, such as [constructor], is replaced by the text of that member:
    the lookup of the callback is not limited to the variables that are
    set. *)
Theorem expand_text_replaces_inherited_member
    (env : string -> EnvValue) (plain name member rest : string) :
  includes "$" plain = false ->
  name <> "" ->
  includes "}" name = false ->
  env name = EnvInherited member ->
  expand_text env (plain +:+ placeholder name +:+ rest)
  = plain +:+ member +:+ expand_text env rest.
Proof.
  intros Hplain Hname Hclose Henv.
  rewrite expand_text_plain_prefix by exact Hplain.
  rewrite expand_text_placeholder by assumption.
  unfold placeholder_value. rewrite Henv. reflexivity.
Qed.

Section ExpandFacts.
Variable JSON_stringify : jsval -> string.
Variable JSON_parse : string -> Outcome jsval.

(** So a configuration goes through [expandEnvironmentVariables] as through
    [JSON.stringify] and [JSON.parse] alone when every variable is empty and
    its text names no inherited member in a placeholder. *)
Lemma expandEnvironmentVariables_without_variables
    (env : string -> EnvValue) (config : jsval) :
  (forall name value, env name = EnvVariable value -> value = "") ->
  (forall name member,
      env name = EnvInherited member ->
      includes (placeholder name) (JSON_stringify config) = false) ->
  expandEnvironmentVariables JSON_stringify JSON_parse env config
  = JSON_parse (JSON_stringify config).
Proof.
  intros Hvars Hmembers. unfold expandEnvironmentVariables, expand_text.
  rewrite replace_placeholders_unset by assumption. reflexivity.
Qed.
End ExpandFacts.

(** Splits on the name an environment of the scenarios is asked for. *)
Ltac by_name name H :=
  repeat match type of H with
         | context [String.eqb name ?known] =>
             destruct (String.eqb_spec name known) as [->|_];
             [vm_compute in H |- *; first [discriminate H | reflexivity]|]
         end;
  try discriminate H.

Lemma expand_without_variables_witness :
  expand_text only_empty (dq "{'command':'${EMPTY}','url':'${HOME}/x'}")
  = dq "{'command':'${EMPTY}','url':'${HOME}/x'}".
Proof.
  apply (expand_text_without_variables only_empty).
  - intros name value H. unfold only_empty, object_member in H.
    simpl existsb in H.
    destruct (String.eqb name "EMPTY"); [congruence|].
    repeat match type of H with
           | context [if ?b then _ else _] => destruct b
           end; discriminate H.
  - intros name member H. unfold only_empty, object_member in H.
    simpl existsb in H. by_name name H.
Defined.

Lemma expand_replaces_witness :
  expand_text one_variable
    (dq "{'command':'" +:+ "${" +:+ "TEST_VAR" +:+ "}" +:+ dq "','url':'${HOME}'}")
  = dq "{'command':'" +:+ "test-value"
    +:+ expand_text one_variable (dq "','url':'${HOME}'}").
Proof.
  apply (expand_text_replaces_placeholder one_variable
           (dq "{'command':'") "TEST_VAR" "test-value"
           (dq "','url':'${HOME}'}")).
  - vm_compute. reflexivity.
  - discriminate.
  - vm_compute. reflexivity.
  - reflexivity.
  - discriminate.
Defined.

Lemma expand_keeps_unset_witness :
  expand_text one_variable
    (dq "{'url':'" +:+ placeholder "HOME" +:+ dq "/${TEST_VAR}'}")
  = dq "{'url':'" +:+ placeholder "HOME"
    +:+ expand_text one_variable (dq "/${TEST_VAR}'}").
Proof.
  apply (expand_text_keeps_unset_placeholder one_variable
           (dq "{'url':'") "HOME" (dq "/${TEST_VAR}'}")).
  - vm_compute. reflexivity.
  - discriminate.
  - vm_compute. reflexivity.
  - left. reflexivity.
Defined.

Lemma expand_inherited_witness :
  expand_text only_empty
    (dq "{'command':'" +:+ placeholder "constructor" +:+ dq "'}")
  = dq "{'command':'" +:+ "function Object() { [native code] }"
    +:+ expand_text only_empty (dq "'}").
Proof.
  apply (expand_text_replaces_inherited_member only_empty
           (dq "{'command':'") "constructor"
           "function Object() { [native code] }" (dq "'}")).
  - vm_compute. reflexivity.
  - discriminate.
  - vm_compute. reflexivity.
  - reflexivity.
Defined.

(* ===================================================================== *)
(** ** The headers of a transport                                      *)
(* ===================================================================== *)

Lemma copy_env_headers_other (entries : list (string * jsval)) :
  forall headers key,
    is_header_key key = false ->
    assoc_get key (copy_env_headers entries headers) = assoc_get key headers.
Proof.
  induction entries as [|[k v] rest IH]; intros headers key Hkey; [reflexivity|].
  simpl. rewrite IH by exact Hkey.
  destruct (is_header_key k) eqn:Hk; [|reflexivity].
  apply assoc_get_set_ne. intros ->. congruence.
Qed.

Lemma copy_env_headers_keys (entries : list (string * jsval)) :
  forall headers key value,
    assoc_get key (copy_env_headers entries headers) = Some value ->
    assoc_get key headers = Some value
    \/ (is_header_key key = true /\ (key, value) ∈ entries).
Proof.
  induction entries as [|[k v] rest IH]; intros headers key value H; [auto|].
  simpl in H. apply IH in H as [H|[Hk Hin]].
  - destruct (is_header_key k) eqn:Hk; [|auto].
    destruct (String.eqb_spec k key) as [->|Hne].
    + rewrite assoc_get_set_eq in H. injection H as <-. right. split; [exact Hk|left].
    + rewrite assoc_get_set_ne in H by exact Hne. auto.
  - right. split; [exact Hk|right; exact Hin].
Qed.

Lemma copy_env_headers_last (entries : list (string * jsval)) :
  forall headers key value,
    NoDup (map fst entries) ->
    (key, value) ∈ entries ->
    is_header_key key = true ->
    assoc_get key (copy_env_headers entries headers) = Some value.
Proof.
  induction entries as [|[k v] rest IH]; intros headers key value Hnd Hin Hkey.
  - apply elem_of_nil in Hin. contradiction.
  - simpl in Hnd. apply NoDup_cons in Hnd as [Hfresh Hnd]. simpl.
    apply elem_of_cons in Hin as [Heq|Hin].
    + injection Heq as <- <-. rewrite Hkey.
      assert (Hkeep : forall hs, assoc_get key hs = Some value ->
                assoc_get key (copy_env_headers rest hs) = Some value).
      { clear IH. revert Hfresh. clear. induction rest as [|[k v] rest IH];
          intros Hfresh hs H; [exact H|].
        simpl. apply IH.
        - intros Hin. apply Hfresh. simpl. right. exact Hin.
        - destruct (is_header_key k); [|exact H].
          rewrite assoc_get_set_ne; [exact H|].
          intros ->. apply Hfresh. simpl. left. }
      apply Hkeep. apply assoc_get_set_eq.
    + apply IH; assumption.
Qed.

Ltac in_list :=
  intros;
  repeat match goal with
         | H : _ ∈ _ |- _ => apply (proj1 (list_elem_of_In _ _)) in H; simpl in H
         end;
  apply (proj2 (list_elem_of_In _ _)); simpl; tauto.

Lemma buildHeaders_shape
    (bearerToken apiKey env : jsval) (headers : list (string * jsval)) :
  buildHeaders bearerToken apiKey env = Return headers ->
  exists hs0 hs1,
    ((truthy bearerToken = false /\ hs0 = default_headers)
     \/ exists token,
          truthy bearerToken = true /\ to_string bearerToken = Return token /\
          hs0 = assoc_set "Authorization" (VStr ("Bearer " +:+ token))
                  default_headers) /\
    hs1 = (if truthy apiKey then assoc_set "X-API-Key" apiKey hs0 else hs0) /\
    headers = (if truthy env then copy_env_headers (spread env) hs1 else hs1).
Proof.
  unfold buildHeaders. intros H.
  destruct (truthy bearerToken) eqn:Hb.
  - destruct (to_string bearerToken) as [token|e] eqn:Ht; [|discriminate H].
    injection H as <-.
    eexists. eexists. split; [right; exists token; eauto|].
    split; reflexivity.
  - injection H as <-.
    eexists. eexists. split; [left; auto|].
    split; reflexivity.
Qed.

Lemma default_headers_keys (k : string) (v : jsval) :
  assoc_get k default_headers = Some v ->
  k ∈ ["Content-Type"; "Accept"; "User-Agent"].
Proof.
  unfold default_headers. simpl.
  destruct (String.eqb_spec k "Content-Type") as [->|_]; [in_list|].
  destruct (String.eqb_spec k "Accept") as [->|_]; [in_list|].
  destruct (String.eqb_spec k "User-Agent") as [->|_]; [in_list|].
  discriminate.
Qed.

Lemma assoc_get_set_inv {A} (k0 k : string) (v0 v : A) (l : list (string * A)) :
  assoc_get k (assoc_set k0 v0 l) = Some v ->
  (k = k0 /\ v = v0) \/ (k <> k0 /\ assoc_get k l = Some v).
Proof.
  intros H. destruct (String.eqb_spec k0 k) as [<-|Hne].
  - rewrite assoc_get_set_eq in H. injection H as <-. auto.
  - rewrite assoc_get_set_ne in H by exact Hne. right. split; [congruence|exact H].
Qed.

(** X11.  Whatever the configuration holds, the headers [buildHeaders] returns
    carry the content type, the accept and the user agent it starts from:
    no entry of [env] and no credential replaces them. *)
Theorem buildHeaders_fixed_headers
    (bearerToken apiKey env : jsval) (headers : list (string * jsval)) :
  buildHeaders bearerToken apiKey env = Return headers ->
  assoc_get "Content-Type" headers = Some (VStr "application/json") /\
  assoc_get "Accept" headers = Some (VStr "application/json") /\
  assoc_get "User-Agent" headers = Some (VStr "WebSocket-MCP-Proxy/1.0.0").
Proof.
  intros H.
  apply buildHeaders_shape in H as (hs0 & hs1 & Hhs0 & -> & ->).
  assert (Hgen : forall key,
            is_header_key key = false ->
            key <> "Authorization" -> key <> "X-API-Key" ->
            assoc_get key
              (if truthy env
               then copy_env_headers (spread env)
                      (if truthy apiKey then assoc_set "X-API-Key" apiKey hs0
                       else hs0)
               else if truthy apiKey then assoc_set "X-API-Key" apiKey hs0
                    else hs0)
            = assoc_get key default_headers).
  { intros key Hkey Hauth Hapi.
    assert (H0 : assoc_get key hs0 = assoc_get key default_headers).
    { destruct Hhs0 as [[_ ->]|(token & _ & _ & ->)]; [reflexivity|].
      apply assoc_get_set_ne. congruence. }
    destruct (truthy env), (truthy apiKey);
      rewrite ?copy_env_headers_other by exact Hkey;
      rewrite ?assoc_get_set_ne by congruence; exact H0. }
  repeat split; rewrite Hgen; try reflexivity; discriminate.
Qed.

(** X12.  Every header [buildHeaders] returns is one of the three fixed
    headers or of the two credentials, or else an entry of [env] whose key
    passes the header test, with the value [env] gives it: an entry of [env]
    that is no header is never sent. *)
Theorem buildHeaders_sends_only_header_entries
    (bearerToken apiKey env : jsval) (headers : list (string * jsval))
    (key : string) (value : jsval) :
  buildHeaders bearerToken apiKey env = Return headers ->
  assoc_get key headers = Some value ->
  key ∈ ["Content-Type"; "Accept"; "User-Agent"; "Authorization"; "X-API-Key"]
  \/ (is_header_key key = true /\ (key, value) ∈ spread env).
Proof.
  intros H Hget.
  apply buildHeaders_shape in H as (hs0 & hs1 & Hhs0 & -> & ->).
  assert (H0 : forall k v, assoc_get k hs0 = Some v ->
            k ∈ ["Content-Type"; "Accept"; "User-Agent"; "Authorization";
                 "X-API-Key"]).
  { intros k v Hk. destruct Hhs0 as [[_ ->]|(token & _ & _ & ->)].
    - apply default_headers_keys in Hk. in_list.
    - apply assoc_get_set_inv in Hk as [[-> _]|[_ Hk]]; [in_list|].
      apply default_headers_keys in Hk. in_list. }
  assert (H1 : forall k v,
            assoc_get k (if truthy apiKey
                         then assoc_set "X-API-Key" apiKey hs0 else hs0) = Some v ->
            k ∈ ["Content-Type"; "Accept"; "User-Agent"; "Authorization";
                 "X-API-Key"]).
  { intros k v Hk. destruct (truthy apiKey); [|eauto].
    apply assoc_get_set_inv in Hk as [[-> _]|[_ Hk]]; [in_list|eauto]. }
  destruct (truthy env); [|left; eauto].
  apply copy_env_headers_keys in Hget as [Hg|Hg]; [left; eauto|right; exact Hg].
Qed.

Lemma assoc_get_elem {A} (k : string) (v : A) (l : list (string * A)) :
  assoc_get k l = Some v -> (k, v) ∈ l.
Proof.
  induction l as [|[k0 v0] l IH]; [discriminate|].
  simpl. destruct (String.eqb_spec k k0) as [->|Hne].
  - intros H. injection H as <-. left.
  - intros H. right. apply IH, H.
Qed.

Lemma assoc_get_none_elem {A} (k : string) (v : A) (l : list (string * A)) :
  assoc_get k l = None -> (k, v) ∉ l.
Proof.
  induction l as [|[k0 v0] l IH]; intros H Hin.
  - apply elem_of_nil in Hin. exact Hin.
  - simpl in H. destruct (String.eqb_spec k k0) as [->|Hne]; [discriminate H|].
    apply elem_of_cons in Hin as [Heq|Hin]; [congruence|]. apply (IH H Hin).
Qed.

Lemma copy_env_headers_keeps (entries : list (string * jsval)) :
  forall headers key value,
    assoc_get key headers = Some value ->
    (forall v, (key, v) ∉ entries) ->
    assoc_get key (copy_env_headers entries headers) = Some value.
Proof.
  induction entries as [|[k v0] rest IH]; intros headers key value H Hfresh;
    [exact H|].
  simpl. apply IH.
  - destruct (is_header_key k); [|exact H].
    rewrite assoc_get_set_ne; [exact H|].
    intros ->. apply (Hfresh v0). left.
  - intros v Hin. apply (Hfresh v). right. exact Hin.
Qed.

(** X13.  With a bearer token and an [env] object, the authorization sent is
    [Bearer] followed by the token, unless [env] has an entry named
    Authorization, whose value is sent in its place. *)
Theorem buildHeaders_authorization
    (apiKey : jsval) (fields : list (string * jsval)) (token : string) :
  token <> "" ->
  NoDup (map fst fields) ->
  exists headers,
    buildHeaders (VStr token) apiKey (VObj fields) = Return headers /\
    assoc_get "Authorization" headers =
      Some (default (VStr ("Bearer " +:+ token)) (assoc_get "Authorization" fields)).
Proof.
  intros Htoken Hnd.
  assert (Ht : truthy (VStr token) = true).
  { simpl. destruct (String.eqb_spec token ""); [contradiction|reflexivity]. }
  destruct (buildHeaders (VStr token) apiKey (VObj fields)) as [headers|e] eqn:H.
  2:{ unfold buildHeaders in H. rewrite Ht in H. discriminate H. }
  exists headers. split; [reflexivity|].
  apply buildHeaders_shape in H as (hs0 & hs1 & Hhs0 & -> & ->).
  destruct Hhs0 as [[Hf _]|(tk & _ & Htk & ->)]; [congruence|].
  injection Htk as <-.
  set (hs := if truthy apiKey then _ else _).
  assert (Hhs : assoc_get "Authorization" hs = Some (VStr ("Bearer " +:+ token))).
  { unfold hs. destruct (truthy apiKey);
      rewrite ?assoc_get_set_ne by discriminate; apply assoc_get_set_eq. }
  change (truthy (VObj fields)) with true. cbn [spread].
  destruct (assoc_get "Authorization" fields) as [v|] eqn:Hauth; simpl.
  - apply copy_env_headers_last; [exact Hnd| |reflexivity].
    apply assoc_get_elem, Hauth.
  - apply copy_env_headers_keeps; [exact Hhs|].
    intros v. apply assoc_get_none_elem, Hauth.
Qed.

Lemma buildHeaders_fixed_witness :
  assoc_get "Content-Type"
    (default_headers ++ [("X-API-Key", VStr "k")])%list
    = Some (VStr "application/json") /\
  assoc_get "Accept" (default_headers ++ [("X-API-Key", VStr "k")])%list
    = Some (VStr "application/json") /\
  assoc_get "User-Agent" (default_headers ++ [("X-API-Key", VStr "k")])%list
    = Some (VStr "WebSocket-MCP-Proxy/1.0.0").
Proof.
  apply (buildHeaders_fixed_headers VUndefined (VStr "k") VUndefined).
  vm_compute. reflexivity.
Defined.

Lemma buildHeaders_only_header_entries_witness :
  "X-Custom-Header"
    ∈ ["Content-Type"; "Accept"; "User-Agent"; "Authorization"; "X-API-Key"]
  \/ (is_header_key "X-Custom-Header" = true
      /\ ("X-Custom-Header", VStr "v") ∈ spread (VObj header_env)).
Proof.
  apply (buildHeaders_sends_only_header_entries (VStr "tok") (VStr "k")
           (VObj header_env)
           (default_headers
            ++ [("Authorization", VStr "Basic abc"); ("X-API-Key", VStr "k");
                ("X-Custom-Header", VStr "v")])%list).
  - vm_compute. reflexivity.
  - vm_compute. reflexivity.
Defined.

Lemma buildHeaders_authorization_witness :
  exists headers,
    buildHeaders (VStr "tok") (VStr "k") (VObj header_env) = Return headers /\
    assoc_get "Authorization" headers =
      Some (default (VStr ("Bearer " +:+ "tok"))
              (assoc_get "Authorization" header_env)).
Proof.
  apply (buildHeaders_authorization (VStr "k") header_env "tok").
  - discriminate.
  - apply (bool_decide_unpack _). vm_compute. reflexivity.
Defined.

(* ===================================================================== *)
(** ** The streamed-HTTP send                                          *)
(* ===================================================================== *)

Lemma trim_end_blank (s : string) :
  trim_end s = "" -> forallb is_space (list_ascii_of_string s) = true.
Proof.
  induction s as [|c s IH]; [reflexivity|].
  simpl. destruct (trim_end s) as [|k kept]; [|discriminate].
  destruct (is_space c); [|discriminate].
  intros _. apply IH. reflexivity.
Qed.

Lemma trim_start_text (p : ascii -> bool) (s : string) :
  (forall c, is_space c = true -> p c = false) ->
  existsb p (list_ascii_of_string (trim_start s))
  = existsb p (list_ascii_of_string s).
Proof.
  intros Hp. induction s as [|c s IH]; [reflexivity|].
  simpl. destruct (is_space c) eqn:Hc; [|reflexivity].
  rewrite IH, (Hp c Hc). reflexivity.
Qed.

(** A text with an ASCII character that is no white space is not blank. *)
Lemma has_ascii_text_trim (s : string) :
  has_ascii_text s = true -> trim s <> "".
Proof.
  unfold has_ascii_text, trim. intros H Hblank.
  rewrite <- (trim_start_text _ s) in H
    by (intros c Hc; rewrite Hc; reflexivity).
  apply trim_end_blank in Hblank.
  apply existsb_exists in H as (c & Hin & Hc).
  rewrite forallb_forall in Hblank. rewrite (Hblank c Hin) in Hc.
  discriminate Hc.
Qed.

Section Http.
Variable JSON_parse : string -> Outcome jsval.

Lemma read_loop_whole (message_id : option string) (chunks : list string) :
  read_loop JSON_parse message_id chunks "" =
  scan_text JSON_parse message_id (foldr String.append "" chunks).
Proof.
  rewrite read_loop_chunks. destruct chunks; reflexivity.
Qed.

(** X14.  Two responses with the same status and content type and the same
    body text make [sendHTTP] complete alike, however each body is cut into
    reads. *)
Theorem sendHTTP_independent_of_reads
    (message : Request) (r1 r2 : HttpResponse) :
  resp_ok r1 = resp_ok r2 ->
  resp_status r1 = resp_status r2 ->
  resp_statusText r1 = resp_statusText r2 ->
  resp_contentType r1 = resp_contentType r2 ->
  body_text r1 = body_text r2 ->
  sendHTTP JSON_parse message (Return r1) = sendHTTP JSON_parse message (Return r2).
Proof.
  intros Hok Hstatus Htext Hct Hbody. unfold sendHTTP. simpl.
  rewrite !read_loop_whole. fold (body_text r1). fold (body_text r2).
  rewrite Hok, Hstatus, Htext, Hct, Hbody. reflexivity.
Qed.

(** With a body that is read to its end, which is what [sendHTTP] is about,
    nothing that fails to parse makes the call reject. *)
Lemma sendHTTP_resolves (message : Request) (response : HttpResponse) :
  resp_ok response = true ->
  content_type_has "application/json" (resp_contentType response) = false ->
  exists v, sendHTTP JSON_parse message (Return response) = Return v.
Proof.
  intros Hok Hjson. unfold sendHTTP. simpl. rewrite Hok, Hjson. simpl.
  destruct (content_type_has "text/" (resp_contentType response)).
  - destruct (JSON_parse (body_text response)); simpl; eauto.
  - destruct (read_loop JSON_parse (req_id message) (resp_chunks response) "")
      as [data|buffer]; [eauto|].
    destruct (str_truthy (trim buffer)); [|eauto].
    destruct (JSON_parse buffer); simpl; eauto.
Qed.

(** X15.  On a response with an ok status whose content type is not JSON,
    [sendHTTP] resolves whenever the body is there and is read to its end:
    no line or text that fails to parse makes it reject.  When it rejects,
    either the response has no body and no text content type, and the error
    is the one of [getReader] on [null], or a read has failed, and the error
    is the one of that read. *)
Theorem sendHTTP_resolves_unless_json
    (message : Request) (response : HttpResponse) (ending : BodyEnd) :
  resp_ok response = true ->
  content_type_has "application/json" (resp_contentType response) = false ->
  (ending = BodyEnds ->
   exists v, sendHTTP_reading JSON_parse message response ending = Return v)
  /\ forall error,
       sendHTTP_reading JSON_parse message response ending = Throw error ->
       (ending = BodyAbsent
        /\ content_type_has "text/" (resp_contentType response) = false
        /\ error = NoReader)
       \/ ending = BodyBreaks error.
Proof.
  intros Hok Hjson. split.
  - intros ->. apply sendHTTP_resolves; assumption.
  - intros error. unfold sendHTTP_reading. rewrite Hok, Hjson.
    cbn [negb andb orb].
    destruct ending as [| |broken].
    + destruct (content_type_has "text/" (resp_contentType response)) eqn:Htext;
        cbn [negb].
      * intros H.
        destruct (sendHTTP_resolves message
                    (mkHttpResponse true (resp_status response)
                       (resp_statusText response) (resp_contentType response) []))
          as [v Hv]; [reflexivity|exact Hjson|].
        rewrite Hv in H. discriminate H.
      * intros H. injection H as <-. left. auto.
    + intros H. destruct (sendHTTP_resolves message response Hok Hjson) as [v Hv].
      rewrite Hv in H. discriminate H.
    + destruct (content_type_has "text/" (resp_contentType response)).
      * intros H. injection H as <-. right. reflexivity.
      * destruct (read_loop JSON_parse (req_id message) (resp_chunks response) "");
          intros H; [discriminate H|].
        injection H as <-. right. reflexivity.
Qed.

(** X16.  When the body of a streamed response is read to its end, no
    complete line of it answers the request and the text after the last
    newline holds an ASCII character that is no white space, the call
    resolves with that text: parsed when it parses, whatever id it carries,
    and wrapped as the [result] of an object when it does not. *)
Theorem sendHTTP_falls_back_on_trailing_text
    (message : Request) (response : HttpResponse) :
  resp_ok response = true ->
  content_type_has "application/json" (resp_contentType response) = false ->
  content_type_has "text/" (resp_contentType response) = false ->
  (forall line,
      line ∈ removelast (str_split newline (body_text response)) ->
      ~ answers JSON_parse (req_id message) line) ->
  let rest := default "" (last (str_split newline (body_text response))) in
  has_ascii_text rest = true ->
  sendHTTP JSON_parse message (Return response) =
  Return match JSON_parse rest with
         | Return data => data
         | Throw _ => VObj [("result", VStr rest)]
         end.
Proof.
  intros Hok Hjson Htext Hno rest Hrest.
  rewrite sendHTTP_stream by assumption. unfold scan_text.
  rewrite (scan_lines_no_answer JSON_parse _ _ Hno). fold rest.
  rewrite (str_truthy_true _ (has_ascii_text_trim _ Hrest)).
  destruct (JSON_parse rest); reflexivity.
Qed.

End Http.

(** On a streamed-HTTP transport [send_streamed] is the path [send] takes. *)
Lemma send_streamed_is_send (JSON_parse : string -> Outcome jsval)
    (t : HttpTransport) (fetch : Request -> Outcome HttpResponse)
    (message : Request) :
  config_type t = STREAMABLE_HTTP ->
  match send_route t message with
  | SendThrows e => send_streamed JSON_parse t fetch message = Throw e
  | ViaHTTP _ message' _ =>
      send_streamed JSON_parse t fetch message
      = sendHTTP JSON_parse message' (fetch message')
  | _ => False
  end.
Proof.
  intros Hty. unfold send_route, send_streamed.
  destruct (send_prepare t message) as [[[t' m'] i]|e] eqn:Hp; [|reflexivity].
  apply send_prepare_keeps in Hp as (_ & _ & Hty' & _).
  rewrite Hty', Hty. reflexivity.
Qed.

Lemma sendHTTP_reads_witness :
  sendHTTP json_parse request_x (Return stream_response)
  = sendHTTP json_parse request_x (Return whole_response).
Proof.
  apply (sendHTTP_independent_of_reads json_parse request_x
           stream_response whole_response);
    vm_compute; reflexivity.
Defined.

Lemma sendHTTP_resolves_witness :
  (exists v,
      sendHTTP_reading json_parse request_x trailing_response BodyEnds = Return v)
  /\ forall error,
       sendHTTP_reading json_parse request_x no_content_response BodyAbsent
       = Throw error ->
       error = NoReader.
Proof.
  split.
  - apply (sendHTTP_resolves_unless_json json_parse request_x trailing_response
             BodyEnds); vm_compute; reflexivity.
  - intros error H.
    destruct (sendHTTP_resolves_unless_json json_parse request_x
                no_content_response BodyAbsent) as [_ Hcause];
      [vm_compute; reflexivity | vm_compute; reflexivity |].
    destruct (Hcause error H) as [(_ & _ & Herror) | Hbreaks];
      [exact Herror | discriminate Hbreaks].
Defined.

Lemma sendHTTP_trailing_witness :
  sendHTTP json_parse request_x (Return trailing_response) =
  Return match json_parse "not json" with
         | Return data => data
         | Throw _ => VObj [("result", VStr "not json")]
         end.
Proof.
  apply (sendHTTP_falls_back_on_trailing_text json_parse request_x
           trailing_response); try (vm_compute; reflexivity).
  intros line Hin (data & data_id & Hparse & Hid & Hmatch).
  vm_compute in Hin. apply list_elem_of_singleton in Hin. subst line.
  vm_compute in Hparse. injection Hparse as <-.
  vm_compute in Hid. injection Hid as <-.
  vm_compute in Hmatch. discriminate Hmatch.
Defined.

(* ===================================================================== *)
(** ** Responses, failed posts, disconnection and ids                  *)
(* ===================================================================== *)

Lemma settlements_of_none (c : nat) (o : Outcome jsval)
    (entries : list (string * Pending)) :
  (forall kv, kv ∈ entries -> pr_promise (snd kv) <> c) ->
  settlements_of c (map (fun kv => (pr_promise (snd kv), o)) entries) = [].
Proof.
  induction entries as [|[k e] rest IH]; intros Hne; [reflexivity|].
  simpl. destruct (Nat.eqb_spec (pr_promise e) c) as [Heq|_].
  - exfalso. apply (Hne (k, e)); [left|exact Heq].
  - apply IH. intros kv Hin. apply Hne. right. exact Hin.
Qed.

Lemma settlements_of_one (c : nat) (o : Outcome jsval)
    (entries : list (string * Pending)) (key : string) (entry : Pending) :
  NoDup (map fst entries) ->
  (key, entry) ∈ entries ->
  pr_promise entry = c ->
  (forall k e, (k, e) ∈ entries -> pr_promise e = c -> k = key) ->
  settlements_of c (map (fun kv => (pr_promise (snd kv), o)) entries) = [o].
Proof.
  induction entries as [|[k0 e0] rest IH]; intros Hnd Hin Hc Honly.
  - apply elem_of_nil in Hin. contradiction.
  - simpl in Hnd. apply NoDup_cons in Hnd as [Hfresh Hnd]. simpl.
    assert (Hrest_key : forall e, (k0, e) ∉ rest).
    { intros e He. apply Hfresh. apply list_elem_of_fmap. exists (k0, e). auto. }
    destruct (Nat.eqb_spec (pr_promise e0) c) as [Heq|Hne].
    + f_equal. apply settlements_of_none. intros [k e] Hkv Hp. simpl in Hp.
      assert (k = key) by (apply (Honly k e); [right; exact Hkv|exact Hp]).
      assert (k0 = key) by (apply (Honly k0 e0); [left|exact Heq]).
      subst. apply (Hrest_key e Hkv).
    + apply elem_of_cons in Hin as [Heq|Hin].
      * injection Heq as <- <-. contradiction.
      * apply IH; [exact Hnd|exact Hin|exact Hc|].
        intros k e Hkv. apply Honly. right. exact Hkv.
Qed.

Lemma cleared_lookup (entries : list (string * Pending)) (m : gmap nat Timer)
    (kv : string * Pending) :
  kv ∈ entries ->
  foldr (fun kv m => delete (pr_timeout (snd kv)) m) m entries
    !! pr_timeout (snd kv) = None.
Proof.
  induction entries as [|kv0 rest IH]; intros Hin.
  - apply elem_of_nil in Hin. contradiction.
  - simpl. apply elem_of_cons in Hin as [->|Hin].
    + apply lookup_delete_eq.
    + destruct (decide (pr_timeout (snd kv0) = pr_timeout (snd kv))) as [->|Hne].
      * apply lookup_delete_eq.
      * rewrite lookup_delete_ne by exact Hne. apply IH, Hin.
Qed.

Section Loop.
Variable JSON_parse : string -> Outcome jsval.

Lemma entry_owns_promise (rt : Runtime) (key key' : string) (entry entry' : Pending) :
  wf_runtime rt ->
  pendingRequests (transport rt) !! key = Some entry ->
  pendingRequests (transport rt) !! key' = Some entry' ->
  pr_promise entry' = pr_promise entry ->
  key' = key.
Proof.
  intros W Hk Hk' Heq.
  destruct (wf_entries rt W key entry Hk) as (Hp & tm & Htm & Hkey).
  destruct (wf_entries rt W key' entry' Hk') as (Hp' & tm' & Htm' & Hkey').
  rewrite <- Hp', Heq, Hp, Htm in Htm'. congruence.
Qed.

Lemma response_finishes (rt : Runtime) (key : string) (entry : Pending)
    (data : jsval) :
  wf_runtime rt ->
  pendingRequests (transport rt) !! key = Some entry ->
  finished (pr_promise entry)
    (settle (pr_promise entry) (Return data)
       (set_transport
          (set_pendingRequests (delete key (pendingRequests (transport rt)))
             (transport rt))
          (set_timers (delete (pr_timeout entry) (timers rt)) rt))).
Proof.
  intros W Hk.
  destruct (wf_entries rt W key entry Hk) as (Hp & tm & Htm & Hkey).
  constructor; simpl.
  - rewrite Hp. apply (wf_timers rt W). eauto.
  - destruct (in_flight rt !! pr_promise entry) eqn:E; [|reflexivity].
    rewrite Hp in E. rewrite (wf_phase rt W) in Htm by eauto. discriminate.
  - rewrite Hp. apply lookup_delete_eq.
  - intros key' entry' Hk' Heq.
    apply lookup_delete_Some in Hk' as [Hne Hk'].
    apply Hne. symmetry. apply (entry_owns_promise rt key key' entry entry' W Hk Hk' Heq).
Qed.

(** X17.  A message on the event stream whose id has an entry in the
    correlation table resolves the call of that entry with the message; the
    entry is removed and its timer cleared, so the timeout cannot fire any
    more, and nothing that follows settles the call again. *)
Theorem response_resolves_exactly_once
    (rt : Runtime) (key : string) (entry : Pending)
    (event_data : string) (data : jsval) :
  reachable JSON_parse rt ->
  pendingRequests (transport rt) !! key = Some entry ->
  key <> "" ->
  JSON_parse event_data = Return data ->
  get_prop "id" data = Return (VStr key) ->
  exists rt1,
    step JSON_parse rt (SseMessage event_data) = Some rt1 /\
    settlements_of (pr_promise entry) (settlements rt1) = [Return data] /\
    pendingRequests (transport rt1) !! key = None /\
    step JSON_parse rt1 (TimerFires (pr_timeout entry)) = None /\
    forall evs rt2,
      run JSON_parse rt1 evs = Some rt2 ->
      settlements_of (pr_promise entry) (settlements rt2) = [Return data].
Proof.
  intros Hreach Hk Hkey Hparse Hid.
  pose proof (reachable_wf JSON_parse rt Hreach) as W.
  destruct (wf_entries rt W key entry Hk) as (Hp & tm & Htm & _).
  eexists. split.
  { unfold step, onmessage. rewrite Hparse. unfold bind, handleMessage.
    rewrite Hid. unfold bind. rewrite (str_truthy_true _ Hkey), Hk. reflexivity. }
  assert (Hlog : settlements_of (pr_promise entry)
                   (settlements
                      (settle (pr_promise entry) (Return data)
                         (set_transport
                            (set_pendingRequests
                               (delete key (pendingRequests (transport rt)))
                               (transport rt))
                            (set_timers (delete (pr_timeout entry) (timers rt)) rt))))
                 = [Return data]).
  { rewrite settlements_of_settle_eq. simpl.
    rewrite (wf_unsettled rt W (pr_promise entry)); [reflexivity|].
    right. left. rewrite Hp. eauto. }
  split; [exact Hlog|]. split; [simpl; apply lookup_delete_eq|]. split.
  - simpl. rewrite lookup_delete_eq. reflexivity.
  - intros evs rt2 Hrun.
    rewrite (finished_run JSON_parse _ evs _ rt2
               (response_finishes rt key entry data W Hk) Hrun).
    exact Hlog.
Qed.

(** X18.  On a push-stream transport a POST that fails, by its status or by
    the network, rejects the call and registers nothing: the correlation
    table and the timers stay as they were, and nothing that follows settles
    the call again. *)
Theorem failed_post_rejects_without_registering
    (rt : Runtime) (c : nat) (message : Request) (message_id : string)
    (posted : Outcome HttpResponse) (e : JsError) :
  reachable JSON_parse rt ->
  config_type (transport rt) = SSE ->
  in_flight rt !! c = Some (message, message_id) ->
  match posted with
  | Throw thrown => e = thrown
  | Return response =>
      resp_ok response = false /\
      e = Error ("SSE POST failed: " +:+ Z_to_string (resp_status response)
                 +:+ " " +:+ resp_statusText response)
  end ->
  exists rt1,
    step JSON_parse rt (FetchSettles c posted) = Some rt1 /\
    pendingRequests (transport rt1) = pendingRequests (transport rt) /\
    timers rt1 = timers rt /\
    forall evs rt2,
      run JSON_parse rt1 evs = Some rt2 ->
      settlements_of c (settlements rt2) = [Throw e].
Proof.
  intros Hreach Hty Hc Hposted.
  pose proof (reachable_wf JSON_parse rt Hreach) as W.
  exists (settle c (Throw e) (set_in_flight (delete c (in_flight rt)) rt)).
  split.
  { simpl. rewrite Hc, Hty. unfold sendSSE_continue.
    destruct posted as [response|thrown].
    - destruct Hposted as [Hok ->]. rewrite Hok. reflexivity.
    - subst e. reflexivity. }
  split; [reflexivity|]. split; [reflexivity|].
  intros evs rt2 Hrun.
  assert (Hfin : finished c (settle c (Throw e)
                               (set_in_flight (delete c (in_flight rt)) rt))).
  { constructor; simpl.
    - apply (wf_in_flight rt W). eauto.
    - apply lookup_delete_eq.
    - apply (wf_phase rt W). eauto.
    - intros key entry Hk Heq.
      destruct (wf_entries rt W key entry Hk) as (Hp & tm & Htm & _).
      rewrite <- Hp, Heq, (wf_phase rt W c) in Htm by eauto. discriminate. }
  rewrite (finished_run JSON_parse c evs _ rt2 Hfin Hrun).
  rewrite settlements_of_settle_eq. simpl.
  rewrite (wf_unsettled rt W c) by eauto. reflexivity.
Qed.

(** X19.  [disconnect] on a connected transport rejects the call of every
    entry of the correlation table with the disconnection error, clears its
    timer and empties the table; every later [send] throws the not-connected
    error, and nothing that follows settles the rejected call again. *)
Theorem disconnect_rejects_pending
    (rt : Runtime) (key : string) (entry : Pending) :
  reachable JSON_parse rt ->
  connected (transport rt) = true ->
  pendingRequests (transport rt) !! key = Some entry ->
  let rt1 := disconnect rt in
  settlements_of (pr_promise entry) (settlements rt1)
    = [Throw (Error "Transport disconnected")] /\
  pendingRequests (transport rt1) = ∅ /\
  step JSON_parse rt1 (TimerFires (pr_timeout entry)) = None /\
  (forall message,
      send_route (transport rt1) message = SendThrows (NotConnected (transport rt))) /\
  forall evs rt2,
    run JSON_parse rt1 evs = Some rt2 ->
    settlements_of (pr_promise entry) (settlements rt2)
      = [Throw (Error "Transport disconnected")].
Proof.
  intros Hreach Hconn Hk rt1.
  pose proof (reachable_wf JSON_parse rt Hreach) as W.
  destruct (wf_entries rt W key entry Hk) as (Hp & tm & Htm & _).
  assert (Hin : (key, entry) ∈ map_to_list (pendingRequests (transport rt))).
  { apply elem_of_map_to_list, Hk. }
  assert (Hcleared : timers rt1 !! pr_timeout entry = None).
  { unfold rt1, disconnect. rewrite Hconn. simpl.
    apply (cleared_lookup _ _ (key, entry) Hin). }
  assert (Hlog : settlements_of (pr_promise entry) (settlements rt1)
                 = [Throw (Error "Transport disconnected")]).
  { unfold rt1, disconnect. rewrite Hconn. simpl.
    rewrite settlements_of_app.
    rewrite (wf_unsettled rt W (pr_promise entry)) by (rewrite Hp; eauto).
    simpl. apply (settlements_of_one _ _ _ key entry).
    - apply NoDup_fst_map_to_list.
    - exact Hin.
    - reflexivity.
    - intros k e Hke Heq. apply elem_of_map_to_list in Hke.
      apply (entry_owns_promise rt key k entry e W Hk Hke Heq). }
  split; [exact Hlog|].
  split; [unfold rt1, disconnect; rewrite Hconn; reflexivity|].
  split; [simpl; rewrite Hcleared; reflexivity|].
  split.
  { intros message. unfold rt1, disconnect. rewrite Hconn. reflexivity. }
  intros evs rt2 Hrun.
  assert (Hfin : finished (pr_promise entry) rt1).
  { constructor.
    - unfold rt1, disconnect. rewrite Hconn. simpl.
      rewrite Hp. apply (wf_timers rt W). eauto.
    - unfold rt1, disconnect. rewrite Hconn. simpl.
      destruct (in_flight rt !! pr_promise entry) eqn:E; [|reflexivity].
      rewrite Hp in E. rewrite (wf_phase rt W) in Htm by eauto. discriminate.
    - rewrite Hp. exact Hcleared.
    - unfold rt1, disconnect. rewrite Hconn. simpl.
      intros k e He. rewrite lookup_empty in He. discriminate. }
  rewrite (finished_run JSON_parse _ evs _ rt2 Hfin Hrun). exact Hlog.
Qed.

(** X20.  [disconnect] returns at once on a transport that is not connected,
    so disconnecting twice is disconnecting once. *)
Theorem disconnect_idempotent (rt : Runtime) :
  disconnect (disconnect rt) = disconnect rt.
Proof.
  unfold disconnect at 1.
  destruct (connected (transport (disconnect rt))) eqn:Hc; [|reflexivity].
  exfalso. unfold disconnect in Hc.
  destruct (connected (transport rt)) eqn:Hc0; simpl in Hc; congruence.
Qed.

Lemma step_requestId (rt rt' : Runtime) (ev : Event) :
  step JSON_parse rt ev = Some rt' ->
  requestId (transport rt) <= requestId (transport rt').
Proof.
  destruct ev as [message|c fetched|event_data|c]; simpl; intros H.
  - injection H as <-. unfold send_route, send_prepare.
    destruct (connected (transport rt)); simpl; [|lia].
    destruct (opt_truthy (req_id message)); simpl.
    + destruct (config_type (transport rt)); simpl; lia.
    + destruct (config_type (transport rt)); simpl; lia.
  - destruct (in_flight rt !! c) as [[m i]|]; [|discriminate].
    injection H as <-. unfold sendSSE_continue.
    destruct (config_type (transport rt)); simpl; try lia.
    destruct fetched as [response|e]; simpl; [|lia].
    destruct (resp_ok response); simpl; lia.
  - injection H as <-. unfold onmessage.
    destruct (JSON_parse event_data) as [data|e]; simpl; [|lia].
    destruct (handleMessage rt data) as [rt1|e] eqn:Hh; [|lia].
    apply handleMessage_cases in Hh as [->|(key & entry & _ & ->)]; simpl; lia.
  - destruct (timers rt !! c); [|discriminate]. injection H as <-.
    simpl. lia.
Qed.

Lemma run_requestId (evs : list Event) :
  forall rt rt',
    run JSON_parse rt evs = Some rt' ->
    requestId (transport rt) <= requestId (transport rt').
Proof.
  induction evs as [|ev evs IH]; intros rt rt' H; simpl in H.
  - injection H as <-. lia.
  - destruct (step JSON_parse rt ev) as [rt1|] eqn:Hs; [|discriminate].
    apply step_requestId in Hs. apply IH in H. lia.
Qed.

(** X21.  Two messages sent without an id on the same transport get different
    ids, whatever happens on the transport between the two sends. *)
Theorem generated_ids_never_repeat
    (rt rt2 : Runtime) (m1 m2 m1' m2' : Request) (t1 t2 : HttpTransport)
    (id1 id2 : string) (evs : list Event) :
  opt_truthy (req_id m1) = false ->
  opt_truthy (req_id m2) = false ->
  send_prepare (transport rt) m1 = Return (t1, m1', id1) ->
  run JSON_parse rt (CallSend m1 :: evs) = Some rt2 ->
  send_prepare (transport rt2) m2 = Return (t2, m2', id2) ->
  id1 <> id2.
Proof.
  intros H1 H2 Hp1 Hrun Hp2.
  simpl in Hrun. unfold send_route in Hrun. rewrite Hp1 in Hrun.
  assert (Ht1 : requestId t1 = requestId (transport rt) + 1
                /\ id1 = "req-" +:+ Z_to_string (requestId (transport rt) + 1)).
  { unfold send_prepare in Hp1. destruct (connected (transport rt)); [|discriminate].
    simpl in Hp1. rewrite H1 in Hp1. injection Hp1 as <- _ <-. auto. }
  destruct Ht1 as [Hreq ->].
  assert (Hge : requestId t1 <= requestId (transport rt2)).
  { destruct (config_type t1); apply run_requestId in Hrun; exact Hrun. }
  unfold send_prepare in Hp2. destruct (connected (transport rt2)); [|discriminate].
  simpl in Hp2. rewrite H2 in Hp2. injection Hp2 as _ _ <-.
  intros Heq. apply (inj (String.app "req-")) in Heq.
  apply (inj pretty) in Heq. lia.
Qed.

End Loop.

Lemma response_witness :
  exists rt1,
    step json_parse armed_runtime (SseMessage result_text) = Some rt1 /\
    settlements_of 0 (settlements rt1) = [Return result_fragment] /\
    pendingRequests (transport rt1) !! "x" = None /\
    step json_parse rt1 (TimerFires 0) = None /\
    forall evs rt2,
      run json_parse rt1 evs = Some rt2 ->
      settlements_of 0 (settlements rt2) = [Return result_fragment].
Proof.
  apply (response_resolves_exactly_once json_parse armed_runtime "x"
           (mkPending 0 0) result_text result_fragment).
  - exists connected_sse, [CallSend request_x; FetchSettles 0 (Return ok_response)].
    split; vm_compute; reflexivity.
  - vm_compute. reflexivity.
  - discriminate.
  - vm_compute. reflexivity.
  - vm_compute. reflexivity.
Defined.

Lemma failed_post_witness :
  exists rt1,
    step json_parse posting_runtime (FetchSettles 0 (Return failed_response))
      = Some rt1 /\
    pendingRequests (transport rt1) = pendingRequests (transport posting_runtime) /\
    timers rt1 = timers posting_runtime /\
    forall evs rt2,
      run json_parse rt1 evs = Some rt2 ->
      settlements_of 0 (settlements rt2)
      = [Throw (Error "SSE POST failed: 503 Service Unavailable")].
Proof.
  apply (failed_post_rejects_without_registering json_parse posting_runtime 0
           request_x "x" (Return failed_response)).
  - exists connected_sse, [CallSend request_x]. split; vm_compute; reflexivity.
  - vm_compute. reflexivity.
  - vm_compute. reflexivity.
  - split; vm_compute; reflexivity.
Defined.

Lemma disconnect_witness :
  let rt1 := disconnect armed_runtime in
  settlements_of 0 (settlements rt1)
    = [Throw (Error "Transport disconnected")] /\
  pendingRequests (transport rt1) = ∅ /\
  step json_parse rt1 (TimerFires 0) = None /\
  (forall message,
      send_route (transport rt1) message
      = SendThrows (NotConnected (transport armed_runtime))) /\
  forall evs rt2,
    run json_parse rt1 evs = Some rt2 ->
    settlements_of 0 (settlements rt2)
      = [Throw (Error "Transport disconnected")].
Proof.
  apply (disconnect_rejects_pending json_parse armed_runtime "x" (mkPending 0 0)).
  - exists connected_sse, [CallSend request_x; FetchSettles 0 (Return ok_response)].
    split; vm_compute; reflexivity.
  - vm_compute. reflexivity.
  - vm_compute. reflexivity.
Defined.

Lemma generated_ids_witness : "req-1" <> "req-2".
Proof.
  apply (generated_ids_never_repeat json_parse
           (start_runtime connected_sse)
           (default (start_runtime connected_sse)
              (run json_parse (start_runtime connected_sse)
                 [CallSend request_without_id;
                  FetchSettles 0 (Return ok_response)]))
           request_without_id request_without_id
           (mkRequest (Some "2.0") "tools/list" (Some "req-1") None)
           (mkRequest (Some "2.0") "tools/list" (Some "req-2") None)
           (set_requestId 1 connected_sse)
           (set_requestId 2
              (transport
                 (default (start_runtime connected_sse)
                    (run json_parse (start_runtime connected_sse)
                       [CallSend request_without_id;
                        FetchSettles 0 (Return ok_response)]))))
           "req-1" "req-2" [FetchSettles 0 (Return ok_response)]);
    vm_compute; reflexivity.
Defined.

(* ===================================================================== *)
(** ** The catalog and the calls it leads to                           *)
(* ===================================================================== *)

(** What [prefix_tool] returns has the server name in front of its name and
    of its description. *)
Lemma prefix_tool_shape (serverName : string) (tool listed : jsval) :
  prefix_tool serverName tool = Return listed ->
  exists name_text description_text,
    get_prop "name" listed = Return (VStr (serverName +:+ ":" +:+ name_text)) /\
    get_prop "description" listed =
      Return (VStr ("[" +:+ serverName +:+ "] " +:+ description_text)).
Proof.
  unfold prefix_tool. intros H.
  apply bind_Return in H as (name & _ & H).
  apply bind_Return in H as (name_text & _ & H).
  apply bind_Return in H as (description & _ & H).
  apply bind_Return in H as (description_text & _ & H).
  injection H as <-. exists name_text, description_text. simpl.
  rewrite assoc_get_set_eq, assoc_get_set_ne by discriminate.
  rewrite assoc_get_set_eq. auto.
Qed.

Lemma map_outcome_elem {A B} (f : A -> Outcome B) (l : list A) :
  forall ys y, map_outcome f l = Return ys -> y ∈ ys ->
    exists x, x ∈ l /\ f x = Return y.
Proof.
  induction l as [|x0 l IH]; intros ys y H Hy; simpl in H.
  - injection H as <-. apply elem_of_nil in Hy. contradiction.
  - apply bind_Return in H as (y0 & Hy0 & H).
    apply bind_Return in H as (ys0 & Hys0 & H). injection H as <-.
    apply elem_of_cons in Hy as [->|Hy].
    + exists x0. split; [left|exact Hy0].
    + destruct (IH ys0 y Hys0 Hy) as (x & Hx & Hfx).
      exists x. split; [right; exact Hx|exact Hfx].
Qed.

Lemma list_loop_elems (clock : nat -> Z) (entries : JsMap McpServer) :
  forall i allTools listed,
    listed ∈ list_loop clock i entries allTools ->
    listed ∈ allTools
    \/ exists serverName srv tool,
         (serverName, srv) ∈ entries /\
         prefix_tool serverName tool = Return listed.
Proof.
  induction entries as [|[serverName srv] rest IH]; intros i allTools listed H;
    simpl in H; [auto|].
  apply IH in H as [H|(n & s & tool & Hin & Hp)].
  - destruct (list_one (clock i) serverName srv) as [prefixed|e] eqn:Hone; [|auto].
    apply elem_of_app in H as [H|H]; [auto|].
    right. unfold list_one in Hone.
    apply bind_Return in Hone as (response & _ & Hone).
    apply bind_Return in Hone as (tools & _ & Hone).
    unfold prefix_tools in Hone. destruct tools; try discriminate Hone.
    destruct (map_outcome_elem _ _ _ _ Hone H) as (tool & _ & Htool).
    exists serverName, srv, tool. split; [left|exact Htool].
  - right. exists n, s, tool. split; [right; exact Hin|exact Hp].
Qed.

(** X22.  The list handler always returns, and every tool it returns carries a
    name that starts with the name of a registered backend and a colon, and a
    description that starts with that name in brackets, whatever the
    backends answered. *)
Theorem listTools_entries_are_namespaced
    (mcpServers : JsMap McpServer) (clock : nat -> Z) :
  exists tools,
    listTools_handler mcpServers clock = Return (VObj [("tools", VArr tools)]) /\
    forall listed,
      listed ∈ tools ->
      exists serverName srv name_text description_text,
        (serverName, srv) ∈ mcpServers /\
        get_prop "name" listed = Return (VStr (serverName +:+ ":" +:+ name_text)) /\
        get_prop "description" listed =
          Return (VStr ("[" +:+ serverName +:+ "] " +:+ description_text)).
Proof.
  eexists. split; [reflexivity|].
  intros listed H. apply list_loop_elems in H as [H|(n & s & tool & Hin & Hp)].
  - apply elem_of_nil in H. contradiction.
  - destruct (prefix_tool_shape n tool listed Hp) as (nt & dt & Hn & Hd).
    exists n, s, nt, dt. auto.
Qed.

(** X23.  The name the catalog gives to a tool that a registered backend lists
    under a plain name (not empty, no colon) leads back to it: a call by
    that name makes one invocation, on that backend, for the tool's own
    name. *)
Theorem listed_name_routes_back
    (mcpServers : JsMap McpServer) (now : Z) (b t : string)
    (session : McpServer) (tool listed : jsval) (toolArgs : jsval) :
  valid_server_name b = true ->
  Map_get b mcpServers = Some session ->
  get_prop "name" tool = Return (VStr t) ->
  t <> "" ->
  includes ":" t = false ->
  prefix_tool b tool = Return listed ->
  exists catalog_name,
    get_prop "name" listed = Return (VStr catalog_name) /\
    fst (callTool_handler mcpServers now catalog_name toolArgs) =
      [mkInvocation (sid session)
         (call_request (srv_type session) now t toolArgs)].
Proof.
  intros Hvalid Hget Hname Ht Hplain Hlisted.
  apply valid_server_name_inv in Hvalid as [Hb Hcolon].
  exists (namespaced_name b t). split.
  - unfold prefix_tool in Hlisted. rewrite Hname in Hlisted. simpl in Hlisted.
    apply bind_Return in Hlisted as (description & _ & H).
    apply bind_Return in H as (description_text & _ & H).
    injection H as <-. simpl.
    rewrite assoc_get_set_ne by discriminate.
    rewrite assoc_get_set_eq. reflexivity.
  - destruct (segments_of_namespaced_name b t Hcolon) as [Hseg Htool].
    rewrite callTool_handler_unfold, Htool, Hseg, Hb, Hget.
    rewrite (before_sep_whole colon t Hplain), (str_truthy_true _ Ht).
    reflexivity.
Qed.

(** X24.  The exit of one backend changes nothing for a call whose name
    starts with another backend: the invocations and the completion are as
    before. *)
Theorem exit_leaves_other_backends
    (mcpServers : JsMap McpServer) (now : Z) (gone : string) (code : Z)
    (toolName : string) (toolArgs : jsval) :
  backend_segment toolName <> gone ->
  callTool_handler (on_exit gone code mcpServers) now toolName toolArgs
  = callTool_handler mcpServers now toolName toolArgs.
Proof.
  intros Hne. rewrite !callTool_handler_unfold. unfold on_exit.
  rewrite Map_get_delete_ne by congruence. reflexivity.
Qed.

(** X25.  Registering a session under a name already taken replaces the
    earlier one: a call by that name invokes the new session only. *)
Theorem register_replaces_session
    (mcpServers : JsMap McpServer) (now : Z) (b t : string)
    (old new : McpServer) (toolArgs : jsval) :
  valid_server_name b = true ->
  t <> "" ->
  includes ":" t = false ->
  fst (callTool_handler (register b new (register b old mcpServers)) now
         (namespaced_name b t) toolArgs)
  = [mkInvocation (sid new) (call_request (srv_type new) now t toolArgs)].
Proof.
  intros Hvalid Ht Hplain.
  apply valid_server_name_inv in Hvalid as [Hb Hcolon].
  destruct (segments_of_namespaced_name b t Hcolon) as [Hseg Htool].
  rewrite callTool_handler_unfold, Htool, Hseg, Hb.
  unfold register. rewrite Map_get_set.
  rewrite (before_sep_whole colon t Hplain), (str_truthy_true _ Ht).
  reflexivity.
Qed.

Section Sessions.
Variable JSON_parse : string -> Outcome jsval.

Lemma send_streamed_with_id (t : HttpTransport)
    (fetch : Request -> Outcome HttpResponse) (message : Request) :
  connected t = true ->
  opt_truthy (req_id message) = true ->
  send_streamed JSON_parse t fetch message
  = sendHTTP JSON_parse message (fetch message).
Proof.
  intros Hc Hid. unfold send_streamed, send_prepare. rewrite Hc, Hid. reflexivity.
Qed.

Lemma call_request_has_id (now : Z) (tool : string) (args : jsval) :
  opt_truthy (req_id (call_request STREAMABLE_HTTP now tool args)) = true.
Proof. reflexivity. Qed.

(** What a call to a streamed-HTTP backend comes to: the reply of the
    backend, normalised, and an error of the transport wrapped as the
    unavailability of the server. *)
Lemma streamed_call (mcpServers : JsMap McpServer) (now : Z) (b t : string)
    (toolArgs : jsval) (n : nat) (tr : HttpTransport)
    (fetch : Request -> Outcome HttpResponse) :
  valid_server_name b = true ->
  t <> "" ->
  includes ":" t = false ->
  config_type tr = STREAMABLE_HTTP ->
  connected tr = true ->
  Map_get b mcpServers = Some (streamed_http_server JSON_parse n tr fetch) ->
  let req := call_request STREAMABLE_HTTP now t toolArgs in
  snd (callTool_handler mcpServers now (namespaced_name b t) toolArgs)
  = let* response :=
      http_server_request (config_name tr) (sendHTTP JSON_parse req (fetch req)) in
    normalize_response response.
Proof.
  intros Hvalid Ht Hplain Hty Hc Hget req.
  apply valid_server_name_inv in Hvalid as [Hb Hcolon].
  destruct (segments_of_namespaced_name b t Hcolon) as [Hseg Htool].
  rewrite callTool_handler_unfold, Htool, Hseg, Hb, Hget.
  rewrite (before_sep_whole colon t Hplain), (str_truthy_true _ Ht).
  simpl. rewrite Hty. fold req.
  rewrite send_streamed_with_id by (exact Hc || reflexivity). reflexivity.
Qed.

(** X26.  When a streamed-HTTP backend answers a tool call with a status that
    is not ok, the caller gets an error that names the server as unavailable
    and carries the status and its text. *)
Theorem streamed_call_reports_http_failure
    (mcpServers : JsMap McpServer) (now : Z) (b t : string)
    (toolArgs : jsval) (n : nat) (tr : HttpTransport)
    (fetch : Request -> Outcome HttpResponse) (response : HttpResponse) :
  valid_server_name b = true ->
  t <> "" ->
  includes ":" t = false ->
  config_type tr = STREAMABLE_HTTP ->
  connected tr = true ->
  Map_get b mcpServers = Some (streamed_http_server JSON_parse n tr fetch) ->
  fetch (call_request STREAMABLE_HTTP now t toolArgs) = Return response ->
  resp_ok response = false ->
  snd (callTool_handler mcpServers now (namespaced_name b t) toolArgs)
  = Throw (Error ("Server " +:+ config_name tr +:+ " is unavailable: "
                  +:+ "HTTP " +:+ Z_to_string (resp_status response) +:+ ": "
                  +:+ resp_statusText response)).
Proof.
  intros Hvalid Ht Hplain Hty Hc Hget Hfetch Hok.
  rewrite (streamed_call mcpServers now b t toolArgs n tr fetch) by assumption.
  rewrite Hfetch. unfold sendHTTP. simpl. rewrite Hok. reflexivity.
Qed.

(** X27.  When the streamed body of a tool call ends without a line that
    answers it and without trailing text, the send resolves with
    [undefined] and the handler fails on reading its result: the caller
    gets a TypeError, not a tool result. *)
Theorem streamed_call_without_answer_fails
    (mcpServers : JsMap McpServer) (now : Z) (b t : string)
    (toolArgs : jsval) (n : nat) (tr : HttpTransport)
    (fetch : Request -> Outcome HttpResponse) (response : HttpResponse) :
  valid_server_name b = true ->
  t <> "" ->
  includes ":" t = false ->
  config_type tr = STREAMABLE_HTTP ->
  connected tr = true ->
  Map_get b mcpServers = Some (streamed_http_server JSON_parse n tr fetch) ->
  let req := call_request STREAMABLE_HTTP now t toolArgs in
  fetch req = Return response ->
  resp_ok response = true ->
  content_type_has "application/json" (resp_contentType response) = false ->
  content_type_has "text/" (resp_contentType response) = false ->
  (forall line,
      line ∈ removelast (str_split newline (body_text response)) ->
      ~ answers JSON_parse (req_id req) line) ->
  trim (default "" (last (str_split newline (body_text response)))) = "" ->
  snd (callTool_handler mcpServers now (namespaced_name b t) toolArgs)
  = Throw (TypeError "Cannot read properties of undefined (reading 'result')").
Proof.
  intros Hvalid Ht Hplain Hty Hc Hget req Hfetch Hok Hjson Htext Hno Hblank.
  rewrite (streamed_call mcpServers now b t toolArgs n tr fetch) by assumption.
  fold req. rewrite Hfetch.
  rewrite sendHTTP_stream by assumption. unfold scan_text.
  rewrite (scan_lines_no_answer JSON_parse _ _ Hno), Hblank. reflexivity.
Qed.

(** X28.  A JSON reply to a tool call is handed back as the backend sent it
    when it has a truthy [result], and wrapped as [content] when it has
    none: an error object of the backend comes back as content, not as an
    error. *)
Theorem streamed_call_normalizes_json_reply
    (mcpServers : JsMap McpServer) (now : Z) (b t : string)
    (toolArgs : jsval) (n : nat) (tr : HttpTransport)
    (fetch : Request -> Outcome HttpResponse) (response : HttpResponse)
    (fields : list (string * jsval)) :
  valid_server_name b = true ->
  t <> "" ->
  includes ":" t = false ->
  config_type tr = STREAMABLE_HTTP ->
  connected tr = true ->
  Map_get b mcpServers = Some (streamed_http_server JSON_parse n tr fetch) ->
  fetch (call_request STREAMABLE_HTTP now t toolArgs) = Return response ->
  resp_ok response = true ->
  content_type_has "application/json" (resp_contentType response) = true ->
  JSON_parse (body_text response) = Return (VObj fields) ->
  snd (callTool_handler mcpServers now (namespaced_name b t) toolArgs)
  = Return (if truthy (default VUndefined (assoc_get "result" fields))
            then VObj fields
            else VObj [("content", VObj fields)]).
Proof.
  intros Hvalid Ht Hplain Hty Hc Hget Hfetch Hok Hjson Hparse.
  rewrite (streamed_call mcpServers now b t toolArgs n tr fetch) by assumption.
  rewrite Hfetch. unfold sendHTTP. simpl. rewrite Hok, Hjson. simpl.
  rewrite Hparse. reflexivity.
Qed.

End Sessions.

Lemma listed_name_witness :
  exists catalog_name,
    get_prop "name" (namespaced "b" run_tool) = Return (VStr catalog_name) /\
    fst (callTool_handler two_backends 1700000000000 catalog_name (VObj [])) =
      [mkInvocation 2 (call_request SSE 1700000000000 "run" (VObj []))].
Proof.
  apply (listed_name_routes_back two_backends 1700000000000 "b" "run"
           (answering 2 SSE) run_tool (namespaced "b" run_tool) (VObj []));
    try (vm_compute; reflexivity).
  discriminate.
Defined.

Lemma exit_witness :
  callTool_handler (on_exit "a" 1 two_backends) 1700000000000 "b:run" (VObj [])
  = callTool_handler two_backends 1700000000000 "b:run" (VObj []).
Proof.
  apply (exit_leaves_other_backends two_backends 1700000000000 "a" 1 "b:run").
  vm_compute. discriminate.
Defined.

Lemma register_replaces_witness :
  fst (callTool_handler
         (register "a" (answering 3 SSE) (register "a" (answering 1 STDIO) []))
         1700000000000 (namespaced_name "a" "run") (VObj []))
  = [mkInvocation 3 (call_request SSE 1700000000000 "run" (VObj []))].
Proof.
  apply (register_replaces_session [] 1700000000000 "a" "run"
           (answering 1 STDIO) (answering 3 SSE) (VObj []));
    try (vm_compute; reflexivity).
  discriminate.
Defined.

Lemma streamed_failure_witness :
  snd (callTool_handler (http_registry failed_response) 1700000000000
         (namespaced_name "files" "read") (VObj []))
  = Throw (Error ("Server " +:+ config_name connected_http +:+ " is unavailable: "
                  +:+ "HTTP " +:+ Z_to_string (resp_status failed_response)
                  +:+ ": " +:+ resp_statusText failed_response)).
Proof.
  apply (streamed_call_reports_http_failure json_parse
           (http_registry failed_response) 1700000000000 "files" "read"
           (VObj []) 7 connected_http (fun _ => Return failed_response)
           failed_response);
    try (vm_compute; reflexivity).
  discriminate.
Defined.

Lemma streamed_without_answer_witness :
  snd (callTool_handler (http_registry other_response) 1700000000000
         (namespaced_name "files" "read") (VObj []))
  = Throw (TypeError "Cannot read properties of undefined (reading 'result')").
Proof.
  apply (streamed_call_without_answer_fails json_parse
           (http_registry other_response) 1700000000000 "files" "read"
           (VObj []) 7 connected_http (fun _ => Return other_response)
           other_response);
    try (vm_compute; reflexivity).
  - discriminate.
  - intros line Hin (data & data_id & Hparse & Hid & Hmatch).
    vm_compute in Hin. apply list_elem_of_singleton in Hin. subst line.
    vm_compute in Hparse. injection Hparse as <-.
    vm_compute in Hid. injection Hid as <-.
    vm_compute in Hmatch. discriminate Hmatch.
Defined.

Lemma streamed_json_reply_witness :
  snd (callTool_handler (http_registry (json_response error_body)) 1700000000000
         (namespaced_name "files" "read") (VObj []))
  = Return
      (if truthy (default VUndefined
                    (assoc_get "result"
                       [("id", VStr "call-1700000000000");
                        ("error", VObj [("code", VNum (-32601))])]))
       then VObj [("id", VStr "call-1700000000000");
                  ("error", VObj [("code", VNum (-32601))])]
       else VObj [("content",
                   VObj [("id", VStr "call-1700000000000");
                         ("error", VObj [("code", VNum (-32601))])])]).
Proof.
  apply (streamed_call_normalizes_json_reply json_parse
           (http_registry (json_response error_body)) 1700000000000
           "files" "read" (VObj []) 7 connected_http
           (fun _ => Return (json_response error_body))
           (json_response error_body));
    try (vm_compute; reflexivity).
  discriminate.
Defined.
